(** * ApplyFlow: the email-to-status pipeline

    A shallow embedding of the inbound-email pipeline of ApplyFlow:

    - [lib/email/status-transitions.ts]  the Transition Engine,
    - [lib/email/ats-patterns.ts], [lib/email/matching.ts]  the Matcher,
    - [lib/llm/classify.ts]  the Classifier,
    - [inngest/functions/process-email.ts]  the Orchestrator,
    - the tables and the status-history trigger of [supabase/migrations].

    [Pipeline] is the run of the Orchestrator on an event with a date that
    parses, against a store that accepts every call; [Runtime] is the run
    with a date that may be invalid and a store that may answer with an
    error.

    Definitions come first, the properties of the specification after them. *)

From Stdlib Require Import Ascii String.
From Stdlib Require Import List Bool Arith NArith ZArith QArith Qround Lia Lqa.
From Stdlib Require Import Sorting.Sorted Sorting.Permutation.
Import ListNotations.

Set Implicit Arguments.
Close Scope Q_scope.

(* ================================================================== *)
(** * Transition Engine: [status-transitions.ts]                       *)
(* ================================================================== *)

Module Transitions.

Local Open Scope Q_scope.

(** The classification ['OFFER'] is [C_OFFER] here: the status of the
    same name keeps the name. *)
Inductive EmailClassification :=
| REJECTION
| INTERVIEW_REQUEST
| C_OFFER
| SCREENING_INVITE
| ASSESSMENT_REQUEST
| GENERIC_UPDATE
| UNRELATED.

Inductive ApplicationStatus :=
| SAVED
| APPLIED
| SCREENING
| INTERVIEWING
| OFFER
| ACCEPTED
| REJECTED
| WITHDRAWN
| GHOSTED.

Definition status_eqb (a b : ApplicationStatus) : bool :=
  match a, b with
  | SAVED, SAVED | APPLIED, APPLIED | SCREENING, SCREENING
  | INTERVIEWING, INTERVIEWING | OFFER, OFFER | ACCEPTED, ACCEPTED
  | REJECTED, REJECTED | WITHDRAWN, WITHDRAWN | GHOSTED, GHOSTED => true
  | _, _ => false
  end.

(** [CLASSIFICATION_TO_STATUS]: [null] is [None]. *)
Definition CLASSIFICATION_TO_STATUS (c : EmailClassification)
  : option ApplicationStatus :=
  match c with
  | REJECTION => Some REJECTED
  | INTERVIEW_REQUEST => Some INTERVIEWING
  | C_OFFER => Some OFFER
  | SCREENING_INVITE => Some SCREENING
  | ASSESSMENT_REQUEST => Some SCREENING
  | GENERIC_UPDATE => None
  | UNRELATED => None
  end.

(** [VALID_TRANSITIONS]: from a status to the statuses it may move to. *)
Definition VALID_TRANSITIONS (s : ApplicationStatus) : list ApplicationStatus :=
  match s with
  | SAVED => [APPLIED; REJECTED; WITHDRAWN]
  | APPLIED => [SCREENING; INTERVIEWING; OFFER; REJECTED; WITHDRAWN; GHOSTED]
  | SCREENING => [INTERVIEWING; OFFER; REJECTED; WITHDRAWN; GHOSTED]
  | INTERVIEWING => [OFFER; REJECTED; WITHDRAWN; GHOSTED]
  | OFFER => [ACCEPTED; REJECTED; WITHDRAWN]
  | ACCEPTED => []
  | REJECTED => []
  | WITHDRAWN => []
  | GHOSTED => [SCREENING; INTERVIEWING; REJECTED]
  end.

(** [Array.prototype.includes] on a list of statuses. *)
Definition includes_status (l : list ApplicationStatus) (t : ApplicationStatus)
  : bool :=
  existsb (status_eqb t) l.

(** A confidence is a JavaScript number.  The classifier's schema admits
    only finite values between 0 and 1 and the fallback is 0.5, so a
    confidence is modelled by the rational it denotes; [<] and [>=] on
    finite numbers are the order of the rationals. *)
Definition number := Q.

Definition js_lt (a b : number) : bool := negb (Qle_bool b a).
Definition js_ge (a b : number) : bool := Qle_bool b a.

(** [CONFIDENCE_THRESHOLDS] *)
Definition AUTO_UPDATE : number := 0.9.
Definition FLAG_FOR_REVIEW : number := 0.7.
Definition MANUAL_ONLY : number := 0.0.

(** The [reason] of a result is a template string over the arguments; the
    template's holes are kept, the rendering of numbers is not. *)
Inductive Reason :=
| DoesNotTrigger (classification : EmailClassification)
| InvalidTransition (currentStatus targetStatus : ApplicationStatus)
| BelowThreshold (confidence : number)
| AutoUpdating (targetStatus : ApplicationStatus) (confidence : number).

Record TransitionResult := {
  shouldUpdate : bool;
  newStatus : option ApplicationStatus;
  reason : Reason;
  needsReview : bool
}.

Definition getStatusTransition
    (classification : EmailClassification)
    (confidence : number)
    (currentStatus : ApplicationStatus) : TransitionResult :=
  match CLASSIFICATION_TO_STATUS classification with
  | None =>
      {| shouldUpdate := false;
         newStatus := None;
         reason := DoesNotTrigger classification;
         needsReview := false |}
  | Some targetStatus =>
      let allowedTransitions := VALID_TRANSITIONS currentStatus in
      if negb (includes_status allowedTransitions targetStatus) then
        {| shouldUpdate := false;
           newStatus := None;
           reason := InvalidTransition currentStatus targetStatus;
           needsReview := true |}
      else if js_lt confidence FLAG_FOR_REVIEW then
        {| shouldUpdate := false;
           newStatus := Some targetStatus;
           reason := BelowThreshold confidence;
           needsReview := true |}
      else
        {| shouldUpdate := true;
           newStatus := Some targetStatus;
           reason := AutoUpdating targetStatus confidence;
           needsReview := js_lt confidence AUTO_UPDATE |}
  end.

Inductive TriggerType :=
| manual
| email_auto
| email_manual
| extension.

Definition getTriggerType (confidence : number) : TriggerType :=
  if js_ge confidence FLAG_FOR_REVIEW then email_auto else email_manual.

End Transitions.

(* ================================================================== *)
(** * JavaScript strings and regular expressions                        *)
(* ================================================================== *)

Module JS.

Local Open Scope N_scope.

(** A JavaScript string is a sequence of UTF-16 code units. *)
Definition char := N.
Definition jsstring := list char.

(** ASCII literals. *)
Definition str (s : string) : jsstring :=
  map N_of_ascii (list_ascii_of_string s).

Definition char_eqb (a b : char) : bool := N.eqb a b.

Fixpoint jsstring_eqb (a b : jsstring) : bool :=
  match a, b with
  | [], [] => true
  | x :: a', y :: b' => char_eqb x y && jsstring_eqb a' b'
  | _, _ => false
  end.

(** Truthiness of a string: the empty string is falsy. *)
Definition truthy (s : jsstring) : bool :=
  match s with [] => false | _ => true end.

(** Case mapping of the letters A-Z and a-z; other code units are left as
    they are (the patterns and tables of the program are ASCII). *)
Definition toLowerChar (c : char) : char :=
  if (65 <=? c) && (c <=? 90) then c + 32 else c.

Definition toUpperChar (c : char) : char :=
  if (97 <=? c) && (c <=? 122) then c - 32 else c.

Definition toLowerCase (s : jsstring) : jsstring := map toLowerChar s.

(** [String.prototype.startsWith] and [includes]. *)
Fixpoint startsWith (s p : jsstring) : bool :=
  match p, s with
  | [], _ => true
  | c :: p', x :: s' => char_eqb c x && startsWith s' p'
  | _ :: _, [] => false
  end.

Fixpoint includes (s sub : jsstring) : bool :=
  startsWith s sub ||
  match s with
  | [] => false
  | _ :: s' => includes s' sub
  end.

(** [Array.prototype.includes] on an array of strings. *)
Definition array_includes (l : list jsstring) (s : jsstring) : bool :=
  existsb (jsstring_eqb s) l.

(** [s.split(sep)] for a one-character separator: never the empty array. *)
Fixpoint split (sep : char) (s : jsstring) : list jsstring :=
  match s with
  | [] => [[]]
  | c :: s' =>
      if char_eqb c sep then [] :: split sep s'
      else match split sep s' with
           | [] => [[c]]
           | p :: ps => (c :: p) :: ps
           end
  end.

(** [s.slice(0, n)] *)
Definition slice0 (n : nat) (s : jsstring) : jsstring := firstn n s.

(** Line terminators and white space of ECMAScript. *)
Definition isLineTerminator (c : char) : bool :=
  existsb (char_eqb c) [10; 13; 8232; 8233].

Definition isWhiteSpace (c : char) : bool :=
  existsb (char_eqb c) [9; 11; 12; 32; 160; 5760; 8239; 8287; 12288; 65279]
  || ((8192 <=? c) && (c <=? 8202)).

(** The class [\s], also what [trim] strips. *)
Definition isSpace (c : char) : bool := isWhiteSpace c || isLineTerminator c.

(** The class [\w]. *)
Definition isWordChar (c : char) : bool :=
  ((97 <=? c) && (c <=? 122)) || ((65 <=? c) && (c <=? 90))
  || ((48 <=? c) && (c <=? 57)) || char_eqb c 95.

Fixpoint trimStart (s : jsstring) : jsstring :=
  match s with
  | c :: s' => if isSpace c then trimStart s' else s
  | [] => []
  end.

Definition trimEnd (s : jsstring) : jsstring := rev (trimStart (rev s)).

Definition trim (s : jsstring) : jsstring := trimEnd (trimStart s).

(** ** Regular expressions

    The fragment of ECMAScript patterns the program uses, with at most one
    capturing group, matched by backtracking in the order of the standard:
    alternatives left to right, greedy quantifiers longest first, lazy ones
    shortest first. *)
Inductive regex :=
| Chr (c : char)                      (* a literal character *)
| OneOf (cs : list char)              (* [...] *)
| NoneOf (cs : list char)             (* [^...] *)
| Dot                                 (* . *)
| Space                               (* \s *)
| Bol                                 (* ^ *)
| Eol                                 (* $ *)
| WordB                               (* \b *)
| Eps
| Cat (r1 r2 : regex)
| Alt (r1 r2 : regex)
| Star (greedy : bool) (r : regex)    (* r* and r*? *)
| Group (r : regex).                  (* ( r ) *)

(** [r+] and [r+?]: one [r], then [r*] or [r*?]. *)
Definition Plus (greedy : bool) (r : regex) : regex :=
  Cat r (Star greedy r).

Definition lit (s : string) : regex :=
  fold_right (fun c r => Cat (Chr c) r) Eps (str s).

Fixpoint seq (rs : list regex) : regex :=
  match rs with
  | [] => Eps
  | [r] => r
  | r :: rs' => Cat r (seq rs')
  end.

(** The matcher's state: the character before the position (for [^] and
    [\b]), the input from the position on, and the capture of group 1. *)
Record mstate := {
  prev : option char;
  rest : jsstring;
  cap : option jsstring
}.

Definition orelse {A} (a b : option A) : option A :=
  match a with Some _ => a | None => b end.

Definition isWordOpt (c : option char) : bool :=
  match c with Some x => isWordChar x | None => false end.

Section Matcher.

(** The [i] flag. *)
Variable ignoreCase : bool.

Definition canonicalize (c : char) : char :=
  if ignoreCase then toUpperChar c else c.

Definition same_char (a b : char) : bool :=
  char_eqb (canonicalize a) (canonicalize b).

(** Consume one character that satisfies [p]. *)
Definition take1 (p : char -> bool) (st : mstate)
    (k : mstate -> option mstate) : option mstate :=
  match rest st with
  | x :: t => if p x then k {| prev := Some x; rest := t; cap := cap st |}
              else None
  | [] => None
  end.

(** [loop] iterates the body of a quantifier; an iteration that consumes
    nothing is rejected, as in the standard.  Every iteration consumes a
    character, so the length of the input left bounds their number. *)
Fixpoint rmatch (r : regex) (st : mstate) (k : mstate -> option mstate)
    {struct r} : option mstate :=
  match r with
  | Chr c => take1 (same_char c) st k
  | OneOf cs => take1 (fun x => existsb (same_char x) cs) st k
  | NoneOf cs => take1 (fun x => negb (existsb (same_char x) cs)) st k
  | Dot => take1 (fun x => negb (isLineTerminator x)) st k
  | Space => take1 isSpace st k
  | Bol => match prev st with None => k st | Some _ => None end
  | Eol => match rest st with [] => k st | _ :: _ => None end
  | WordB =>
      if xorb (isWordOpt (prev st)) (isWordOpt (hd_error (rest st)))
      then k st else None
  | Eps => k st
  | Cat r1 r2 => rmatch r1 st (fun st' => rmatch r2 st' k)
  | Alt r1 r2 => orelse (rmatch r1 st k) (rmatch r2 st k)
  | Star greedy r1 =>
      (fix loop (fuel : nat) (st : mstate) : option mstate :=
         match fuel with
         | O => k st
         | S fuel' =>
             let again :=
               rmatch r1 st (fun st' =>
                 if (length (rest st') <? length (rest st))%nat
                 then loop fuel' st' else None) in
             if greedy then orelse again (k st) else orelse (k st) again
         end) (length (rest st)) st
  | Group r1 =>
      rmatch r1 st (fun st' =>
        k {| prev := prev st';
             rest := rest st';
             cap := Some (firstn (length (rest st) - length (rest st'))%nat
                                 (rest st)) |})
  end.

(** The result of [exec]: where the match starts, the match, group 1,
    and the input after the match with the character before it. *)
Record rmatch_result := {
  m_index : nat;
  m_0 : jsstring;
  m_1 : option jsstring;
  m_prev : option char;
  m_rest : jsstring
}.

(** Leftmost match from the current position on. *)
Fixpoint search (r : regex) (before : option char) (s : jsstring)
    (index : nat) : option rmatch_result :=
  match rmatch r {| prev := before; rest := s; cap := None |} Some with
  | Some st' =>
      Some {| m_index := index;
              m_0 := firstn (length s - length (rest st'))%nat s;
              m_1 := cap st';
              m_prev := prev st';
              m_rest := rest st' |}
  | None =>
      match s with
      | [] => None
      | c :: s' => search r (Some c) s' (S index)
      end
  end.

(** [s.match(r)] for a pattern without the [g] flag. *)
Definition exec (r : regex) (s : jsstring) : option rmatch_result :=
  search r None s 0%nat.

(** Group 1 of [s.match(r)], when there is a match. *)
Definition match1 (r : regex) (s : jsstring) : option jsstring :=
  match exec r s with
  | Some m => Some (match m_1 m with Some g => g | None => [] end)
  | None => None
  end.

Definition test (r : regex) (s : jsstring) : bool :=
  match exec r s with Some _ => true | None => false end.

(** [s.replace(r, by)] for a pattern with the [g] flag: the matches are
    taken left to right, each search starting where the last match
    ended (one further after an empty match). *)
Fixpoint replace_from (fuel : nat) (r : regex) (by_ : jsstring)
    (before : option char) (s : jsstring) : jsstring :=
  match fuel with
  | O => s
  | S fuel' =>
      match search r before s 0%nat with
      | None => s
      | Some m =>
          firstn (m_index m) s ++ by_ ++
          match m_0 m, m_rest m with
          | [], c :: s' => c :: replace_from fuel' r by_ (Some c) s'
          | [], [] => []
          | _ :: _, s' => replace_from fuel' r by_ (m_prev m) s'
          end
      end
  end.

Definition replaceAll (r : regex) (by_ : jsstring) (s : jsstring)
  : jsstring :=
  replace_from (S (length s)) r by_ None s.

End Matcher.

End JS.

(* ================================================================== *)
(** * The database: [supabase/migrations]                               *)
(* ================================================================== *)

Module Db.

Import Transitions JS.
Local Open Scope N_scope.

(** Row identifiers are UUIDs; only their equality matters. *)
Definition uuid := N.

(** [TIMESTAMPTZ] values, as points of a clock. *)
Definition timestamptz := N.

(** The columns of [applications] that the pipeline reads or writes. *)
Record Application := {
  app_id : uuid;
  app_user_id : uuid;
  job_title : jsstring;
  company_name : jsstring;
  app_status : ApplicationStatus;
  app_created_at : timestamptz;
  app_updated_at : timestamptz
}.

(** [extracted_data]: the optional fields of the classifier's schema. *)
Record ExtractedData := {
  interviewDate : option jsstring;
  interviewTime : option jsstring;
  deadline : option jsstring;
  nextSteps : option jsstring
}.

Definition no_extracted_data : ExtractedData :=
  {| interviewDate := None; interviewTime := None;
     deadline := None; nextSteps := None |}.

(** [application_emails] *)
Record EmailRecord := {
  email_id : uuid;
  email_user_id : uuid;
  email_application_id : option uuid;
  from_address : jsstring;
  from_name : option jsstring;
  email_subject : jsstring;
  body_preview : jsstring;
  received_at : jsstring;
  classification : EmailClassification;
  classification_confidence : number;
  is_manually_classified : bool;
  extracted_data : ExtractedData;
  email_created_at : timestamptz
}.

Inductive UnmatchedStatus := pending | linked | dismissed.

(** [unmatched_emails] *)
Record UnmatchedEmail := {
  unmatched_id : uuid;
  unmatched_user_id : uuid;
  unmatched_email_id : uuid;
  suggested_application_ids : list uuid;
  linked_application_id : option uuid;
  unmatched_status : UnmatchedStatus;
  unmatched_created_at : timestamptz
}.

(** [status_history] *)
Record StatusHistory := {
  history_id : uuid;
  history_application_id : uuid;
  from_status : option ApplicationStatus;
  to_status : ApplicationStatus;
  trigger_type : TriggerType;
  trigger_email_id : option uuid;
  history_created_at : timestamptz
}.

(** The tables, with the source of fresh identifiers
    ([uuid_generate_v4()]) and the clock behind [NOW()]. *)
Record Database := {
  applications : list Application;
  application_emails : list EmailRecord;
  unmatched_emails : list UnmatchedEmail;
  status_history : list StatusHistory;
  next_uuid : uuid;
  clock : timestamptz
}.

(** ** [ILIKE]

    [%] stands for any sequence, [_] for any one character, a backslash
    takes the next character literally; letters match without case.  The
    REST layer reads [*] in a pattern as [%]. *)
Definition star2percent (p : jsstring) : jsstring :=
  map (fun c => if char_eqb c 42 then 37 else c) p.

Fixpoint like (p s : jsstring) {struct p} : bool :=
  match p with
  | [] => match s with [] => true | _ :: _ => false end
  | c :: p' =>
      if char_eqb c 37 then
        (fix any (s : jsstring) : bool :=
           like p' s || match s with [] => false | _ :: s' => any s' end) s
      else if char_eqb c 95 then
        match s with [] => false | _ :: s' => like p' s' end
      else if char_eqb c 92 then
        match p', s with
        | e :: p'', x :: s' => char_eqb e x && like p'' s'
        | _, _ => false
        end
      else
        match s with
        | x :: s' => char_eqb c x && like p' s'
        | [] => false
        end
  end.

Definition ilike (value pattern : jsstring) : bool :=
  like (toLowerCase (star2percent pattern)) (toLowerCase value).

(** ** [ORDER BY created_at DESC]

    A stable insertion sort: rows with equal keys stay in table order. *)
Section OrderBy.

Variable row : Type.
Variable key : row -> timestamptz.

Fixpoint insert_desc (x : row) (l : list row) : list row :=
  match l with
  | [] => [x]
  | y :: l' =>
      if key x <? key y then y :: insert_desc x l' else x :: l
  end.

Fixpoint order_desc (l : list row) : list row :=
  match l with
  | [] => []
  | x :: l' => insert_desc x (order_desc l')
  end.

(** Newest first. *)
Definition newer_first (a b : row) : Prop := key b <= key a.

End OrderBy.

(** [.limit(1).single()]: the row when there is exactly one. *)
Definition single {row : Type} (l : list row) : option row :=
  match l with
  | [x] => Some x
  | _ => None
  end.

(** [from('applications').eq('user_id', u).ilike('company_name', p)
     .order('created_at', desc).limit(1).single()] *)
Definition latest_application_ilike (db : Database) (userId : uuid)
    (pattern : jsstring) : option Application :=
  single (firstn 1 (order_desc app_created_at
    (filter (fun a => N.eqb (app_user_id a) userId
                      && ilike (company_name a) pattern)
            (applications db)))).

(** [from('applications').select(..).eq('id', id).single()] *)
Definition application_by_id (db : Database) (id : uuid)
  : option Application :=
  single (filter (fun a => N.eqb (app_id a) id) (applications db)).

(** The statement [INSERT INTO status_history] of the trigger
    [create_status_history]. *)
Definition insert_status_history (db : Database) (application_id : uuid)
    (old new : ApplicationStatus) : Database :=
  {| applications := applications db;
     application_emails := application_emails db;
     unmatched_emails := unmatched_emails db;
     status_history := status_history db ++
       [{| history_id := next_uuid db;
           history_application_id := application_id;
           from_status := Some old;
           to_status := new;
           trigger_type := manual;
           trigger_email_id := None;
           history_created_at := clock db |}];
     next_uuid := N.succ (next_uuid db);
     clock := clock db |}.

(** The rows of [status_history] that the trigger adds for an [UPDATE] of
    [applications]: one for each updated row whose status changes. *)
Fixpoint create_status_history (db : Database) (updated : list Application)
    (new : ApplicationStatus) : Database :=
  match updated with
  | [] => db
  | a :: rest =>
      let db' :=
        if status_eqb (app_status a) new then db
        else insert_status_history db (app_id a) (app_status a) new in
      create_status_history db' rest new
  end.

(** The row of [applications] after [SET status = new], with the
    [updated_at] of the trigger [applications_updated_at]. *)
Definition set_status (new : ApplicationStatus) (now : timestamptz)
    (a : Application) : Application :=
  {| app_id := app_id a;
     app_user_id := app_user_id a;
     job_title := job_title a;
     company_name := company_name a;
     app_status := new;
     app_created_at := app_created_at a;
     app_updated_at := now |}.

(** [from('applications').update({ status }).eq('id', id)], with the
    triggers [applications_updated_at] and [applications_status_history].
    The statement runs at one instant of the clock. *)
Definition update_application_status (db : Database) (id : uuid)
    (new : ApplicationStatus) : Database :=
  let hit := fun a => N.eqb (app_id a) id in
  let db1 :=
    {| applications :=
         map (fun a => if hit a then set_status new (clock db) a else a)
             (applications db);
       application_emails := application_emails db;
       unmatched_emails := unmatched_emails db;
       status_history := status_history db;
       next_uuid := next_uuid db;
       clock := clock db |} in
  let db2 := create_status_history db1 (filter hit (applications db)) new in
  {| applications := applications db2;
     application_emails := application_emails db2;
     unmatched_emails := unmatched_emails db2;
     status_history := status_history db2;
     next_uuid := next_uuid db2;
     clock := N.succ (clock db2) |}.

(** The row of [status_history] after
    [SET trigger_type = .., trigger_email_id = ..]. *)
Definition set_trigger (trigger : TriggerType) (emailId : uuid)
    (h : StatusHistory) : StatusHistory :=
  {| history_id := history_id h;
     history_application_id := history_application_id h;
     from_status := from_status h;
     to_status := to_status h;
     trigger_type := trigger;
     trigger_email_id := Some emailId;
     history_created_at := history_created_at h |}.

(** [from('status_history').update({ trigger_type, trigger_email_id })
     .eq('application_id', id).order('created_at', desc).limit(1)]:
    the newest history row of the application is rewritten. *)
Definition update_latest_history (db : Database) (application_id : uuid)
    (trigger : TriggerType) (emailId : uuid) : Database :=
  match firstn 1 (order_desc history_created_at
          (filter (fun h => N.eqb (history_application_id h) application_id)
                  (status_history db))) with
  | newest :: _ =>
      {| applications := applications db;
         application_emails := application_emails db;
         unmatched_emails := unmatched_emails db;
         status_history :=
           map (fun h =>
                  if N.eqb (history_id h) (history_id newest)
                  then set_trigger trigger emailId h else h)
               (status_history db);
         next_uuid := next_uuid db;
         clock := N.succ (clock db) |}
  | [] => db
  end.

(** Every history row has an identifier and a time stamp that the
    database handed out before. *)
Definition history_in_the_past (db : Database) : Prop :=
  forall h, In h (status_history db) ->
    history_id h < next_uuid db /\ history_created_at h < clock db.

(** A rewriting of the rows of [applications] that keeps the columns
    by which rows are selected and ordered. *)
Definition keeps_identity (f : Application -> Application) : Prop :=
  forall a,
    app_id (f a) = app_id a
    /\ app_user_id (f a) = app_user_id a
    /\ company_name (f a) = company_name a
    /\ app_created_at (f a) = app_created_at a.

(** [from('application_emails').insert({..}).select().single()]: the
    columns left out take their defaults.  The new row is returned. *)
Definition insert_application_email (db : Database) (user_id : uuid)
    (application_id : option uuid) (from_address : jsstring)
    (from_name : option jsstring) (subject body_preview received_at : jsstring)
    (classification : EmailClassification) (confidence : number)
    (extracted : ExtractedData) : Database * EmailRecord :=
  let row :=
    {| email_id := next_uuid db;
       email_user_id := user_id;
       email_application_id := application_id;
       from_address := from_address;
       from_name := from_name;
       email_subject := subject;
       body_preview := body_preview;
       received_at := received_at;
       classification := classification;
       classification_confidence := confidence;
       is_manually_classified := false;
       extracted_data := extracted;
       email_created_at := clock db |} in
  ({| applications := applications db;
      application_emails := application_emails db ++ [row];
      unmatched_emails := unmatched_emails db;
      status_history := status_history db;
      next_uuid := N.succ (next_uuid db);
      clock := N.succ (clock db) |}, row).

(** [from('unmatched_emails').insert({..})] *)
Definition insert_unmatched_email (db : Database) (user_id emailId : uuid)
    (suggested : list uuid) (status : UnmatchedStatus) : Database :=
  {| applications := applications db;
     application_emails := application_emails db;
     unmatched_emails := unmatched_emails db ++
       [{| unmatched_id := next_uuid db;
           unmatched_user_id := user_id;
           unmatched_email_id := emailId;
           suggested_application_ids := suggested;
           linked_application_id := None;
           unmatched_status := status;
           unmatched_created_at := clock db |}];
     status_history := status_history db;
     next_uuid := N.succ (next_uuid db);
     clock := N.succ (clock db) |}.

(** [from('applications').select(..).eq('user_id', u).in('status', set)
     .order('created_at', desc).limit(n)] *)
Definition latest_applications_in_status (db : Database) (userId : uuid)
    (statuses : list ApplicationStatus) (limit : nat) : list Application :=
  firstn limit (order_desc app_created_at
    (filter (fun a => N.eqb (app_user_id a) userId
                      && includes_status statuses (app_status a))
            (applications db))).

End Db.

(* ================================================================== *)
(** * Matcher: [ats-patterns.ts] and [matching.ts]                      *)
(* ================================================================== *)

Module Matching.

Import Transitions JS Db.
Local Open Scope N_scope.
Local Open Scope string_scope.

(** A [Date] that holds a time value, in milliseconds since the epoch:
    the gateway stamps every event with [new Date().toISOString()]. *)
Definition Date := Z.

Record ParsedEmail := {
  from : jsstring;
  fromName : option jsstring;
  subject : jsstring;
  body : jsstring;
  receivedAt : Date
}.

Definition ATSPattern := ParsedEmail -> option jsstring.

(** The hyphen and the en dash of the class [[-\u2013]]. *)
Definition dashes : list char := [45; 8211].

(** The common tail [(?:\s*[-\u2013]|$)]. *)
Definition until_dash_or_end : regex :=
  Alt (Cat (Star true Space) (OneOf dashes)) Eol.

(** [(.+?)] *)
Definition company_group : regex := Group (Plus false Dot).

(** [m ? m[1].trim() : next] *)
Definition trimmed_or (m : option jsstring) (next : option jsstring)
  : option jsstring :=
  match m with
  | Some g => Some (trim g)
  | None => next
  end.

(** /(?:application to|applying to|applied to)\s+(.+?)(?:\s*[-\u2013]|$)/i *)
Definition greenhouse_subject : regex :=
  seq [Alt (lit "application to") (Alt (lit "applying to") (lit "applied to"));
       Plus true Space; company_group; until_dash_or_end].

(** /interest in\s+(.+?)(?:\.|\s+and)/i *)
Definition greenhouse_body : regex :=
  seq [lit "interest in"; Plus true Space; company_group;
       Alt (Chr 46) (Cat (Plus true Space) (lit "and"))].

(** /(.+?)\s+(?:via|through)\s+Lever/i *)
Definition lever_from : regex :=
  seq [company_group; Plus true Space; Alt (lit "via") (lit "through");
       Plus true Space; lit "Lever"].

(** /^(.+?)\s*[-\u2013]\s*.+application/i *)
Definition lever_subject : regex :=
  seq [Bol; company_group; Star true Space; OneOf dashes; Star true Space;
       Plus true Dot; lit "application"].

(** /^(.+?):\s*.+(?:application|update)/i *)
Definition ashby_subject : regex :=
  seq [Bol; company_group; Chr 58; Star true Space; Plus true Dot;
       Alt (lit "application") (lit "update")].

(** /application\s+(?:with|to|at)\s+(.+?)(?:\s*[-\u2013]|$)/i *)
Definition jobvite_subject : regex :=
  seq [lit "application"; Plus true Space;
       Alt (lit "with") (Alt (lit "to") (lit "at"));
       Plus true Space; company_group; until_dash_or_end].

(** /^(.+?):\s*your\s+application/i *)
Definition workday_subject : regex :=
  seq [Bol; company_group; Chr 58; Star true Space; lit "your";
       Plus true Space; lit "application"].

(** /applying\s+to\s+(.+?)(?:\s*[-\u2013]|$)/i *)
Definition icims_subject : regex :=
  seq [lit "applying"; Plus true Space; lit "to"; Plus true Space;
       company_group; until_dash_or_end].

(** /application\s+at\s+(.+?)(?:\s*[-\u2013]|$)/i *)
Definition smartrecruiters_subject : regex :=
  seq [lit "application"; Plus true Space; lit "at"; Plus true Space;
       company_group; until_dash_or_end].

(** /(?:sent to|applied to|application.*to)\s+(.+?)(?:\s*[-\u2013]|$)/i *)
Definition linkedin_subject : regex :=
  seq [Alt (lit "sent to")
         (Alt (lit "applied to")
              (seq [lit "application"; Star true Dot; lit "to"]));
       Plus true Space; company_group; until_dash_or_end].

Definition subject_only (r : regex) : ATSPattern :=
  fun email => trimmed_or (match1 true r (subject email)) None.

(** [ATS_PATTERNS], in the order of its keys. *)
Definition ATS_PATTERNS : list (jsstring * ATSPattern) :=
  [ (str "greenhouse.io", fun email =>
       trimmed_or (match1 true greenhouse_subject (subject email))
         (trimmed_or (match1 true greenhouse_body (body email)) None));
    (str "lever.co", fun email =>
       trimmed_or
         (match fromName email with
          | Some n => match1 true lever_from n
          | None => None
          end)
         (trimmed_or (match1 true lever_subject (subject email)) None));
    (str "ashbyhq.com", subject_only ashby_subject);
    (str "jobvite.com", subject_only jobvite_subject);
    (str "workday.com", subject_only workday_subject);
    (str "myworkdayjobs.com", subject_only workday_subject);
    (str "icims.com", subject_only icims_subject);
    (str "smartrecruiters.com", subject_only smartrecruiters_subject);
    (str "linkedin.com", subject_only linkedin_subject) ].

(** /@([^@]+)$/ *)
Definition domain_pattern : regex :=
  seq [Chr 64; Group (Plus true (NoneOf [64])); Eol].

Definition extractDomain (email : jsstring) : jsstring :=
  match match1 false domain_pattern email with
  | Some g => toLowerCase g
  | None => []
  end.

Definition isATSEmail (email : ParsedEmail) : bool :=
  let domain := extractDomain (from email) in
  existsb (fun ats => includes domain (fst ats)) ATS_PATTERNS.

(** The loop of [extractCompanyFromATS] over the entries. *)
Fixpoint first_ats_company (domain : jsstring) (email : ParsedEmail)
    (entries : list (jsstring * ATSPattern)) : option jsstring :=
  match entries with
  | [] => None
  | (atsDomain, parser) :: entries' =>
      if includes domain atsDomain then
        match parser email with
        | Some company =>
            if truthy company then Some company
            else first_ats_company domain email entries'
        | None => first_ats_company domain email entries'
        end
      else first_ats_company domain email entries'
  end.

Definition extractCompanyFromATS (email : ParsedEmail) : option jsstring :=
  let domain := extractDomain (from email) in
  first_ats_company domain email ATS_PATTERNS.

(** /[,.]|inc|llc|corp|corporation|ltd|limited|co\b/gi *)
Definition company_suffixes : regex :=
  Alt (OneOf [44; 46])
  (Alt (lit "inc")
  (Alt (lit "llc")
  (Alt (lit "corp")
  (Alt (lit "corporation")
  (Alt (lit "ltd")
  (Alt (lit "limited")
       (Cat (lit "co") WordB))))))).

Definition normalizeCompanyName (name : jsstring) : jsstring :=
  trim
    (replaceAll true (Plus true Space) (str " ")
       (replaceAll true company_suffixes []
          (toLowerCase name))).

Inductive MatchType := ats | domain | fuzzy | none.

Record MatchResult := {
  applicationId : option uuid;
  companyName : option jsstring;
  confidence : number;
  matchType : MatchType
}.

(** Exact match first, then partial match on the normalized name. *)
Definition findApplicationByCompanyName (db : Database) (userId : uuid)
    (companyName : jsstring) : option Application :=
  let normalized := normalizeCompanyName companyName in
  match latest_application_ilike db userId companyName with
  | Some exactMatch => Some exactMatch
  | None =>
      latest_application_ilike db userId
        (str "%" ++ normalized ++ str "%")%list
  end.

Definition atsDomains : list jsstring :=
  [str "greenhouse.io"; str "lever.co"; str "ashbyhq.com";
   str "jobvite.com"; str "workday.com"; str "icims.com"].

Definition subdomain_prefixes : list jsstring :=
  [str "careers"; str "jobs"; str "recruiting"; str "talent"; str "hr"].

(** [parts[i]] of a non-empty array of strings. *)
Definition part (parts : list jsstring) (i : nat) : jsstring :=
  nth i parts [].

Definition findApplicationByDomain (db : Database) (userId : uuid)
    (domain : jsstring) : option Application :=
  if existsb (fun ats => includes domain ats) atsDomains then None
  else
    let parts := split 46 domain in
    let companySlug :=
      if (2 <=? length parts)%nat then part parts (length parts - 2)
      else part parts 0 in
    let companySlug :=
      if array_includes subdomain_prefixes (part parts 0)
         && (3 <=? length parts)%nat
      then part parts (length parts - 2)
      else companySlug in
    latest_application_ilike db userId
      (str "%" ++ companySlug ++ str "%")%list.

(** /(?:from|at|with)\s+(.+?)(?:\s*[-\u2013:]|$)/i *)
Definition subject_pattern_1 : regex :=
  seq [Alt (lit "from") (Alt (lit "at") (lit "with"));
       Plus true Space; company_group;
       Alt (Cat (Star true Space) (OneOf [45; 8211; 58])) Eol].

(** /^(.+?)(?:\s*[-\u2013:])\s*(?:application|interview|offer)/i *)
Definition subject_pattern_2 : regex :=
  seq [Bol; company_group;
       Cat (Star true Space) (OneOf [45; 8211; 58]);
       Star true Space;
       Alt (lit "application") (Alt (lit "interview") (lit "offer"))].

(** /(?:application|interview|offer).*(?:at|with|from)\s+(.+?)(?:\s*[-\u2013]|$)/i *)
Definition subject_pattern_3 : regex :=
  seq [Alt (lit "application") (Alt (lit "interview") (lit "offer"));
       Star true Dot;
       Alt (lit "at") (Alt (lit "with") (lit "from"));
       Plus true Space; company_group; until_dash_or_end].

(** /^(your|the|a|an)$/i *)
Definition false_positive : regex :=
  seq [Bol;
       Group (Alt (lit "your") (Alt (lit "the") (Alt (lit "a") (lit "an"))));
       Eol].

Definition subject_patterns : list regex :=
  [subject_pattern_1; subject_pattern_2; subject_pattern_3].

(** The loop of [extractCompanyFromSubject] over the patterns. *)
Fixpoint first_subject_company (subject : jsstring) (patterns : list regex)
  : option jsstring :=
  match patterns with
  | [] => None
  | pattern :: patterns' =>
      match match1 true pattern subject with
      | Some g =>
          if truthy g then
            let company := trim g in
            if (2 <? length company)%nat && (length company <? 50)%nat
               && negb (test true false_positive company)
            then Some company
            else first_subject_company subject patterns'
          else first_subject_company subject patterns'
      | None => first_subject_company subject patterns'
      end
  end.

Definition extractCompanyFromSubject (subject : jsstring)
  : option jsstring :=
  first_subject_company subject subject_patterns.

(** [a || b || null] on optional strings. *)
Definition or_else_string (a b : option jsstring) : option jsstring :=
  match a with
  | Some x => if truthy x then a else b
  | None => b
  end.

Definition matchEmailToApplication (db : Database) (userId : uuid)
    (email : ParsedEmail) : MatchResult :=
  let atsCompany := extractCompanyFromATS email in
  let atsMatch :=
    match atsCompany with
    | Some company =>
        if truthy company
        then findApplicationByCompanyName db userId company
        else None
    | None => None
    end in
  match atsMatch, atsCompany with
  | Some match_, Some company =>
      {| applicationId := Some (app_id match_);
         companyName := Some company;
         confidence := 0.9%Q;
         matchType := ats |}
  | _, _ =>
      let senderDomain := extractDomain (from email) in
      match findApplicationByDomain db userId senderDomain with
      | Some domainMatch =>
          {| applicationId := Some (app_id domainMatch);
             companyName := Some (company_name domainMatch);
             confidence := 0.95%Q;
             matchType := domain |}
      | None =>
          let extractedCompany := extractCompanyFromSubject (subject email) in
          let fuzzyMatch :=
            match extractedCompany with
            | Some company =>
                if truthy company
                then findApplicationByCompanyName db userId company
                else None
            | None => None
            end in
          match fuzzyMatch, extractedCompany with
          | Some match_, Some company =>
              {| applicationId := Some (app_id match_);
                 companyName := Some company;
                 confidence := 0.7%Q;
                 matchType := fuzzy |}
          | _, _ =>
              {| applicationId := None;
                 companyName := or_else_string atsCompany extractedCompany;
                 confidence := 0%Q;
                 matchType := none |}
          end
      end
  end.

Definition active_statuses : list ApplicationStatus :=
  [APPLIED; SCREENING; INTERVIEWING].

Definition getSuggestedApplications (db : Database) (userId : uuid)
    (email : ParsedEmail) (limit : nat) : list Application :=
  latest_applications_in_status db userId active_statuses limit.

End Matching.

(* ================================================================== *)
(** * Calls that may throw                                              *)
(* ================================================================== *)

Module Exc.

Import JS.

(** An awaited call either returns a value or raises an error. *)
Inductive outcome (A : Type) : Type :=
| Returned (a : A)
| Raised (error : jsstring).

Arguments Returned {A} a.
Arguments Raised {A} error.

Definition bind {A B} (m : outcome A) (f : A -> outcome B) : outcome B :=
  match m with
  | Returned a => f a
  | Raised e => Raised e
  end.

(** [try { body } catch (error) { handler }] *)
Definition try_catch {A} (body : outcome A) (handler : jsstring -> outcome A)
  : outcome A :=
  match body with
  | Returned a => Returned a
  | Raised e => handler e
  end.

End Exc.

(* ================================================================== *)
(** * Classifier: [classify.ts]                                         *)
(* ================================================================== *)

Module Classifier.

Import Transitions JS Db Matching Exc.
Local Open Scope string_scope.

(** [ClassificationResult], the type of the schema. *)
Record ClassificationResult := {
  type : EmailClassification;
  confidence : number;
  reasoning : jsstring;
  extractedData : option ExtractedData
}.

Definition newline : jsstring := [10%N].

Section Classify.

(** The model call [generateObject({ model, schema, system, prompt })]:
    for a system text and a prompt it returns an object of the schema or
    throws (time-out, output that does not parse, provider error). *)
Variable generateObject : jsstring -> jsstring -> outcome ClassificationResult.

(** [Date.prototype.toISOString] *)
Variable toISOString : Date -> jsstring.

(** The text of the system prompt. *)
Variable CLASSIFICATION_PROMPT : jsstring.

(** [email.fromName || 'Unknown'] *)
Definition fromName_or_unknown (email : ParsedEmail) : jsstring :=
  match fromName email with
  | Some n => if truthy n then n else str "Unknown"
  | None => str "Unknown"
  end.

Definition formatEmailForClassification (email : ParsedEmail) : jsstring :=
  let bodyPreview := slice0 2000 (body email) in
  (str "From: " ++ fromName_or_unknown email ++ str " <" ++ from email
     ++ str ">" ++ newline
   ++ str "Subject: " ++ subject email ++ newline
   ++ str "Date: " ++ toISOString (receivedAt email) ++ newline
   ++ newline
   ++ str "Body:" ++ newline
   ++ bodyPreview)%list.

(** The safe default of the [catch] branch. *)
Definition safe_default : ClassificationResult :=
  {| type := GENERIC_UPDATE;
     confidence := 0.5%Q;
     reasoning := str "Classification failed, defaulting to generic update";
     extractedData := None |}.

Definition classifyEmail (email : ParsedEmail)
  : outcome ClassificationResult :=
  let emailContent := formatEmailForClassification email in
  try_catch
    (bind (generateObject CLASSIFICATION_PROMPT emailContent)
          (fun object => Returned object))
    (fun error => Returned safe_default).

(** The classification a call ends with. *)
Definition classified (email : ParsedEmail) : ClassificationResult :=
  match generateObject CLASSIFICATION_PROMPT
          (formatEmailForClassification email) with
  | Returned object => object
  | Raised _ => safe_default
  end.

End Classify.

End Classifier.

(* ================================================================== *)
(** * Orchestrator: [process-email.ts]                                  *)
(* ================================================================== *)

Module Pipeline.

Import Transitions JS Db Matching Exc.

Module C := Classifier.

(** The [email] of an [email/received] event. *)
Record RawEmail := {
  raw_from : jsstring;
  raw_fromName : option jsstring;
  raw_subject : jsstring;
  raw_body : jsstring;
  raw_receivedAt : jsstring
}.

Record EmailReceivedEvent := {
  userId : uuid;
  email : RawEmail
}.

(** What [processEmail] returns: the record of the unmatched branch, or
    the one of the processed branch. *)
Inductive PipelineResult :=
| unmatched (emailId : uuid) (classification : EmailClassification)
    (confidence : number)
| processed (emailId applicationId : uuid)
    (classification : EmailClassification) (confidence : number)
    (statusUpdated : bool) (newStatus : option ApplicationStatus)
    (needsReview : bool).

(** The error of [.single()] when no row, or more than one, is selected. *)
Definition PGRST116 : jsstring := str "PGRST116".

(** A step runs against the database and returns or throws; what it wrote
    before throwing stays written. *)
Definition step (A : Type) : Type := Database -> Database * outcome A.

Definition ret {A} (a : A) : step A := fun db => (db, Returned a).

Definition throw {A} (e : jsstring) : step A := fun db => (db, Raised e).

Definition and_then {A B} (m : step A) (f : A -> step B) : step B :=
  fun db =>
    match m db with
    | (db', Returned a) => f a db'
    | (db', Raised e) => (db', Raised e)
    end.

(** A read of the database. *)
Definition query {A} (q : Database -> A) : step A :=
  fun db => (db, Returned (q db)).

(** A statement that changes the database. *)
Definition execute (w : Database -> Database) : step unit :=
  fun db => (w db, Returned tt).

(** An awaited call that does not touch the database. *)
Definition await {A} (o : outcome A) : step A := fun db => (db, o).

Declare Scope step_scope.
Delimit Scope step_scope with step.
Local Open Scope step_scope.

Notation "x <- m ;; f" := (and_then m (fun x => f))
  (at level 61, m at next level, right associativity) : step_scope.

Section Orchestrator.

Variable generateObject
  : jsstring -> jsstring -> outcome C.ClassificationResult.
Variable toISOString : Date -> jsstring.
Variable CLASSIFICATION_PROMPT : jsstring.

(** [new Date(s)] for the time stamp of an event. *)
Variable parseDate : jsstring -> Date.

Definition parse_email (rawEmail : RawEmail) : ParsedEmail :=
  {| from := raw_from rawEmail;
     fromName := raw_fromName rawEmail;
     subject := raw_subject rawEmail;
     body := raw_body rawEmail;
     receivedAt := parseDate (raw_receivedAt rawEmail) |}.

(** The [insert] of step 3. *)
Definition insert_email_record (userId : uuid)
    (matchResult : MatchResult) (email : ParsedEmail)
    (classification : C.ClassificationResult) (db : Database)
  : Database * EmailRecord :=
  insert_application_email db userId
    (applicationId matchResult)
    (from email)
    (fromName email)
    (subject email)
    (slice0 500 (body email))
    (toISOString (receivedAt email))
    (C.type classification)
    (C.confidence classification)
    (match C.extractedData classification with
     | Some d => d
     | None => no_extracted_data
     end).

(** Step 3, [create-email-record]. *)
Definition create_email_record (userId : uuid)
    (matchResult : MatchResult) (email : ParsedEmail)
    (classification : C.ClassificationResult) : step EmailRecord :=
  fun db =>
    let (db', data) :=
      insert_email_record userId matchResult email classification db in
    (db', Returned data).

(** Step 4, [create-unmatched-record]. *)
Definition create_unmatched_record (userId : uuid) (email : ParsedEmail)
    (emailRecord : EmailRecord) : step unit :=
  suggestions <- query (fun db => getSuggestedApplications db userId email 5) ;;
  execute (fun db =>
    insert_unmatched_email db userId (email_id emailRecord)
      (map app_id suggestions) pending).

(** Step 5, [get-application]. *)
Definition get_application (applicationId : uuid) : step Application :=
  data <- query (fun db => application_by_id db applicationId) ;;
  match data with
  | Some data => ret data
  | None => throw PGRST116
  end.

(** Step 7, [update-application-status]: the status is written, then
    the newest history row of the application is given the trigger. *)
Definition update_application_status_step (applicationId : uuid)
    (newStatus : ApplicationStatus)
    (classification : C.ClassificationResult) (emailRecord : EmailRecord)
  : step unit :=
  _ <- execute (fun db =>
         update_application_status db applicationId newStatus) ;;
  execute (fun db =>
    update_latest_history db applicationId
      (getTriggerType (C.confidence classification))
      (email_id emailRecord)).

Definition processEmail (event : EmailReceivedEvent) : step PipelineResult :=
  let userId := userId event in
  let email := parse_email (email event) in
  matchResult <- query (fun db => matchEmailToApplication db userId email) ;;
  classification <-
    await (C.classifyEmail generateObject toISOString
             CLASSIFICATION_PROMPT email) ;;
  emailRecord <-
    create_email_record userId matchResult email classification ;;
  match applicationId matchResult with
  | None =>
      _ <- create_unmatched_record userId email emailRecord ;;
      ret (unmatched (email_id emailRecord)
             (C.type classification)
             (C.confidence classification))
  | Some applicationId =>
      application <- get_application applicationId ;;
      let transition :=
        getStatusTransition (C.type classification)
          (C.confidence classification) (app_status application) in
      _ <- match shouldUpdate transition, newStatus transition with
           | true, Some status =>
               update_application_status_step applicationId status
                 classification emailRecord
           | _, _ => ret tt
           end ;;
      ret (processed (email_id emailRecord) applicationId
             (C.type classification)
             (C.confidence classification)
             (shouldUpdate transition)
             (newStatus transition)
             (needsReview transition))
  end.

(** The email record of a run on [db], and the database that holds it. *)
Definition recorded (event : EmailReceivedEvent) (db : Database)
  : Database * EmailRecord :=
  let email := parse_email (email event) in
  insert_email_record (userId event)
    (matchEmailToApplication db (userId event) email) email
    (C.classified generateObject toISOString CLASSIFICATION_PROMPT email) db.

End Orchestrator.

End Pipeline.

(* ================================================================== *)
(** * More of the program                                               *)
(* ================================================================== *)

(** [isSignificantClassification] of [classify.ts]. *)
Module Significance.

Import Transitions.

Definition classification_eqb (a b : EmailClassification) : bool :=
  match a, b with
  | REJECTION, REJECTION | INTERVIEW_REQUEST, INTERVIEW_REQUEST
  | C_OFFER, C_OFFER | SCREENING_INVITE, SCREENING_INVITE
  | ASSESSMENT_REQUEST, ASSESSMENT_REQUEST
  | GENERIC_UPDATE, GENERIC_UPDATE | UNRELATED, UNRELATED => true
  | _, _ => false
  end.

Definition isSignificantClassification (type : EmailClassification) : bool :=
  existsb (classification_eqb type)
    [REJECTION; INTERVIEW_REQUEST; C_OFFER; SCREENING_INVITE].

End Significance.

(** The updates that emails can apply, one after the other. *)
Module EmailSteps.

Import Transitions.

(** Some email moves an application from [s] to [s']. *)
Definition email_step (s s' : ApplicationStatus) : Prop :=
  exists classification confidence,
    shouldUpdate (getStatusTransition classification confidence s) = true
    /\ newStatus (getStatusTransition classification confidence s) = Some s'.

(** The statuses of an application along a sequence of applied updates. *)
Fixpoint email_chain (s : ApplicationStatus) (l : list ApplicationStatus)
  : Prop :=
  match l with
  | [] => True
  | s' :: l' => email_step s s' /\ email_chain s' l'
  end.

(** How far a status is along the way that emails can take. *)
Definition email_rank (s : ApplicationStatus) : nat :=
  match s with
  | SAVED | APPLIED | GHOSTED => 0
  | SCREENING => 1
  | INTERVIEWING => 2
  | OFFER => 3
  | ACCEPTED | REJECTED | WITHDRAWN => 4
  end.

End EmailSteps.

(** The loop of a quantifier of [JS.rmatch], by itself, and strings made
    of labels. *)
Module JSFacts.

Import JS.
Local Open Scope N_scope.

Definition star_loop (ignoreCase greedy : bool) (r1 : regex)
    (k : mstate -> option mstate) : nat -> mstate -> option mstate :=
  fix loop (fuel : nat) (st : mstate) : option mstate :=
    match fuel with
    | O => k st
    | S fuel' =>
        let again :=
          rmatch ignoreCase r1 st (fun st' =>
            if (length (rest st') <? length (rest st))%nat
            then loop fuel' st' else None) in
        if greedy then orelse again (k st) else orelse (k st) again
    end.

(** The character before the position after [d] has been read. *)
Definition prev_after (before : option char) (d : jsstring) : option char :=
  fold_left (fun _ x => Some x) d before.

(** [t] is what is left of [s] from some position on. *)
Definition is_suffix (t s : jsstring) : Prop :=
  exists pre, s = pre ++ t.

(** [g] occurs in [s] as a run of consecutive characters. *)
Definition occurs_in (g s : jsstring) : Prop :=
  exists pre post, s = pre ++ g ++ post.

(** A state of the matcher on the input [w]: the state stands at a
    position of [w], and the capture, if any, occurs in [w]. *)
Definition state_on (w : jsstring) (st : mstate) : Prop :=
  is_suffix (rest st) w
  /\ forall g, cap st = Some g -> occurs_in g w.

(** A pattern that cannot match without reading a character. *)
Fixpoint consumes (r : regex) : bool :=
  match r with
  | Chr _ | OneOf _ | NoneOf _ | Dot | Space => true
  | Cat r1 r2 => consumes r1 || consumes r2
  | Alt r1 r2 => consumes r1 && consumes r2
  | Group r1 => consumes r1
  | Bol | Eol | WordB | Eps | Star _ _ => false
  end.

(** The letters A to Z. *)
Definition isUpper (c : char) : bool := (65 <=? c) && (c <=? 90).

(** The comma and the full stop. *)
Definition isPunct (c : char) : bool := char_eqb c 44 || char_eqb c 46.

(** [labels.join('.')] for a non-empty array of labels. *)
Fixpoint join_dots (labels : list jsstring) : jsstring :=
  match labels with
  | [] => []
  | [l] => l
  | l :: ls => l ++ 46 :: join_dots ls
  end.

(** The characters with a meaning of their own in a pattern of [ILIKE]
    sent through the REST layer: [%], [_], the backslash and [*]. *)
Definition plain_char (c : char) : bool :=
  negb (char_eqb c 37 || char_eqb c 95 || char_eqb c 92 || char_eqb c 42).

(** The characters of ASCII: among them [toLowerCase], and the folding of
    letters by [ILIKE], change the letters A to Z and nothing else. *)
Definition isAscii (c : char) : bool := c <? 128.

End JSFacts.

(** The route [PUT /api/applications/batch-status]: the user sets the
    status of an application by hand. *)
Module StatusRoute.

Import Transitions JS Db.
Local Open Scope N_scope.
Local Open Scope string_scope.

(** The JSON body of the request. *)
Record Body := {
  body_applicationId : option uuid;
  body_status : option jsstring
}.

(** The responses of the route; the statements of the model do not fail,
    so the response 500 of a failed update has no place here. *)
Inductive Response :=
| Unauthorized                      (* 401 *)
| Required                          (* 400, applicationId and status *)
| InvalidStatus                     (* 400 *)
| NotFound                          (* 404 *)
| Success (unchanged : bool).       (* 200 *)

(** [validStatuses], with the status each name stands for. *)
Definition validStatuses : list (jsstring * ApplicationStatus) :=
  [(str "SAVED", SAVED); (str "APPLIED", APPLIED);
   (str "SCREENING", SCREENING); (str "INTERVIEWING", INTERVIEWING);
   (str "OFFER", OFFER); (str "ACCEPTED", ACCEPTED);
   (str "REJECTED", REJECTED); (str "WITHDRAWN", WITHDRAWN);
   (str "GHOSTED", GHOSTED)].

(** [validStatuses.includes(status)], with the status found. *)
Fixpoint valid_status (names : list (jsstring * ApplicationStatus))
    (status : jsstring) : option ApplicationStatus :=
  match names with
  | [] => None
  | (name, s) :: names' =>
      if jsstring_eqb status name then Some s else valid_status names' status
  end.

(** [.eq('id', id).eq('user_id', user)] *)
Definition owned_by (id user : uuid) (a : Application) : bool :=
  N.eqb (app_id a) id && N.eqb (app_user_id a) user.

(** [from('applications').select('id, status').eq('id', id)
     .eq('user_id', user).single()] *)
Definition application_of_user (db : Database) (id user : uuid)
  : option Application :=
  single (filter (owned_by id user) (applications db)).

(** [from('applications').update({ status }).eq('id', id)
     .eq('user_id', user)], with the triggers of the table. *)
Definition update_status_of_user (db : Database) (id user : uuid)
    (new : ApplicationStatus) : Database :=
  let db1 :=
    {| applications :=
         map (fun a => if owned_by id user a
                       then set_status new (clock db) a else a)
             (applications db);
       application_emails := application_emails db;
       unmatched_emails := unmatched_emails db;
       status_history := status_history db;
       next_uuid := next_uuid db;
       clock := clock db |} in
  let db2 :=
    create_status_history db1 (filter (owned_by id user) (applications db))
      new in
  {| applications := applications db2;
     application_emails := application_emails db2;
     unmatched_emails := unmatched_emails db2;
     status_history := status_history db2;
     next_uuid := next_uuid db2;
     clock := N.succ (clock db2) |}.

(** The handler; [user] is what [getAuthenticatedUser] found. *)
Definition PUT (user : option uuid) (body : Body) (db : Database)
  : Database * Response :=
  match user with
  | None => (db, Unauthorized)
  | Some user =>
      match body_applicationId body, body_status body with
      | Some applicationId, Some status =>
          if truthy status then
            match valid_status validStatuses status with
            | None => (db, InvalidStatus)
            | Some status =>
                match application_of_user db applicationId user with
                | None => (db, NotFound)
                | Some existingApp =>
                    if status_eqb (app_status existingApp) status
                    then (db, Success true)
                    else (update_status_of_user db applicationId user status,
                          Success false)
                end
            end
          else (db, Required)
      | _, _ => (db, Required)
      end
  end.

End StatusRoute.

(** [processEmail] and [classifyEmail] with the two ways in which a call
    of theirs fails besides the model call: a [Date] that holds no time
    value, and a store that answers a call with an error; the column of
    the confidence rounds what it is given. *)
Module Runtime.

Import Transitions JS Db Matching Exc Pipeline.
Local Open Scope string_scope.
Local Open Scope step_scope.

(** A JavaScript [Date]: one that holds a time value, or the Invalid Date
    that [new Date(s)] gives for a text that does not parse. *)
Inductive JSDate :=
| ValidDate (t : Date)
| InvalidDate.

(** The [ParsedEmail] that [processEmail] builds from the event. *)
Record ParsedEmail := {
  from : jsstring;
  fromName : option jsstring;
  subject : jsstring;
  body : jsstring;
  receivedAt : JSDate
}.

(** What the Matcher is given: it reads the four texts and no date. *)
Definition texts (email : ParsedEmail) : Matching.ParsedEmail :=
  {| Matching.from := from email;
     Matching.fromName := fromName email;
     Matching.subject := subject email;
     Matching.body := body email;
     Matching.receivedAt :=
       match receivedAt email with
       | ValidDate t => t
       | InvalidDate => 0%Z
       end |}.

(** The error of [toISOString] on the Invalid Date. *)
Definition RangeError : jsstring := str "RangeError: Invalid time value".

(** The error of Postgres for a number that does not fit its column. *)
Definition numeric_field_overflow : jsstring := str "22003".

(** Rounding to the nearest integer, halves away from zero, as
    [numeric] rounds. *)
Definition round_half_away (q : Q) : Z :=
  if Qle_bool 0 q then Qfloor (q + 0.5)%Q
  else (- Qfloor (- q + 0.5)%Q)%Z.

(** What a column [DECIMAL(3,2)] stores for [q]: [q] rounded to two
    decimals, or nothing when the rounded value has more than one digit
    before the point. *)
Definition decimal_3_2 (q : Q) : option Q :=
  let hundredths := round_half_away (q * 100)%Q in
  if (Z.abs hundredths <? 1000)%Z then Some (Qmake hundredths 100)
  else None.

(** What the store answers to the calls that [processEmail] makes
    itself, in the order of the code: for each call an error, or none.
    A call that is answered with an error has changed nothing.  For a
    step that is run again after it threw, the answer is the one of its
    last attempt. *)
Record StoreAnswers := {
  insert_email_error : option jsstring;
  suggestions_error : option jsstring;
  insert_unmatched_error : option jsstring;
  get_application_error : option jsstring;
  update_status_error : option jsstring;
  update_history_error : option jsstring
}.

(** The store that accepts every call. *)
Definition accepting : StoreAnswers :=
  {| insert_email_error := None;
     suggestions_error := None;
     insert_unmatched_error := None;
     get_application_error := None;
     update_status_error := None;
     update_history_error := None |}.

(** The [emailId] of a result. *)
Definition emailId_of (r : PipelineResult) : uuid :=
  match r with
  | unmatched emailId _ _ => emailId
  | processed emailId _ _ _ _ _ _ => emailId
  end.

Section Run.

Variable generateObject
  : jsstring -> jsstring -> outcome C.ClassificationResult.

(** [Date.prototype.toISOString] of a date that holds a time value. *)
Variable toISOString : Date -> jsstring.

Variable CLASSIFICATION_PROMPT : jsstring.

(** [new Date(s)] *)
Variable parseDate : jsstring -> JSDate.

(** [Date.prototype.toISOString]: it throws for the Invalid Date. *)
Definition toISOString_of (d : JSDate) : outcome jsstring :=
  match d with
  | ValidDate t => Returned (toISOString t)
  | InvalidDate => Raised RangeError
  end.

(** [email.fromName || 'Unknown'] *)
Definition fromName_or_unknown (email : ParsedEmail) : jsstring :=
  match fromName email with
  | Some n => if truthy n then n else str "Unknown"
  | None => str "Unknown"
  end.

(** The template of [formatEmailForClassification], given the text of
    the date. *)
Definition prompt_text (email : ParsedEmail) (date : jsstring) : jsstring :=
  let bodyPreview := slice0 2000 (body email) in
  (str "From: " ++ fromName_or_unknown email ++ str " <" ++ from email
     ++ str ">" ++ C.newline
   ++ str "Subject: " ++ subject email ++ C.newline
   ++ str "Date: " ++ date ++ C.newline
   ++ C.newline
   ++ str "Body:" ++ C.newline
   ++ bodyPreview)%list.

Definition formatEmailForClassification (email : ParsedEmail)
  : outcome jsstring :=
  bind (toISOString_of (receivedAt email))
       (fun date => Returned (prompt_text email date)).

(** The prompt is built before the [try]. *)
Definition classifyEmail (email : ParsedEmail)
  : outcome C.ClassificationResult :=
  bind (formatEmailForClassification email)
       (fun emailContent =>
          try_catch
            (bind (generateObject CLASSIFICATION_PROMPT emailContent)
                  (fun object => Returned object))
            (fun error => Returned C.safe_default)).

(** The classification that a call with the prompt [emailContent] ends
    with. *)
Definition classified (emailContent : jsstring) : C.ClassificationResult :=
  match generateObject CLASSIFICATION_PROMPT emailContent with
  | Returned object => object
  | Raised _ => C.safe_default
  end.

Definition parse_email (rawEmail : RawEmail) : ParsedEmail :=
  {| from := raw_from rawEmail;
     fromName := raw_fromName rawEmail;
     subject := raw_subject rawEmail;
     body := raw_body rawEmail;
     receivedAt := parseDate (raw_receivedAt rawEmail) |}.

Variable store : StoreAnswers.

(** Step 3, [create-email-record]: the row is built, with the text of
    the date, and inserted; [if (error) throw error]. *)
Definition create_email_record (userId : uuid)
    (matchResult : MatchResult) (email : ParsedEmail)
    (classification : C.ClassificationResult) : step EmailRecord :=
  fun db =>
    match toISOString_of (receivedAt email) with
    | Raised e => (db, Raised e)
    | Returned received_at =>
        match insert_email_error store with
        | Some error => (db, Raised error)
        | None =>
            match decimal_3_2 (C.confidence classification) with
            | None => (db, Raised numeric_field_overflow)
            | Some stored =>
                let (db', data) :=
                  insert_application_email db userId
                    (applicationId matchResult)
                    (from email)
                    (fromName email)
                    (subject email)
                    (slice0 500 (body email))
                    received_at
                    (C.type classification)
                    stored
                    (match C.extractedData classification with
                     | Some d => d
                     | None => no_extracted_data
                     end) in
                (db', Returned data)
            end
        end
    end.

(** Step 4, [create-unmatched-record]: [data || []] for the suggestions,
    and an insert whose answer is not looked at. *)
Definition create_unmatched_record (userId : uuid) (email : ParsedEmail)
    (emailRecord : EmailRecord) : step unit :=
  suggestions <-
    query (fun db =>
      match suggestions_error store with
      | Some _ => []
      | None => getSuggestedApplications db userId (texts email) 5
      end) ;;
  match insert_unmatched_error store with
  | Some _ => ret tt
  | None =>
      execute (fun db =>
        insert_unmatched_email db userId (email_id emailRecord)
          (map app_id suggestions) pending)
  end.

(** Step 5, [get-application]; [if (error) throw error]. *)
Definition get_application (applicationId : uuid) : step Application :=
  match get_application_error store with
  | Some error => throw error
  | None =>
      data <- query (fun db => application_by_id db applicationId) ;;
      match data with
      | Some data => ret data
      | None => throw PGRST116
      end
  end.

(** Step 7, [update-application-status]: [if (updateError) throw
    updateError]; an error of the second update is only logged. *)
Definition update_application_status_step (applicationId : uuid)
    (newStatus : ApplicationStatus)
    (classification : C.ClassificationResult) (emailRecord : EmailRecord)
  : step unit :=
  match update_status_error store with
  | Some updateError => throw updateError
  | None =>
      _ <- execute (fun db =>
             update_application_status db applicationId newStatus) ;;
      match update_history_error store with
      | Some _ => ret tt
      | None =>
          execute (fun db =>
            update_latest_history db applicationId
              (getTriggerType (C.confidence classification))
              (email_id emailRecord))
      end
  end.

Definition processEmail (event : EmailReceivedEvent) : step PipelineResult :=
  let userId := userId event in
  let email := parse_email (Pipeline.email event) in
  matchResult <-
    query (fun db => matchEmailToApplication db userId (texts email)) ;;
  classification <- await (classifyEmail email) ;;
  emailRecord <-
    create_email_record userId matchResult email classification ;;
  match applicationId matchResult with
  | None =>
      _ <- create_unmatched_record userId email emailRecord ;;
      ret (unmatched (email_id emailRecord)
             (C.type classification)
             (C.confidence classification))
  | Some applicationId =>
      application <- get_application applicationId ;;
      let transition :=
        getStatusTransition (C.type classification)
          (C.confidence classification) (app_status application) in
      _ <- match shouldUpdate transition, newStatus transition with
           | true, Some status =>
               update_application_status_step applicationId status
                 classification emailRecord
           | _, _ => ret tt
           end ;;
      ret (processed (email_id emailRecord) applicationId
             (C.type classification)
             (C.confidence classification)
             (shouldUpdate transition)
             (newStatus transition)
             (needsReview transition))
  end.

(** The email record of a run on [db] whose date holds the time value
    [t] and whose confidence is stored as [stored], and the database
    that holds it. *)
Definition recorded (event : EmailReceivedEvent) (t : Date) (stored : Q)
    (db : Database) : Database * EmailRecord :=
  let email := parse_email (Pipeline.email event) in
  let classification := classified (prompt_text email (toISOString t)) in
  insert_application_email db (userId event)
    (applicationId
       (matchEmailToApplication db (userId event) (texts email)))
    (from email)
    (fromName email)
    (subject email)
    (slice0 500 (body email))
    (toISOString t)
    (C.type classification)
    stored
    (match C.extractedData classification with
     | Some d => d
     | None => no_extracted_data
     end).

End Run.

End Runtime.

(* ================================================================== *)
(** * Sample data                                                       *)
(* ================================================================== *)

Module Examples.

Import Transitions JS Db Matching Exc Pipeline.
Local Open Scope N_scope.
Local Open Scope string_scope.

(** A model that answers every prompt with the same object. *)
Definition answering (type : EmailClassification) (confidence : number)
  : jsstring -> jsstring -> outcome C.ClassificationResult :=
  fun _ _ =>
    Returned {| C.type := type;
                C.confidence := confidence;
                C.reasoning := str "sample";
                C.extractedData := None |}.

(** A model call that times out. *)
Definition timing_out
  : jsstring -> jsstring -> outcome C.ClassificationResult :=
  fun _ _ => Raised (str "timeout").

Definition sample_iso (d : Date) : jsstring := str "2026-01-05T09:00:00.000Z".
Definition sample_parse (s : jsstring) : Date := 1767603600000%Z.
Definition sample_prompt : jsstring := str "Classify this email.".

Definition user : uuid := 7.

Definition application (id owner : uuid) (company : string)
    (status : ApplicationStatus) (created : timestamptz) : Application :=
  {| app_id := id;
     app_user_id := owner;
     job_title := str "Software Engineer";
     company_name := str company;
     app_status := status;
     app_created_at := created;
     app_updated_at := created |}.

(** A user with applications at Acme Corp, Stripe and Alphabet, and
    another user's application. *)
Definition sample_db : Database :=
  {| applications :=
       [application 1 user "Acme Corp" APPLIED 10;
        application 2 user "Stripe" APPLIED 20;
        application 3 8 "Initech" SAVED 30;
        application 4 user "Alphabet" REJECTED 40];
     application_emails := [];
     unmatched_emails := [];
     status_history := [];
     next_uuid := 100;
     clock := 50 |}.

Definition message (sender title : string) : EmailReceivedEvent :=
  {| userId := user;
     email := {| raw_from := str sender;
                 raw_fromName := None;
                 raw_subject := str title;
                 raw_body := str "Hello, thank you for your time.";
                 raw_receivedAt := str "2026-01-05T09:00:00.000Z" |} |}.

Definition interview_at_stripe : EmailReceivedEvent :=
  message "hr@stripe.com" "Interview scheduling".

Definition from_unknown_sender : EmailReceivedEvent :=
  message "jobs@youtube.com" "Hello".

(** The sender's domain belongs to the employer of application 4. *)
Definition from_alias_domain : EmailReceivedEvent :=
  message "recruiting@google.com" "Hello".

Definition without_at_sign : EmailReceivedEvent :=
  message "undisclosed-recipients" "Hello".

(** A notification of an ATS, as in the comment of its pattern. *)
Definition from_greenhouse : EmailReceivedEvent :=
  message "notifications@greenhouse.io" "Your application to Acme Corp".

(** Only the subject names the company. *)
Definition subject_names_stripe : EmailReceivedEvent :=
  message "someone@example.org" "Interview with Stripe - next steps".

Definition stripe_interview : C.ClassificationResult :=
  {| C.type := INTERVIEW_REQUEST;
     C.confidence := 0.95%Q;
     C.reasoning := str "sample";
     C.extractedData := None |}.

(** Steps 3, 5, 6 and 7 of a run for application 2, with an edit by the
    user, who withdraws, between the read of step 5 and the write of
    step 7.  The status that step 5 read and the decision are returned. *)
Definition run_with_concurrent_edit
  : step (ApplicationStatus * TransitionResult) :=
  (emailRecord <-
     create_email_record sample_iso user
       {| applicationId := Some 2;
          companyName := Some (str "Stripe");
          confidence := 0.95%Q;
          matchType := domain |}
       (parse_email sample_parse (email interview_at_stripe))
       stripe_interview ;;
   application <- get_application 2 ;;
   let transition :=
     getStatusTransition (C.type stripe_interview)
       (C.confidence stripe_interview) (app_status application) in
   _ <- execute (fun db => update_application_status db 2 WITHDRAWN) ;;
   _ <- match shouldUpdate transition, newStatus transition with
        | true, Some status =>
            update_application_status_step 2 status stripe_interview
              emailRecord
        | _, _ => ret tt
        end ;;
   ret (app_status application, transition))%step.

(** The pipeline with the sample clock and prompt. *)
Definition run (model : jsstring -> jsstring -> outcome C.ClassificationResult)
  : EmailReceivedEvent -> step PipelineResult :=
  processEmail model sample_iso sample_prompt sample_parse.

End Examples.

(** Samples for the run with its failures. *)
Module RuntimeExamples.

Import Transitions JS Db Exc Pipeline Runtime.
Local Open Scope N_scope.
Local Open Scope string_scope.

(** A [new Date(s)] that reads the time stamps of January 2026 as the
    one of the samples, and holds no time value for any other text. *)
Definition parse_or_invalid (s : jsstring) : JSDate :=
  if startsWith s (str "2026-01-") then ValidDate 1767603600000%Z
  else InvalidDate.

(** An event whose time stamp does not parse. *)
Definition undated : EmailReceivedEvent :=
  {| userId := Examples.user;
     email := {| raw_from := str "hr@stripe.com";
                 raw_fromName := None;
                 raw_subject := str "Interview scheduling";
                 raw_body := str "Hello, thank you for your time.";
                 raw_receivedAt := str "yesterday" |} |}.

(** A message whose body is 2000 letters followed by the character [b]. *)
Definition with_long_body (b : N) : ParsedEmail :=
  {| from := str "hr@stripe.com";
     fromName := None;
     subject := str "Interview";
     body := (repeat 97%N 2000 ++ [b])%list;
     receivedAt := ValidDate 0%Z |}.

(** A store that refuses the insert of the email record: the user of the
    event is no row of [users]. *)
Definition refusing_the_insert : StoreAnswers :=
  {| insert_email_error := Some (str "23503");
     suggestions_error := None;
     insert_unmatched_error := None;
     get_application_error := None;
     update_status_error := None;
     update_history_error := None |}.

Definition run (model : jsstring -> jsstring -> outcome C.ClassificationResult)
  : StoreAnswers -> EmailReceivedEvent -> step PipelineResult :=
  processEmail model Examples.sample_iso Examples.sample_prompt
    parse_or_invalid.

End RuntimeExamples.

(* ================================================================== *)
(** * Properties of the Transition Engine                               *)
(* ================================================================== *)

Module TransitionProps.

Import Transitions.
Local Open Scope Q_scope.

Lemma status_eqb_eq (a b : ApplicationStatus) :
  status_eqb a b = true <-> a = b.
Proof.
  split.
  - destruct a, b; simpl; intro H; try reflexivity; discriminate H.
  - intros ->. destruct b; reflexivity.
Qed.

Lemma includes_status_In (l : list ApplicationStatus) (t : ApplicationStatus) :
  includes_status l t = true <-> In t l.
Proof.
  unfold includes_status. rewrite existsb_exists. split.
  - intros [x [Hin Heq]]. apply status_eqb_eq in Heq. now subst.
  - intro Hin. exists t. split; [exact Hin | now apply status_eqb_eq].
Qed.

Lemma js_lt_true (a b : number) : js_lt a b = true <-> a < b.
Proof.
  unfold js_lt. rewrite negb_true_iff. split.
  - intro H. apply Qnot_le_lt. intro Hle.
    apply Qle_bool_iff in Hle. congruence.
  - intro H. destruct (Qle_bool b a) eqn:E; [| reflexivity].
    apply Qle_bool_iff in E. exfalso. now apply (Qlt_not_le a b).
Qed.

Lemma js_lt_false (a b : number) : js_lt a b = false <-> b <= a.
Proof.
  unfold js_lt. rewrite negb_false_iff. apply Qle_bool_iff.
Qed.

Lemma js_ge_true (a b : number) : js_ge a b = true <-> b <= a.
Proof. unfold js_ge. apply Qle_bool_iff. Qed.

(** The two thresholds are ordered. *)
Lemma thresholds_ordered : FLAG_FOR_REVIEW <= AUTO_UPDATE.
Proof. unfold FLAG_FOR_REVIEW, AUTO_UPDATE, Qle. simpl. lia. Qed.

(** The engine, read as its four rules. *)
Lemma getStatusTransition_cases
    (classification : EmailClassification) (confidence : number)
    (currentStatus : ApplicationStatus) :
  let r := getStatusTransition classification confidence currentStatus in
  match CLASSIFICATION_TO_STATUS classification with
  | None => shouldUpdate r = false /\ needsReview r = false
  | Some t =>
      if includes_status (VALID_TRANSITIONS currentStatus) t then
        if js_lt confidence FLAG_FOR_REVIEW
        then shouldUpdate r = false /\ needsReview r = true
        else shouldUpdate r = true /\ newStatus r = Some t
             /\ needsReview r = js_lt confidence AUTO_UPDATE
      else shouldUpdate r = false /\ needsReview r = true
  end.
Proof.
  unfold getStatusTransition.
  destruct (CLASSIFICATION_TO_STATUS classification) as [t |]; simpl.
  - destruct (includes_status (VALID_TRANSITIONS currentStatus) t); simpl.
    + destruct (js_lt confidence FLAG_FOR_REVIEW); simpl; auto.
    + auto.
  - auto.
Qed.

(** C1.  When the status a category maps to is not among the legal next
    statuses of the current status, the engine withholds the update and
    flags it for review, whatever the confidence. *)
Theorem illegal_edge_is_withheld_and_flagged
    (classification : EmailClassification) (confidence : number)
    (currentStatus targetStatus : ApplicationStatus) :
  CLASSIFICATION_TO_STATUS classification = Some targetStatus ->
  ~ In targetStatus (VALID_TRANSITIONS currentStatus) ->
  shouldUpdate (getStatusTransition classification confidence currentStatus)
    = false
  /\ needsReview (getStatusTransition classification confidence currentStatus)
    = true.
Proof.
  intros Hmap Hillegal.
  pose proof (getStatusTransition_cases classification confidence
                currentStatus) as H.
  cbv zeta in H. rewrite Hmap in H.
  destruct (includes_status (VALID_TRANSITIONS currentStatus) targetStatus)
    eqn:E.
  - apply includes_status_In in E. contradiction.
  - exact H.
Qed.

Lemma illegal_edge_is_withheld_and_flagged_witness :
  shouldUpdate (getStatusTransition INTERVIEW_REQUEST 0.95 REJECTED) = false
  /\ needsReview (getStatusTransition INTERVIEW_REQUEST 0.95 REJECTED) = true.
Proof.
  apply (@illegal_edge_is_withheld_and_flagged
           INTERVIEW_REQUEST 0.95 REJECTED INTERVIEWING).
  - reflexivity.
  - simpl. tauto.
Defined.

(** C2.  On a legal edge, a confidence of at least 0.9 updates without
    review, and a confidence from 0.7 up to, not including, 0.9 updates
    and flags for review. *)
Theorem legal_edge_is_gated_by_confidence
    (classification : EmailClassification) (confidence : number)
    (currentStatus targetStatus : ApplicationStatus) :
  CLASSIFICATION_TO_STATUS classification = Some targetStatus ->
  In targetStatus (VALID_TRANSITIONS currentStatus) ->
  let r := getStatusTransition classification confidence currentStatus in
  (0.9 <= confidence ->
     shouldUpdate r = true /\ needsReview r = false)
  /\ (0.7 <= confidence -> confidence < 0.9 ->
     shouldUpdate r = true /\ needsReview r = true).
Proof.
  intros Hmap Hlegal r.
  pose proof (getStatusTransition_cases classification confidence
                currentStatus) as H.
  cbv zeta in H. fold r in H. rewrite Hmap in H.
  apply includes_status_In in Hlegal. rewrite Hlegal in H.
  split.
  - intro Hhigh.
    assert (Hflag : js_lt confidence FLAG_FOR_REVIEW = false).
    { apply js_lt_false. apply Qle_trans with AUTO_UPDATE;
        [apply thresholds_ordered | exact Hhigh]. }
    rewrite Hflag in H. destruct H as [Hu [_ Hr]].
    split; [exact Hu |]. rewrite Hr. now apply js_lt_false.
  - intros Hlow Hhigh.
    assert (Hflag : js_lt confidence FLAG_FOR_REVIEW = false)
      by now apply js_lt_false.
    rewrite Hflag in H. destruct H as [Hu [_ Hr]].
    split; [exact Hu |]. rewrite Hr. now apply js_lt_true.
Qed.

Lemma legal_edge_is_gated_by_confidence_witness :
  (shouldUpdate (getStatusTransition INTERVIEW_REQUEST 0.95 APPLIED) = true
   /\ needsReview (getStatusTransition INTERVIEW_REQUEST 0.95 APPLIED) = false)
  /\ (shouldUpdate (getStatusTransition INTERVIEW_REQUEST 0.75 APPLIED) = true
   /\ needsReview (getStatusTransition INTERVIEW_REQUEST 0.75 APPLIED) = true).
Proof.
  split.
  - apply (@legal_edge_is_gated_by_confidence
             INTERVIEW_REQUEST 0.95 APPLIED INTERVIEWING).
    + reflexivity.
    + simpl. tauto.
    + unfold Qle. simpl. lia.
  - apply (@legal_edge_is_gated_by_confidence
             INTERVIEW_REQUEST 0.75 APPLIED INTERVIEWING).
    + reflexivity.
    + simpl. tauto.
    + unfold Qle. simpl. lia.
    + unfold Qlt. simpl. lia.
Defined.

(** C3, as stated, fails: a category that maps to no status is not
    flagged, at any confidence. *)
Lemma low_confidence_noop_is_not_flagged :
  0.5 < 0.7
  /\ ~ (shouldUpdate (getStatusTransition GENERIC_UPDATE 0.5 APPLIED) = false
        /\ needsReview (getStatusTransition GENERIC_UPDATE 0.5 APPLIED) = true).
Proof.
  split.
  - unfold Qlt. simpl. lia.
  - simpl. intros [_ H]. discriminate H.
Qed.

(** C3, amended.  Below 0.7 the engine never updates; it flags for review
    exactly when the category maps to a status. *)
Theorem low_confidence_never_updates
    (classification : EmailClassification) (confidence : number)
    (currentStatus : ApplicationStatus) :
  confidence < 0.7 ->
  let r := getStatusTransition classification confidence currentStatus in
  shouldUpdate r = false
  /\ needsReview r =
     match CLASSIFICATION_TO_STATUS classification with
     | Some _ => true
     | None => false
     end.
Proof.
  intros Hlow r.
  pose proof (getStatusTransition_cases classification confidence
                currentStatus) as H.
  cbv zeta in H. fold r in H.
  destruct (CLASSIFICATION_TO_STATUS classification) as [t |].
  - destruct (includes_status (VALID_TRANSITIONS currentStatus) t).
    + assert (Hflag : js_lt confidence FLAG_FOR_REVIEW = true)
        by now apply js_lt_true.
      rewrite Hflag in H. exact H.
    + exact H.
  - exact H.
Qed.

Lemma low_confidence_never_updates_witness :
  shouldUpdate (getStatusTransition REJECTION 0.5 APPLIED) = false
  /\ needsReview (getStatusTransition REJECTION 0.5 APPLIED) = true.
Proof.
  apply (@low_confidence_never_updates REJECTION 0.5 APPLIED).
  unfold Qlt. simpl. lia.
Defined.

(** What an applied update tells about its arguments. *)
Lemma applied_update_facts
    (classification : EmailClassification) (confidence : number)
    (currentStatus : ApplicationStatus) :
  shouldUpdate (getStatusTransition classification confidence currentStatus)
    = true ->
  exists targetStatus,
    CLASSIFICATION_TO_STATUS classification = Some targetStatus
    /\ newStatus (getStatusTransition classification confidence currentStatus)
       = Some targetStatus
    /\ In targetStatus (VALID_TRANSITIONS currentStatus)
    /\ FLAG_FOR_REVIEW <= confidence
    /\ needsReview (getStatusTransition classification confidence
                      currentStatus)
       = js_lt confidence AUTO_UPDATE.
Proof.
  intro Hup.
  pose proof (getStatusTransition_cases classification confidence
                currentStatus) as H.
  cbv zeta in H. rewrite Hup in H.
  destruct (CLASSIFICATION_TO_STATUS classification) as [t |];
    [| destruct H; discriminate].
  destruct (includes_status (VALID_TRANSITIONS currentStatus) t) eqn:Hin;
    [| destruct H; discriminate].
  destruct (js_lt confidence FLAG_FOR_REVIEW) eqn:Hlt;
    [destruct H; discriminate |].
  destruct H as [_ [Hn Hr]].
  exists t. repeat split; try assumption.
  - now apply includes_status_In.
  - now apply js_lt_false.
Qed.

(** No status is listed among its own next statuses. *)
Lemma no_self_transition (s : ApplicationStatus) :
  includes_status (VALID_TRANSITIONS s) s = false.
Proof. destruct s; reflexivity. Qed.

(** Once the application is in the target status, the same classification
    does not update it again. *)
Lemma no_second_update
    (classification : EmailClassification) (confidence : number)
    (targetStatus : ApplicationStatus) :
  CLASSIFICATION_TO_STATUS classification = Some targetStatus ->
  shouldUpdate (getStatusTransition classification confidence targetStatus)
    = false.
Proof.
  intro Hmap. unfold getStatusTransition. rewrite Hmap.
  now rewrite no_self_transition.
Qed.

(** Every applied update has the trigger [email_auto]. *)
Lemma trigger_of_applied_update
    (classification : EmailClassification) (confidence : number)
    (currentStatus : ApplicationStatus) :
  shouldUpdate (getStatusTransition classification confidence currentStatus)
    = true ->
  getTriggerType confidence = email_auto.
Proof.
  intro Hup. destruct (applied_update_facts _ _ _ Hup)
    as [t [_ [_ [_ [Hge _]]]]].
  unfold getTriggerType. apply js_ge_true in Hge. now rewrite Hge.
Qed.

End TransitionProps.

(* ================================================================== *)
(** * Properties of the queries                                         *)
(* ================================================================== *)

Module DbProps.

Import Transitions JS Db.
Local Open Scope N_scope.

Section OrderByProps.

Variable row : Type.
Variable key : row -> timestamptz.

Lemma insert_desc_perm (x : row) (l : list row) :
  Permutation (x :: l) (insert_desc key x l).
Proof.
  induction l as [| y l IH]; simpl.
  - apply Permutation_refl.
  - destruct (key x <? key y).
    + apply perm_trans with (y :: x :: l).
      * apply perm_swap.
      * apply perm_skip. exact IH.
    + apply Permutation_refl.
Qed.

Lemma order_desc_perm (l : list row) : Permutation l (order_desc key l).
Proof.
  induction l as [| x l IH]; simpl.
  - apply perm_nil.
  - apply perm_trans with (x :: order_desc key l).
    + apply perm_skip. exact IH.
    + apply insert_desc_perm.
Qed.


Lemma insert_desc_sorted (x : row) (l : list row) :
  StronglySorted (newer_first key) l ->
  StronglySorted (newer_first key) (insert_desc key x l).
Proof.
  induction 1 as [| y l Hs IH Hall]; simpl.
  - constructor; [constructor | constructor].
  - destruct (key x <? key y) eqn:E.
    + apply N.ltb_lt in E. constructor; [exact IH |].
      apply Forall_forall. intros z Hz.
      apply Permutation_in with (l' := x :: l) in Hz;
        [| apply Permutation_sym, insert_desc_perm].
      destruct Hz as [<- | Hz].
      * unfold newer_first. lia.
      * rewrite Forall_forall in Hall. now apply Hall.
    + apply N.ltb_ge in E. constructor.
      * constructor; assumption.
      * constructor; [exact E |].
        apply Forall_forall. intros z Hz.
        rewrite Forall_forall in Hall. specialize (Hall z Hz).
        unfold newer_first in *. lia.
Qed.

Lemma order_desc_sorted (l : list row) :
  StronglySorted (newer_first key) (order_desc key l).
Proof.
  induction l as [| x l IH]; simpl.
  - constructor.
  - now apply insert_desc_sorted.
Qed.



(** [order ... limit(1).single()] on a non-empty selection gives a newest
    row of the selection. *)
Lemma newest_of_selection (l : list row) :
  l <> [] ->
  exists a, single (firstn 1 (order_desc key l)) = Some a
            /\ In a l
            /\ forall b, In b l -> key b <= key a.
Proof.
  intro Hne.
  pose proof (order_desc_sorted l) as Hs.
  pose proof (order_desc_perm l) as Hp.
  destruct (order_desc key l) as [| a t] eqn:E.
  - apply Permutation_sym, Permutation_nil in Hp. contradiction.
  - exists a. simpl. split; [reflexivity |]. split.
    + apply Permutation_in with (a :: t);
        [now apply Permutation_sym | now left].
    + intros b Hb. apply Permutation_in with (l' := a :: t) in Hb;
        [| exact Hp].
      destruct Hb as [<- | Hb]; [lia |].
      inversion Hs as [| ? ? _ Hall]; subst.
      rewrite Forall_forall in Hall. now apply Hall.
Qed.

End OrderByProps.

(** Selections and orderings commute with a rewriting of the rows that
    keeps what they look at. *)
Section Rewriting.

Variable row : Type.
Variable f : row -> row.

Lemma filter_map_kept (p : row -> bool) (l : list row) :
  (forall a, p (f a) = p a) ->
  filter p (map f l) = map f (filter p l).
Proof.
  intro Hp. induction l as [| x l IH]; simpl; [reflexivity |].
  rewrite Hp. destruct (p x); simpl; now rewrite IH.
Qed.

Lemma insert_desc_map (key : row -> timestamptz) (x : row) (l : list row) :
  (forall a, key (f a) = key a) ->
  insert_desc key (f x) (map f l) = map f (insert_desc key x l).
Proof.
  intro Hk. induction l as [| y l IH]; simpl; [reflexivity |].
  rewrite !Hk. destruct (key x <? key y); simpl; [now rewrite IH | reflexivity].
Qed.

Lemma order_desc_map (key : row -> timestamptz) (l : list row) :
  (forall a, key (f a) = key a) ->
  order_desc key (map f l) = map f (order_desc key l).
Proof.
  intro Hk. induction l as [| x l IH]; simpl; [reflexivity |].
  rewrite IH. now apply insert_desc_map.
Qed.

Lemma single_map (l : list row) :
  single (map f l) = option_map f (single l).
Proof. destruct l as [| x [| y l]]; reflexivity. Qed.

End Rewriting.

(** The pattern [%%] matches every value. *)
Lemma like_percent_percent (s : jsstring) : like [37; 37] s = true.
Proof.
  induction s as [| c s IH].
  - reflexivity.
  - simpl in *. rewrite IH. now rewrite orb_true_r.
Qed.

Lemma ilike_percent_percent (value : jsstring) :
  ilike value [37; 37] = true.
Proof. unfold ilike. simpl. apply like_percent_percent. Qed.

Lemma single_some (row : Type) (l : list row) (a : row) :
  single l = Some a -> l = [a].
Proof.
  destruct l as [| x [| y l]]; simpl; intro H; try discriminate H.
  now injection H as ->.
Qed.



End DbProps.

(* ================================================================== *)
(** * Properties of the Matcher                                         *)
(* ================================================================== *)

Module MatchingProps.

Import Transitions JS Db Matching DbProps.
Local Open Scope N_scope.

(** [/@([^@]+)$/] finds nothing in a string without [@]. *)
Lemma domain_pattern_needs_at (s : jsstring) :
  ~ In 64 s ->
  forall (before : option char) (index : nat),
    search false domain_pattern before s index = None.
Proof.
  induction s as [| c s IH]; intros Hno before index.
  - reflexivity.
  - assert (Hc : char_eqb 64 c = false).
    { apply N.eqb_neq. intro Heq. apply Hno. now left. }
    cbn [search]. unfold domain_pattern, seq.
    cbn [rmatch]. unfold take1. cbn [rest].
    unfold same_char, canonicalize. rewrite Hc.
    apply IH. intro Hin. apply Hno. now right.
Qed.

Lemma extractDomain_without_at (address : jsstring) :
  ~ In 64 address -> extractDomain address = [].
Proof.
  intro Hno. unfold extractDomain, match1, exec.
  now rewrite domain_pattern_needs_at.
Qed.

(** With an empty domain no ATS entry applies. *)
Lemma no_ats_company_for_empty_domain (email : ParsedEmail) :
  first_ats_company [] email ATS_PATTERNS = None.
Proof. reflexivity. Qed.

(** With an empty domain the slug is empty and the pattern is [%%]. *)
Lemma findApplicationByDomain_empty (db : Database) (userId : uuid) :
  findApplicationByDomain db userId [] =
  latest_application_ilike db userId [37; 37].
Proof. reflexivity. Qed.

(** The pattern [%%] selects every application of the user. *)
Lemma filter_percent_percent (userId : uuid) (apps : list Application) :
  filter (fun a => N.eqb (app_user_id a) userId
                   && ilike (company_name a) [37; 37]) apps
  = filter (fun a => N.eqb (app_user_id a) userId) apps.
Proof.
  apply filter_ext. intro a.
  now rewrite ilike_percent_percent, andb_true_r.
Qed.

(** A company taken from the subject is never the empty string. *)
Lemma subject_company_truthy (subject : jsstring) (patterns : list regex)
    (company : jsstring) :
  first_subject_company subject patterns = Some company ->
  truthy company = true.
Proof.
  induction patterns as [| p ps IH]; simpl; [discriminate |].
  destruct (match1 true p subject) as [g |]; [| exact IH].
  destruct (truthy g); [| exact IH].
  destruct ((2 <? length (trim g))%nat) eqn:Hlen; simpl; [| exact IH].
  destruct ((length (trim g) <? 50)%nat
            && negb (test true false_positive (trim g))); [| exact IH].
  intro H. injection H as <-.
  destruct (trim g); [discriminate Hlen | reflexivity].
Qed.

(** C7, as stated, fails: the Matcher has no table of domain families.
    A message from a domain of the employer of a tracked application,
    which no other strategy matches, is reported unmatched. *)
Lemma alias_domain_is_not_resolved :
  let message :=
    Pipeline.parse_email Examples.sample_parse
      (Pipeline.email Examples.from_alias_domain) in
  let r := matchEmailToApplication Examples.sample_db Examples.user message in
  extractCompanyFromATS message = None
  /\ findApplicationByDomain Examples.sample_db Examples.user
       (extractDomain (from message)) = None
  /\ applicationId r = None
  /\ matchType r = none
  /\ ~ (confidence r == 0.85)%Q.
Proof.
  vm_compute. repeat split; discriminate.
Qed.

(** C7, amended.  When ATS-aware extraction and the direct domain match
    both fail, the Matcher goes straight to the subject: it returns the
    application found for the company taken from the subject, with
    confidence 0.7, or no application with confidence 0. *)
Theorem after_domain_match_comes_subject_match
    (db : Database) (userId : uuid) (email : ParsedEmail) :
  match extractCompanyFromATS email with
  | Some company => findApplicationByCompanyName db userId company = None
  | None => True
  end ->
  findApplicationByDomain db userId (extractDomain (from email)) = None ->
  matchEmailToApplication db userId email =
  match extractCompanyFromSubject (subject email) with
  | Some company =>
      match findApplicationByCompanyName db userId company with
      | Some fuzzyMatch =>
          {| applicationId := Some (app_id fuzzyMatch);
             companyName := Some company;
             confidence := 0.7%Q;
             matchType := fuzzy |}
      | None =>
          {| applicationId := None;
             companyName :=
               or_else_string (extractCompanyFromATS email) (Some company);
             confidence := 0%Q;
             matchType := none |}
      end
  | None =>
      {| applicationId := None;
         companyName := or_else_string (extractCompanyFromATS email) None;
         confidence := 0%Q;
         matchType := none |}
  end.
Proof.
  intros Hats Hdomain. unfold matchEmailToApplication.
  assert (Hnone :
    match extractCompanyFromATS email with
    | Some company =>
        if truthy company
        then findApplicationByCompanyName db userId company
        else None
    | None => None
    end = None).
  { destruct (extractCompanyFromATS email) as [c |]; [| reflexivity].
    rewrite Hats. now destruct (truthy c). }
  rewrite Hnone, Hdomain.
  destruct (extractCompanyFromSubject (subject email)) as [company |] eqn:Es.
  - apply subject_company_truthy in Es. rewrite Es.
    destruct (findApplicationByCompanyName db userId company);
      now destruct (extractCompanyFromATS email).
  - now destruct (extractCompanyFromATS email).
Qed.

Lemma after_domain_match_comes_subject_match_witness :
  let message :=
    Pipeline.parse_email Examples.sample_parse
      (Pipeline.email Examples.subject_names_stripe) in
  matchEmailToApplication Examples.sample_db Examples.user message =
  {| applicationId := Some 2;
     companyName := Some (str "Stripe");
     confidence := 0.7%Q;
     matchType := fuzzy |}.
Proof.
  intro message.
  apply (@after_domain_match_comes_subject_match
           Examples.sample_db Examples.user message).
  - vm_compute. exact I.
  - vm_compute. reflexivity.
Defined.

(** C10.  For a sender address without [@], [extractDomain] returns the
    empty string, ATS extraction yields no company, and the direct-domain
    strategy matches the empty slug against every company name: for a
    user with at least one application the Matcher returns a most
    recently created one, with confidence 0.95 and match type [domain]. *)
Theorem sender_without_at_sign_matches_newest_application
    (db : Database) (userId : uuid) (email : ParsedEmail) :
  ~ In 64 (from email) ->
  (exists a, In a (applications db) /\ app_user_id a = userId) ->
  extractDomain (from email) = []
  /\ extractCompanyFromATS email = None
  /\ (forall b : Application,
        ilike (company_name b) (str "%" ++ [] ++ str "%") = true)
  /\ exists a,
       In a (applications db)
       /\ app_user_id a = userId
       /\ (forall b, In b (applications db) -> app_user_id b = userId ->
                     app_created_at b <= app_created_at a)
       /\ matchEmailToApplication db userId email =
          {| applicationId := Some (app_id a);
             companyName := Some (company_name a);
             confidence := 0.95%Q;
             matchType := domain |}.
Proof.
  intros Hno [a0 [Hin0 Hu0]].
  pose proof (extractDomain_without_at _ Hno) as Hdom.
  assert (Hats : extractCompanyFromATS email = None).
  { unfold extractCompanyFromATS. rewrite Hdom.
    apply no_ats_company_for_empty_domain. }
  split; [exact Hdom |]. split; [exact Hats |].
  split; [intro b; apply ilike_percent_percent |].
  set (mine := filter (fun a => N.eqb (app_user_id a) userId)
                      (applications db)).
  assert (Hne : mine <> []).
  { intro He. assert (Hin : In a0 mine).
    { apply filter_In. split; [exact Hin0 | now apply N.eqb_eq]. }
    rewrite He in Hin. destruct Hin. }
  destruct (newest_of_selection app_created_at Hne) as [a [Hsel [Hin Hmax]]].
  apply filter_In in Hin. destruct Hin as [Hin Hu]. apply N.eqb_eq in Hu.
  exists a. split; [exact Hin |]. split; [exact Hu |]. split.
  - intros b Hb Hbu. apply Hmax. apply filter_In.
    split; [exact Hb | now apply N.eqb_eq].
  - unfold matchEmailToApplication. rewrite Hats, Hdom.
    rewrite findApplicationByDomain_empty.
    unfold latest_application_ilike. rewrite filter_percent_percent.
    fold mine. now rewrite Hsel.
Qed.

Lemma sender_without_at_sign_matches_newest_application_witness :
  let message :=
    Pipeline.parse_email Examples.sample_parse
      (Pipeline.email Examples.without_at_sign) in
  extractDomain (from message) = []
  /\ extractCompanyFromATS message = None
  /\ (forall b : Application,
        ilike (company_name b) (str "%" ++ [] ++ str "%") = true)
  /\ exists a,
       In a (applications Examples.sample_db)
       /\ app_user_id a = Examples.user
       /\ (forall b, In b (applications Examples.sample_db) ->
                     app_user_id b = Examples.user ->
                     app_created_at b <= app_created_at a)
       /\ matchEmailToApplication Examples.sample_db Examples.user message =
          {| applicationId := Some (app_id a);
             companyName := Some (company_name a);
             confidence := 0.95%Q;
             matchType := domain |}.
Proof.
  intro message.
  apply (@sender_without_at_sign_matches_newest_application
           Examples.sample_db Examples.user message).
  - vm_compute. intuition discriminate.
  - exists (Examples.application 1 Examples.user "Acme Corp" APPLIED 10).
    split; [now left | reflexivity].
Defined.

(** ** The Matcher looks at identity columns only *)

Section Rewritten.

Variables (db db' : Database) (f : Application -> Application).
Hypothesis Hrows : applications db' = map f (applications db).
Hypothesis Hkeeps : keeps_identity f.

Lemma latest_application_ilike_rewritten (userId : uuid)
    (pattern : jsstring) :
  latest_application_ilike db' userId pattern
  = option_map f (latest_application_ilike db userId pattern).
Proof.
  unfold latest_application_ilike. rewrite Hrows.
  rewrite filter_map_kept.
  - rewrite order_desc_map by (intro a; apply Hkeeps).
    now rewrite firstn_map, single_map.
  - intro a. destruct (Hkeeps a) as [_ [-> [-> _]]]. reflexivity.
Qed.

Lemma findApplicationByCompanyName_rewritten (userId : uuid)
    (company : jsstring) :
  findApplicationByCompanyName db' userId company
  = option_map f (findApplicationByCompanyName db userId company).
Proof.
  unfold findApplicationByCompanyName.
  rewrite !latest_application_ilike_rewritten.
  now destruct (latest_application_ilike db userId company).
Qed.

Lemma findApplicationByDomain_rewritten (userId : uuid)
    (senderDomain : jsstring) :
  findApplicationByDomain db' userId senderDomain
  = option_map f (findApplicationByDomain db userId senderDomain).
Proof.
  unfold findApplicationByDomain.
  destruct (existsb _ atsDomains); [reflexivity |].
  apply latest_application_ilike_rewritten.
Qed.

Lemma matchEmailToApplication_rewritten (userId : uuid)
    (email : ParsedEmail) :
  matchEmailToApplication db' userId email
  = matchEmailToApplication db userId email.
Proof.
  unfold matchEmailToApplication.
  rewrite findApplicationByDomain_rewritten.
  assert (Hid : forall a, app_id (f a) = app_id a)
    by (intro a; apply Hkeeps).
  assert (Hname : forall a, company_name (f a) = company_name a)
    by (intro a; apply Hkeeps).
  destruct (extractCompanyFromATS email) as [c |].
  - destruct (truthy c).
    + rewrite findApplicationByCompanyName_rewritten.
      destruct (findApplicationByCompanyName db userId c) as [m |]; simpl.
      * now rewrite Hid.
      * destruct (findApplicationByDomain db userId _) as [d |]; simpl.
        -- now rewrite Hid, Hname.
        -- destruct (extractCompanyFromSubject _) as [e |]; [| reflexivity].
           destruct (truthy e); [| reflexivity].
           rewrite findApplicationByCompanyName_rewritten.
           destruct (findApplicationByCompanyName db userId e); simpl;
             [now rewrite Hid | reflexivity].
    + destruct (findApplicationByDomain db userId _) as [d |]; simpl.
      * now rewrite Hid, Hname.
      * destruct (extractCompanyFromSubject _) as [e |]; [| reflexivity].
        destruct (truthy e); [| reflexivity].
        rewrite findApplicationByCompanyName_rewritten.
        destruct (findApplicationByCompanyName db userId e); simpl;
          [now rewrite Hid | reflexivity].
  - destruct (findApplicationByDomain db userId _) as [d |]; simpl.
    + now rewrite Hid, Hname.
    + destruct (extractCompanyFromSubject _) as [e |]; [| reflexivity].
      destruct (truthy e); [| reflexivity].
      rewrite findApplicationByCompanyName_rewritten.
      destruct (findApplicationByCompanyName db userId e); simpl;
        [now rewrite Hid | reflexivity].
Qed.

Lemma application_by_id_rewritten (id : uuid) :
  application_by_id db' id = option_map f (application_by_id db id).
Proof.
  unfold application_by_id. rewrite Hrows.
  rewrite filter_map_kept.
  - apply single_map.
  - intro a. destruct (Hkeeps a) as [-> _]. reflexivity.
Qed.

End Rewritten.

Lemma keeps_identity_id : keeps_identity (fun a => a).
Proof. intro a. repeat split. Qed.

Lemma keeps_identity_set_status (id : uuid) (new : ApplicationStatus)
    (now : timestamptz) :
  keeps_identity (fun a => if N.eqb (app_id a) id
                           then set_status new now a else a).
Proof. intro a. destruct (N.eqb (app_id a) id); repeat split. Qed.

End MatchingProps.

(* ================================================================== *)
(** * Properties of the Classifier and of the Orchestrator              *)
(* ================================================================== *)

Module PipelineProps.

Import Transitions JS Db Matching Exc Pipeline DbProps TransitionProps.
Local Open Scope N_scope.

Section Runs.

Variable generateObject
  : jsstring -> jsstring -> outcome C.ClassificationResult.
Variable toISOString : Date -> jsstring.
Variable CLASSIFICATION_PROMPT : jsstring.
Variable parseDate : jsstring -> Date.

Local Abbreviation classifyEmail :=
  (C.classifyEmail generateObject toISOString CLASSIFICATION_PROMPT).
Local Abbreviation classified :=
  (C.classified generateObject toISOString CLASSIFICATION_PROMPT).
Local Abbreviation processEmail :=
  (processEmail generateObject toISOString CLASSIFICATION_PROMPT parseDate).
Local Abbreviation recorded :=
  (recorded generateObject toISOString CLASSIFICATION_PROMPT parseDate).

Lemma classifyEmail_returns (email : ParsedEmail) :
  classifyEmail email = Returned (classified email).
Proof.
  unfold C.classifyEmail, C.classified, try_catch, bind.
  now destruct (generateObject _ _).
Qed.

(** ** What each statement leaves alone *)

Lemma create_status_history_frame (updated : list Application)
    (new : ApplicationStatus) (db : Database) :
  applications (create_status_history db updated new) = applications db
  /\ application_emails (create_status_history db updated new)
     = application_emails db
  /\ unmatched_emails (create_status_history db updated new)
     = unmatched_emails db
  /\ clock (create_status_history db updated new) = clock db.
Proof.
  revert db. induction updated as [| a l IH]; intro db; simpl.
  - auto.
  - destruct (status_eqb (app_status a) new); [apply IH |].
    destruct (IH (insert_status_history db (app_id a) (app_status a) new))
      as [H1 [H2 [H3 H4]]].
    rewrite H1, H2, H3, H4. auto.
Qed.

Lemma update_application_status_applications (db : Database) (id : uuid)
    (new : ApplicationStatus) :
  applications (update_application_status db id new)
  = map (fun a => if N.eqb (app_id a) id
                  then set_status new (clock db) a else a)
        (applications db).
Proof.
  unfold update_application_status. cbn [applications].
  now destruct (create_status_history_frame
                  (filter (fun a => N.eqb (app_id a) id) (applications db))
                  new
                  {| applications :=
                       map (fun a => if N.eqb (app_id a) id
                                     then set_status new (clock db) a else a)
                           (applications db);
                     application_emails := application_emails db;
                     unmatched_emails := unmatched_emails db;
                     status_history := status_history db;
                     next_uuid := next_uuid db;
                     clock := clock db |}) as [-> _].
Qed.

Lemma update_application_status_emails (db : Database) (id : uuid)
    (new : ApplicationStatus) :
  application_emails (update_application_status db id new)
  = application_emails db.
Proof.
  unfold update_application_status. cbn [application_emails].
  now destruct (create_status_history_frame
                  (filter (fun a => N.eqb (app_id a) id) (applications db))
                  new
                  {| applications :=
                       map (fun a => if N.eqb (app_id a) id
                                     then set_status new (clock db) a else a)
                           (applications db);
                     application_emails := application_emails db;
                     unmatched_emails := unmatched_emails db;
                     status_history := status_history db;
                     next_uuid := next_uuid db;
                     clock := clock db |}) as [_ [-> _]].
Qed.

Lemma update_latest_history_frame (db : Database) (id : uuid)
    (trigger : TriggerType) (emailId : uuid) :
  applications (update_latest_history db id trigger emailId)
  = applications db
  /\ application_emails (update_latest_history db id trigger emailId)
     = application_emails db.
Proof.
  unfold update_latest_history.
  now destruct (firstn 1 _).
Qed.

(** ** A run, step by step *)

Lemma processEmail_run (event : EmailReceivedEvent) (db : Database) :
  processEmail event db =
  let email := parse_email parseDate (Pipeline.email event) in
  let matchResult := matchEmailToApplication db (userId event) email in
  let classification := classified email in
  let db1 := fst (recorded event db) in
  let emailRecord := snd (recorded event db) in
  match applicationId matchResult with
  | None =>
      (insert_unmatched_email db1 (userId event) (email_id emailRecord)
         (map app_id (getSuggestedApplications db1 (userId event) email 5))
         pending,
       Returned (unmatched (email_id emailRecord)
                   (C.type classification) (C.confidence classification)))
  | Some id =>
      match application_by_id db1 id with
      | None => (db1, Raised PGRST116)
      | Some application =>
          let transition :=
            getStatusTransition (C.type classification)
              (C.confidence classification) (app_status application) in
          (match shouldUpdate transition, newStatus transition with
           | true, Some status =>
               update_latest_history
                 (update_application_status db1 id status) id
                 (getTriggerType (C.confidence classification))
                 (email_id emailRecord)
           | _, _ => db1
           end,
           Returned (processed (email_id emailRecord) id
                       (C.type classification)
                       (C.confidence classification)
                       (shouldUpdate transition)
                       (newStatus transition)
                       (needsReview transition)))
      end
  end.
Proof.
  unfold Pipeline.processEmail, Pipeline.recorded,
    create_email_record, create_unmatched_record, get_application,
    update_application_status_step, await, and_then, query, execute, ret,
    throw.
  rewrite classifyEmail_returns.
  unfold insert_email_record, insert_application_email.
  cbv beta iota zeta. cbn [fst snd].
  destruct (applicationId _) as [id |]; [| reflexivity].
  destruct (application_by_id _ id) as [a |]; [| reflexivity].
  destruct (shouldUpdate _); [| reflexivity].
  destruct (newStatus _); reflexivity.
Qed.

(** Every run, whether it returns or throws, leaves exactly one more
    email record, the one of step 3. *)
Lemma processEmail_emails (event : EmailReceivedEvent) (db : Database) :
  application_emails (fst (processEmail event db))
  = application_emails db ++ [snd (recorded event db)].
Proof.
  rewrite processEmail_run. cbv zeta.
  destruct (applicationId _) as [id |]; [| reflexivity].
  destruct (application_by_id _ id) as [a |]; [| reflexivity].
  cbn [fst].
  destruct (shouldUpdate _); [| reflexivity].
  destruct (newStatus _) as [ns |]; [| reflexivity].
  destruct (update_latest_history_frame
              (update_application_status (fst (recorded event db)) id ns) id
              (getTriggerType (C.confidence (classified
                 (parse_email parseDate (Pipeline.email event)))))
              (email_id (snd (recorded event db)))) as [_ ->].
  now rewrite update_application_status_emails.
Qed.



(** ** Running the pipeline again *)

(** C4, amended.  After a run that returned, a second run for the same
    event, with the same answer of the model, changes no application
    (the status stays as the first run left it) and adds no history row,
    but it adds one more email record: the insert is not keyed on the
    message. *)
Theorem rerun_keeps_status_and_adds_email_record
    (event : EmailReceivedEvent) (db db' : Database) (r : PipelineResult) :
  processEmail event db = (db', Returned r) ->
  exists db'' r',
    processEmail event db' = (db'', Returned r')
    /\ applications db'' = applications db'
    /\ status_history db'' = status_history db'
    /\ exists row,
         application_emails db'' = application_emails db' ++ [row].
Proof.
  intro Hrun. rewrite processEmail_run in Hrun. cbv zeta in Hrun.
  set (message := parse_email parseDate (Pipeline.email event)) in *.
  set (u := userId event) in *.
  (* the applications after the first run, as a rewriting of the rows *)
  assert (Hview : exists f,
            applications db' = map f (applications db)
            /\ keeps_identity f
            /\ forall id a,
                 applicationId (matchEmailToApplication db u message)
                   = Some id ->
                 application_by_id db id = Some a ->
                 shouldUpdate
                   (getStatusTransition (C.type (classified message))
                      (C.confidence (classified message))
                      (app_status (f a))) = false).
  { destruct (applicationId (matchEmailToApplication db u message))
      as [id |] eqn:Hm.
    - change (application_by_id (fst (recorded event db)) id)
        with (application_by_id db id) in Hrun.
      destruct (application_by_id db id) as [a |] eqn:Ha;
        [| discriminate Hrun].
      cbv zeta in Hrun.
      destruct (shouldUpdate _) eqn:Hup.
      + destruct (applied_update_facts _ _ _ Hup)
          as [t [Hmap [Hnew _]]].
        rewrite Hnew in Hrun.
        apply (f_equal fst) in Hrun. cbn [fst] in Hrun. rename Hrun into Hdb.
        exists (fun a => if N.eqb (app_id a) id
                         then set_status t (clock (fst (recorded event db))) a
                         else a).
        split; [| split].
        * rewrite <- Hdb.
          destruct (update_latest_history_frame
                      (update_application_status (fst (recorded event db))
                         id t) id
                      (getTriggerType (C.confidence (classified message)))
                      (email_id (snd (recorded event db)))) as [-> _].
          rewrite update_application_status_applications. reflexivity.
        * apply MatchingProps.keeps_identity_set_status.
        * intros id' a' Hid Ha'. injection Hid as <-.
          rewrite Ha in Ha'. injection Ha' as <-.
          assert (Hhit : N.eqb (app_id a) id = true).
          { unfold application_by_id in Ha.
            assert (In a (filter (fun a => N.eqb (app_id a) id)
                            (applications db))).
            { destruct (filter _ (applications db)) as [| x [| y l]];
                try discriminate Ha.
              injection Ha as ->. now left. }
            apply filter_In in H. apply H. }
          rewrite Hhit. cbn [app_status set_status].
          now apply no_second_update.
      + exists (fun a => a). split; [| split].
        * rewrite map_id.
          apply (f_equal fst) in Hrun. cbn [fst] in Hrun.
          now rewrite <- Hrun.
        * apply MatchingProps.keeps_identity_id.
        * intros id' a' Hid Ha'. injection Hid as <-.
          rewrite Ha in Ha'. now injection Ha' as <-.
    - apply (f_equal fst) in Hrun. cbn [fst] in Hrun.
      exists (fun a => a). split; [| split].
      + rewrite map_id. now rewrite <- Hrun.
      + apply MatchingProps.keeps_identity_id.
      + intros id a Hid. discriminate Hid. }
  destruct Hview as [f [Hrows [Hkeeps Hstay]]].
  (* the first run returned: the matched application is there *)
  assert (Hthere : forall id,
            applicationId (matchEmailToApplication db u message) = Some id ->
            exists a, application_by_id db id = Some a).
  { intros id Hm. rewrite Hm in Hrun.
    change (application_by_id (fst (recorded event db)) id)
      with (application_by_id db id) in Hrun.
    destruct (application_by_id db id) as [a |]; [eauto | discriminate]. }
  clear Hrun.
  (* the second run *)
  rewrite processEmail_run. cbv zeta. fold message. fold u.
  rewrite (@MatchingProps.matchEmailToApplication_rewritten
             db db' f Hrows Hkeeps).
  destruct (applicationId (matchEmailToApplication db u message))
    as [id |] eqn:Hm.
  - destruct (Hthere id eq_refl) as [a Ha].
    change (application_by_id (fst (recorded event db')) id)
      with (application_by_id db' id).
    rewrite (@MatchingProps.application_by_id_rewritten
               db db' f Hrows Hkeeps), Ha.
    cbn [option_map]. cbv zeta.
    rewrite (Hstay id a eq_refl Ha).
    do 2 eexists. split; [reflexivity |].
    split; [reflexivity |]. split; [reflexivity |].
    eexists. reflexivity.
  - do 2 eexists. split; [reflexivity |].
    split; [reflexivity |]. split; [reflexivity |].
    eexists. reflexivity.
Qed.

(** ** The history stays in the past *)

Lemma create_status_history_upto (updated : list Application)
    (new : ApplicationStatus) (db : Database) :
  (forall h, In h (status_history db) ->
     history_id h < next_uuid db /\ history_created_at h <= clock db) ->
  forall h, In h (status_history (create_status_history db updated new)) ->
    history_id h < next_uuid (create_status_history db updated new)
    /\ history_created_at h <= clock (create_status_history db updated new).
Proof.
  revert db. induction updated as [| a l IH]; intros db Hdb; simpl.
  - exact Hdb.
  - destruct (status_eqb (app_status a) new); [now apply IH |].
    apply IH. intros h Hin. cbn [status_history insert_status_history] in Hin.
    cbn [next_uuid clock insert_status_history].
    apply in_app_or in Hin. destruct Hin as [Hin | [<- | []]].
    + destruct (Hdb h Hin). lia.
    + cbn [history_id history_created_at]. lia.
Qed.

Lemma update_application_status_past (db : Database) (id : uuid)
    (new : ApplicationStatus) :
  history_in_the_past db ->
  history_in_the_past (update_application_status db id new).
Proof.
  intros Hdb h Hin. unfold update_application_status in *.
  cbn [status_history next_uuid clock] in *.
  apply create_status_history_upto in Hin.
  - destruct Hin. lia.
  - intros h' Hin'. cbn [status_history next_uuid clock] in *.
    destruct (Hdb h' Hin'). lia.
Qed.

Lemma update_latest_history_past (db : Database) (id : uuid)
    (trigger : TriggerType) (emailId : uuid) :
  history_in_the_past db ->
  history_in_the_past (update_latest_history db id trigger emailId).
Proof.
  intros Hdb h Hin. unfold update_latest_history in *.
  destruct (firstn 1 _) as [| newest _]; [now apply Hdb |].
  cbn [status_history next_uuid clock] in *.
  apply in_map_iff in Hin. destruct Hin as [h' [<- Hin']].
  destruct (Hdb h' Hin').
  destruct (N.eqb (history_id h') (history_id newest));
    cbn [set_trigger history_id history_created_at]; lia.
Qed.

(** A run keeps the history in the past, whether it returns or throws. *)
Lemma processEmail_keeps_history_in_the_past
    (event : EmailReceivedEvent) (db : Database) :
  history_in_the_past db ->
  history_in_the_past (fst (processEmail event db)).
Proof.
  intro Hdb.
  assert (Hrec : history_in_the_past (fst (recorded event db))).
  { intros h Hin. destruct (Hdb h Hin).
    change (next_uuid (fst (recorded event db))) with (N.succ (next_uuid db)).
    change (clock (fst (recorded event db))) with (N.succ (clock db)).
    lia. }
  rewrite processEmail_run. cbv zeta.
  destruct (applicationId _) as [id |].
  - destruct (application_by_id _ id) as [a |]; [| exact Hrec].
    cbn [fst]. destruct (shouldUpdate _); [| exact Hrec].
    destruct (newStatus _) as [ns |]; [| exact Hrec].
    now apply update_latest_history_past, update_application_status_past.
  - cbn [fst]. intros h Hin.
    destruct (Hrec h Hin).
    cbn [next_uuid clock insert_unmatched_email]. lia.
Qed.

(** ** The write of step 7 *)

Lemma update_application_status_history (db : Database) (id : uuid)
    (new : ApplicationStatus) (a : Application) :
  application_by_id db id = Some a ->
  app_status a <> new ->
  status_history (update_application_status db id new)
  = status_history db ++
    [{| history_id := next_uuid db;
        history_application_id := app_id a;
        from_status := Some (app_status a);
        to_status := new;
        trigger_type := manual;
        trigger_email_id := None;
        history_created_at := clock db |}].
Proof.
  intros Ha Hchange. unfold application_by_id in Ha.
  apply single_some in Ha.
  unfold update_application_status. rewrite Ha.
  cbn [create_status_history].
  destruct (status_eqb (app_status a) new) eqn:E.
  - apply status_eqb_eq in E. contradiction.
  - reflexivity.
Qed.

Lemma matched_row_has_the_id (db : Database) (id : uuid) (a : Application) :
  application_by_id db id = Some a -> app_id a = id.
Proof.
  intro Ha. unfold application_by_id in Ha. apply single_some in Ha.
  assert (Hin : In a (filter (fun a => N.eqb (app_id a) id)
                        (applications db)))
    by (rewrite Ha; now left).
  apply filter_In in Hin. now apply N.eqb_eq.
Qed.

(** C5, amended.  The status-update step writes the new status to the
    row selected by its identifier alone: whatever status the row has
    when the step runs, it has the new status afterwards, and the step
    returns. *)
Theorem status_update_is_unconditional
    (id : uuid) (status : ApplicationStatus)
    (classification : C.ClassificationResult) (emailRecord : EmailRecord)
    (db : Database) (current : Application) :
  application_by_id db id = Some current ->
  snd (update_application_status_step id status classification emailRecord db)
    = Returned tt
  /\ exists written,
       application_by_id
         (fst (update_application_status_step id status classification
                 emailRecord db)) id = Some written
       /\ app_status written = status.
Proof.
  intro Hcur. split; [reflexivity |].
  unfold update_application_status_step, and_then, execute. cbn [fst].
  set (f := fun a => if N.eqb (app_id a) id
                     then set_status status (clock db) a else a).
  assert (Hrows :
    applications
      (update_latest_history (update_application_status db id status) id
         (getTriggerType (C.confidence classification))
         (email_id emailRecord))
    = map f (applications db)).
  { destruct (update_latest_history_frame
                (update_application_status db id status) id
                (getTriggerType (C.confidence classification))
                (email_id emailRecord)) as [-> _].
    apply update_application_status_applications. }
  exists (f current). split.
  - rewrite (@MatchingProps.application_by_id_rewritten db _ f Hrows
               (MatchingProps.keeps_identity_set_status id status (clock db))).
    now rewrite Hcur.
  - unfold f. apply matched_row_has_the_id in Hcur.
    rewrite Hcur, N.eqb_refl. reflexivity.
Qed.


End Runs.

(** ** The properties on the sample data *)

Import Examples.


(** C4, as stated, fails: the second run for the same message adds a
    second email record. *)
Lemma rerun_adds_a_second_email_record :
  let model := answering INTERVIEW_REQUEST 0.95%Q in
  let first := run model interview_at_stripe sample_db in
  let second := run model interview_at_stripe (fst first) in
  snd first
  = Returned (processed 100 2 INTERVIEW_REQUEST 0.95%Q true
                (Some INTERVIEWING) false)
  /\ snd second
     = Returned (processed 102 2 INTERVIEW_REQUEST 0.95%Q false None true)
  /\ length (application_emails sample_db) = 0%nat
  /\ length (application_emails (fst first)) = 1%nat
  /\ length (application_emails (fst second)) = 2%nat.
Proof. vm_compute. repeat split. Qed.

Lemma rerun_keeps_status_and_adds_email_record_witness :
  let model := answering INTERVIEW_REQUEST 0.95%Q in
  let first := run model interview_at_stripe sample_db in
  exists db'' r',
    run model interview_at_stripe (fst first) = (db'', Returned r')
    /\ applications db'' = applications (fst first)
    /\ status_history db'' = status_history (fst first)
    /\ exists row,
         application_emails db''
         = application_emails (fst first) ++ [row].
Proof.
  intros model first.
  apply (@rerun_keeps_status_and_adds_email_record
           model sample_iso sample_prompt sample_parse
           interview_at_stripe sample_db (fst first)
           (processed 100 2 INTERVIEW_REQUEST 0.95%Q true
              (Some INTERVIEWING) false)).
  vm_compute. reflexivity.
Defined.

(** C5, as stated, fails: the user withdraws after step 5 has read
    [APPLIED]; step 7 still writes [INTERVIEWING] over [WITHDRAWN], and the
    decision is not flagged for review. *)
Lemma status_update_overwrites_concurrent_edit :
  let out := run_with_concurrent_edit sample_db in
  (exists transition,
     snd out = Returned (APPLIED, transition)
     /\ shouldUpdate transition = true
     /\ needsReview transition = false)
  /\ option_map app_status (application_by_id (fst out) 2)
     = Some INTERVIEWING
  /\ map (fun h => (from_status h, to_status h, trigger_type h))
         (status_history (fst out))
     = [(Some APPLIED, WITHDRAWN, manual);
        (Some WITHDRAWN, INTERVIEWING, email_auto)].
Proof.
  vm_compute. split; [| split; reflexivity].
  eexists. split; [reflexivity |]. split; reflexivity.
Qed.

Lemma status_update_is_unconditional_witness :
  let edited := update_application_status sample_db 2 WITHDRAWN in
  let record := snd (recorded (answering INTERVIEW_REQUEST 0.95%Q)
                       sample_iso sample_prompt sample_parse
                       interview_at_stripe sample_db) in
  exists written,
    application_by_id
      (fst (update_application_status_step 2 INTERVIEWING stripe_interview
              record edited)) 2 = Some written
    /\ app_status written = INTERVIEWING.
Proof.
  intros edited record.
  apply (@status_update_is_unconditional 2 INTERVIEWING stripe_interview
           record edited
           (set_status WITHDRAWN 50 (application 2 user "Stripe" APPLIED 20))).
  vm_compute. reflexivity.
Defined.



End PipelineProps.

(* ================================================================== *)
(** * More properties of the Transition Engine                          *)
(* ================================================================== *)

Module TransitionExtras.

Import Transitions Significance EmailSteps TransitionProps.
Local Open Scope Q_scope.

(** The engine updates once the edge is legal and the confidence is not
    below 0.7. *)
Lemma legal_edge_not_below_updates
    (classification : EmailClassification) (confidence : number)
    (currentStatus targetStatus : ApplicationStatus) :
  CLASSIFICATION_TO_STATUS classification = Some targetStatus ->
  In targetStatus (VALID_TRANSITIONS currentStatus) ->
  ~ confidence < 0.7 ->
  shouldUpdate (getStatusTransition classification confidence currentStatus)
    = true
  /\ newStatus (getStatusTransition classification confidence currentStatus)
     = Some targetStatus.
Proof.
  intros Hmap Hin Hnot.
  pose proof (getStatusTransition_cases classification confidence
                currentStatus) as H.
  cbv zeta in H. rewrite Hmap in H.
  apply includes_status_In in Hin. rewrite Hin in H.
  destruct (js_lt confidence FLAG_FOR_REVIEW) eqn:Hlt.
  - apply js_lt_true in Hlt. now elim Hnot.
  - destruct H as [Hup [Hnew _]]. now split.
Qed.

(** X1.  The engine updates exactly when the category maps to a status
    that is a legal next status and the confidence is not below 0.7; the
    new status is then the status the category maps to. *)
Theorem update_exactly_on_confident_legal_edge
    (classification : EmailClassification) (confidence : number)
    (currentStatus : ApplicationStatus) :
  (shouldUpdate (getStatusTransition classification confidence currentStatus)
     = true
   <-> exists targetStatus,
         CLASSIFICATION_TO_STATUS classification = Some targetStatus
         /\ In targetStatus (VALID_TRANSITIONS currentStatus)
         /\ ~ confidence < 0.7)
  /\ (forall targetStatus,
        CLASSIFICATION_TO_STATUS classification = Some targetStatus ->
        shouldUpdate (getStatusTransition classification confidence
                        currentStatus) = true ->
        newStatus (getStatusTransition classification confidence
                     currentStatus) = Some targetStatus).
Proof.
  split; [split |].
  - intro Hup. destruct (applied_update_facts _ _ _ Hup)
      as [t [Hmap [_ [Hin [Hge _]]]]].
    exists t. split; [exact Hmap | split; [exact Hin |]].
    intro Hlt. exact (Qlt_not_le _ _ Hlt Hge).
  - intros [t [Hmap [Hin Hnot]]].
    apply (legal_edge_not_below_updates _ _ Hmap Hin Hnot).
  - intros t Hmap Hup.
    destruct (applied_update_facts _ _ _ Hup) as [t' [Hmap' [Hnew _]]].
    rewrite Hmap in Hmap'. injection Hmap' as <-. exact Hnew.
Qed.

Lemma email_step_target (s s' : ApplicationStatus) :
  email_step s s' ->
  In s' (VALID_TRANSITIONS s)
  /\ In s' [SCREENING; INTERVIEWING; OFFER; REJECTED].
Proof.
  intros [c [q [Hup Hnew]]].
  destruct (applied_update_facts _ _ _ Hup) as [t [Hmap [Hnew' [Hin _]]]].
  rewrite Hnew' in Hnew. injection Hnew as <-.
  split; [exact Hin |].
  destruct c; simpl in Hmap; try discriminate Hmap;
    injection Hmap as <-; simpl; tauto.
Qed.

Lemma email_step_rank (s s' : ApplicationStatus) :
  email_step s s' ->
  (email_rank s < email_rank s')%nat /\ (email_rank s' <= 4)%nat.
Proof.
  intro H. destruct (email_step_target H) as [Hlegal Htarget].
  simpl in Htarget.
  destruct Htarget as [<- | [<- | [<- | [<- | []]]]];
    destruct s; simpl in Hlegal; simpl;
    try lia; intuition discriminate.
Qed.

(** X2.  The updates that emails apply never cycle: each one moves the
    application to screening, interviewing, offer or rejected and
    strictly further along saved/applied/ghosted, screening, interviewing,
    offer, rejected.  So emails alone change the status of an application
    at most four times, and four times is possible. *)
Theorem email_updates_never_cycle :
  (forall s s', email_step s s' ->
     (email_rank s < email_rank s')%nat
     /\ In s' [SCREENING; INTERVIEWING; OFFER; REJECTED])
  /\ (forall s l, email_chain s l -> (length l <= 4)%nat)
  /\ email_chain APPLIED [SCREENING; INTERVIEWING; OFFER; REJECTED].
Proof.
  split; [| split].
  - intros s s' H. split.
    + apply (email_step_rank H).
    + apply (email_step_target H).
  - assert (Hbound : forall l s,
              email_chain s l -> (email_rank s + length l <= 4)%nat).
    { induction l as [| s' l IH]; intros s Hchain; simpl in *.
      - destruct s; simpl; lia.
      - destruct Hchain as [Hstep Hrest].
        specialize (IH s' Hrest).
        destruct (email_step_rank Hstep). lia. }
    intros s l Hchain. specialize (Hbound l s Hchain). lia.
  - simpl. repeat split.
    + exists SCREENING_INVITE, 0.95. now split.
    + exists INTERVIEW_REQUEST, 0.95. now split.
    + exists C_OFFER, 0.95. now split.
    + exists REJECTION, 0.95. now split.
Qed.

(** X3.  [isSignificantClassification] accepts exactly the categories that
    map to a status, but for the assessment request: that category is not
    accepted, yet it maps to screening, and the engine updates an
    application to screening for it whenever screening is a legal next
    status and the confidence is not below 0.7. *)
Theorem significant_iff_mapped_but_assessment :
  (forall type,
     isSignificantClassification type = true
     <-> (CLASSIFICATION_TO_STATUS type <> None
          /\ type <> ASSESSMENT_REQUEST))
  /\ isSignificantClassification ASSESSMENT_REQUEST = false
  /\ CLASSIFICATION_TO_STATUS ASSESSMENT_REQUEST = Some SCREENING
  /\ (forall confidence currentStatus,
        In SCREENING (VALID_TRANSITIONS currentStatus) ->
        ~ confidence < 0.7 ->
        shouldUpdate (getStatusTransition ASSESSMENT_REQUEST confidence
                        currentStatus) = true
        /\ newStatus (getStatusTransition ASSESSMENT_REQUEST confidence
                        currentStatus) = Some SCREENING).
Proof.
  split; [| split; [reflexivity | split; [reflexivity |]]].
  - intro type.
    destruct type; simpl; split; intro H;
      try reflexivity; try discriminate H;
      try (split; discriminate);
      destruct H as [H1 H2]; try (now elim H1); try (now elim H2).
  - intros confidence currentStatus Hin Hnot.
    now apply (@legal_edge_not_below_updates ASSESSMENT_REQUEST confidence
                 currentStatus SCREENING).
Qed.

End TransitionExtras.

(* ================================================================== *)
(** * Properties of the regular expressions                             *)
(* ================================================================== *)

Module RegexProps.

Import JS JSFacts.
Local Open Scope N_scope.

Lemma is_suffix_refl (s : jsstring) : is_suffix s s.
Proof. now exists []. Qed.

Lemma is_suffix_trans (a b c : jsstring) :
  is_suffix a b -> is_suffix b c -> is_suffix a c.
Proof.
  intros [p ->] [q ->]. exists (q ++ p). now rewrite app_assoc.
Qed.

Lemma is_suffix_tail (x : char) (t : jsstring) : is_suffix t (x :: t).
Proof. now exists [x]. Qed.

Lemma is_suffix_length (a b : jsstring) :
  is_suffix a b -> (length a <= length b)%nat.
Proof. intros [p ->]. rewrite length_app. lia. Qed.

Lemma occurs_in_trans (a b c : jsstring) :
  occurs_in a b -> occurs_in b c -> occurs_in a c.
Proof.
  intros [p [q ->]] [p' [q' ->]]. exists (p' ++ p), (q ++ q').
  now rewrite <- !app_assoc.
Qed.

(** What lies between two positions of the input occurs in it. *)
Lemma between_positions (w a b : jsstring) :
  is_suffix a w -> is_suffix b a ->
  occurs_in (firstn (length a - length b) a) w.
Proof.
  intros [p ->] [q ->].
  rewrite length_app, Nat.add_sub, firstn_app, Nat.sub_diag, firstn_all.
  cbn [firstn]. rewrite app_nil_r. now exists p, b.
Qed.

Section Engine.

Variable ignoreCase : bool.
Variable w : jsstring.

Lemma take1_on (p : char -> bool) (st : mstate)
    (k : mstate -> option mstate) (res : mstate) :
  state_on w st ->
  take1 p st k = Some res ->
  exists st', state_on w st' /\ is_suffix (rest st') (rest st)
              /\ k st' = Some res.
Proof.
  intros [Hs Hc]. unfold take1.
  destruct (rest st) as [| x t] eqn:E; [discriminate |].
  destruct (p x); [| discriminate]. intro Hk.
  eexists. split; [| split; [| exact Hk]].
  - split; cbn [rest cap]; [| exact Hc].
    apply is_suffix_trans with (x :: t);
      [apply is_suffix_tail | exact Hs].
  - cbn [rest]. apply is_suffix_tail.
Qed.

(** A match ends at a later position of the same input, where what
    follows the pattern has succeeded. *)
Lemma rmatch_on (r : regex) :
  forall (st : mstate) (k : mstate -> option mstate) (res : mstate),
    state_on w st ->
    rmatch ignoreCase r st k = Some res ->
    exists st', state_on w st' /\ is_suffix (rest st') (rest st)
                /\ k st' = Some res.
Proof.
  induction r as [c | cs | cs | | | | | | | r1 IH1 r2 IH2 | r1 IH1 r2 IH2
                 | greedy r1 IH1 | r1 IH1];
    intros st k res Hst Hm; cbn [rmatch] in Hm.
  - eapply take1_on; eassumption.
  - eapply take1_on; eassumption.
  - eapply take1_on; eassumption.
  - eapply take1_on; eassumption.
  - eapply take1_on; eassumption.
  - destruct (prev st); [discriminate |].
    exists st. split; [exact Hst | split; [apply is_suffix_refl | exact Hm]].
  - destruct (rest st) eqn:E; [| discriminate].
    exists st. rewrite E.
    split; [exact Hst | split; [apply is_suffix_refl | exact Hm]].
  - destruct (xorb _ _); [| discriminate].
    exists st. split; [exact Hst | split; [apply is_suffix_refl | exact Hm]].
  - exists st. split; [exact Hst | split; [apply is_suffix_refl | exact Hm]].
  - destruct (IH1 _ _ _ Hst Hm) as [st1 [Hst1 [Hsuf1 Hm2]]].
    destruct (IH2 _ _ _ Hst1 Hm2) as [st2 [Hst2 [Hsuf2 Hk]]].
    exists st2. split; [exact Hst2 | split; [| exact Hk]].
    now apply is_suffix_trans with (rest st1).
  - unfold orelse in Hm.
    destruct (rmatch ignoreCase r1 st k) as [res1 |] eqn:E1.
    + injection Hm as <-. now apply IH1.
    + now apply IH2.
  - change (star_loop ignoreCase greedy r1 k (length (rest st)) st = Some res)
      in Hm.
    revert Hm. generalize (length (rest st)) as fuel. intro fuel.
    revert st Hst res.
    induction fuel as [| fuel IHf]; intros st Hst res Hm.
    + exists st. split; [exact Hst | split; [apply is_suffix_refl | exact Hm]].
    + cbn [star_loop] in Hm. cbv zeta in Hm.
      assert (Hagain : forall res',
                rmatch ignoreCase r1 st
                  (fun st' =>
                     if (length (rest st') <? length (rest st))%nat
                     then star_loop ignoreCase greedy r1 k fuel st'
                     else None) = Some res' ->
                exists st', state_on w st' /\ is_suffix (rest st') (rest st)
                            /\ k st' = Some res').
      { intros res' Ha.
        destruct (IH1 _ _ _ Hst Ha) as [st1 [Hst1 [Hsuf1 Hl]]].
        destruct (length (rest st1) <? length (rest st))%nat;
          [| discriminate].
        destruct (IHf st1 Hst1 res' Hl) as [st2 [Hst2 [Hsuf2 Hk]]].
        exists st2. split; [exact Hst2 | split; [| exact Hk]].
        now apply is_suffix_trans with (rest st1). }
      assert (Hhere : forall res', k st = Some res' ->
                exists st', state_on w st' /\ is_suffix (rest st') (rest st)
                            /\ k st' = Some res').
      { intros res' Hk. exists st.
        split; [exact Hst | split; [apply is_suffix_refl | exact Hk]]. }
      unfold orelse in Hm. destruct greedy.
      * destruct (rmatch ignoreCase r1 st _) as [res1 |] eqn:E1.
        -- injection Hm as <-. now apply Hagain.
        -- now apply Hhere.
      * destruct (k st) as [res1 |] eqn:E1.
        -- injection Hm as <-. now apply Hhere.
        -- now apply Hagain.
  - destruct (IH1 _ _ _ Hst Hm) as [st1 [Hst1 [Hsuf1 Hk]]].
    eexists. split; [| split; [| exact Hk]].
    + destruct Hst as [Hs _]. destruct Hst1 as [Hs1 _].
      split; cbn [rest cap]; [exact Hs1 |].
      intros g Hg. injection Hg as <-.
      now apply between_positions.
    + cbn [rest]. exact Hsuf1.
Qed.

(** What [search] finds: group 1, when it took part, occurs in the
    input, and the input goes on after the match. *)
Lemma search_on (r : regex) (s : jsstring) :
  is_suffix s w ->
  forall (before : option char) (index : nat) (m : rmatch_result),
    search ignoreCase r before s index = Some m ->
    is_suffix (m_rest m) s
    /\ forall g, m_1 m = Some g -> occurs_in g w.
Proof.
  induction s as [| x s IH]; intros Hs before index m; cbn [search].
  - destruct (rmatch ignoreCase r _ Some) as [st' |] eqn:E; [| discriminate].
    intro H. injection H as <-. cbn [m_rest m_1].
    destruct (@rmatch_on r {| prev := before; rest := []; cap := None |}
                Some st') as [st2 [[_ Hc] [Hsuf Hk]]]; [| exact E |].
    { split; cbn [rest cap]; [exact Hs | discriminate]. }
    injection Hk as ->. split; assumption.
  - destruct (rmatch ignoreCase r _ Some) as [st' |] eqn:E.
    + intro H. injection H as <-. cbn [m_rest m_1].
      destruct (@rmatch_on r
                  {| prev := before; rest := x :: s; cap := None |}
                  Some st') as [st2 [[_ Hc] [Hsuf Hk]]]; [| exact E |].
      { split; cbn [rest cap]; [exact Hs | discriminate]. }
      injection Hk as ->. split; assumption.
    + intro H.
      assert (Hs' : is_suffix s w).
      { apply is_suffix_trans with (x :: s);
          [apply is_suffix_tail | exact Hs]. }
      destruct (IH Hs' _ _ _ H) as [Hr Hg]. split; [| exact Hg].
      apply is_suffix_trans with s; [exact Hr | apply is_suffix_tail].
Qed.

End Engine.

(** Group 1 of a match occurs in the string that was matched. *)
Lemma match1_occurs (ignoreCase : bool) (r : regex) (s g : jsstring) :
  match1 ignoreCase r s = Some g -> occurs_in g s.
Proof.
  unfold match1, exec.
  destruct (search ignoreCase r None s 0) as [m |] eqn:E; [| discriminate].
  intro H. injection H as <-.
  destruct (@search_on ignoreCase s r s (is_suffix_refl s) None 0%nat m E)
    as [_ Hg].
  destruct (m_1 m) as [g |]; [now apply Hg |].
  now exists [], s.
Qed.

(** ** [includes] and [trim] *)

Lemma startsWith_app (g post : jsstring) : startsWith (g ++ post) g = true.
Proof.
  induction g as [| c g IH]; [now destruct post |].
  cbn [app startsWith]. unfold char_eqb. now rewrite N.eqb_refl, IH.
Qed.

Lemma occurs_includes (g s : jsstring) :
  occurs_in g s -> includes s g = true.
Proof.
  intros [pre [post ->]]. induction pre as [| x pre IH].
  - cbn [app]. destruct (g ++ post) eqn:E; cbn [includes];
      rewrite <- E, startsWith_app; reflexivity.
  - cbn [app includes]. rewrite IH. apply orb_true_r.
Qed.

Lemma trimStart_is_suffix (s : jsstring) : is_suffix (trimStart s) s.
Proof.
  induction s as [| c s [pre IH]]; [now exists [] |].
  cbn [trimStart]. destruct (isSpace c).
  - exists (c :: pre). cbn [app]. now rewrite <- IH.
  - now exists [].
Qed.

Lemma trim_occurs (s : jsstring) : occurs_in (trim s) s.
Proof.
  unfold trim, trimEnd.
  destruct (trimStart_is_suffix s) as [pre Hpre].
  destruct (trimStart_is_suffix (rev (trimStart s))) as [post Hpost].
  exists pre, (rev post).
  rewrite <- rev_app_distr, <- Hpost, rev_involutive. exact Hpre.
Qed.

(** ** Patterns that read at least one character *)

Section Consuming.

Variable ignoreCase : bool.
Variable w : jsstring.

Lemma rmatch_consumes (r : regex) :
  consumes r = true ->
  forall (st : mstate) (k : mstate -> option mstate) (res : mstate),
    state_on w st ->
    rmatch ignoreCase r st k = Some res ->
    exists st', state_on w st'
                /\ is_suffix (rest st') (rest st)
                /\ (length (rest st') < length (rest st))%nat
                /\ k st' = Some res.
Proof.
  assert (Htake : forall p st k res,
            state_on w st -> take1 p st k = Some res ->
            exists st', state_on w st'
                        /\ is_suffix (rest st') (rest st)
                        /\ (length (rest st') < length (rest st))%nat
                        /\ k st' = Some res).
  { intros p st k res [Hs Hc]. unfold take1.
    destruct (rest st) as [| x t] eqn:E; [discriminate |].
    destruct (p x); [| discriminate]. intro Hk.
    eexists. split; [| split; [| split; [| exact Hk]]].
    - split; cbn [rest cap]; [| exact Hc].
      apply is_suffix_trans with (x :: t);
        [apply is_suffix_tail | exact Hs].
    - cbn [rest]. apply is_suffix_tail.
    - cbn [rest length]. lia. }
  induction r as [c | cs | cs | | | | | | | r1 IH1 r2 IH2 | r1 IH1 r2 IH2
                 | greedy r1 IH1 | r1 IH1];
    cbn [consumes]; intros Hcons st k res Hst Hm;
    try discriminate Hcons; cbn [rmatch] in Hm;
    try (eapply Htake; eassumption).
  - destruct (consumes r1) eqn:E1.
    + destruct (IH1 eq_refl _ _ _ Hst Hm) as [st1 [Hst1 [Hsuf1 [Hlt Hm2]]]].
      destruct (@rmatch_on ignoreCase w r2 st1 k res Hst1 Hm2)
        as [st2 [Hst2 [Hsuf Hk]]].
      exists st2. split; [exact Hst2 |].
      split; [now apply is_suffix_trans with (rest st1) |].
      split; [| exact Hk].
      apply is_suffix_length in Hsuf. lia.
    + cbn [orb] in Hcons.
      destruct (@rmatch_on ignoreCase w r1 st _ res Hst Hm)
        as [st1 [Hst1 [Hsuf Hm2]]].
      destruct (IH2 Hcons _ _ _ Hst1 Hm2) as [st2 [Hst2 [Hsuf2 [Hlt Hk]]]].
      exists st2. split; [exact Hst2 |].
      split; [now apply is_suffix_trans with (rest st1) |].
      split; [| exact Hk].
      apply is_suffix_length in Hsuf. lia.
  - apply andb_true_iff in Hcons. destruct Hcons as [H1 H2].
    unfold orelse in Hm.
    destruct (rmatch ignoreCase r1 st k) as [res1 |] eqn:E1.
    + injection Hm as <-. now apply IH1.
    + now apply IH2.
  - destruct (IH1 Hcons _ _ _ Hst Hm) as [st1 [Hst1 [Hsuf1 [Hlt Hk]]]].
    eexists. split; [| split; [| split; [| exact Hk]]].
    + destruct Hst as [Hs _]. destruct Hst1 as [Hs1 _].
      split; cbn [rest cap]; [exact Hs1 |].
      intros g Hg. injection Hg as <-.
      now apply between_positions.
    + cbn [rest]. exact Hsuf1.
    + cbn [rest]. exact Hlt.
Qed.

End Consuming.

(** ** [replace] with the [g] flag *)

Lemma Forall_suffix (P : char -> Prop) (t s : jsstring) :
  is_suffix t s -> Forall P s -> Forall P t.
Proof. intros [pre ->] H. now apply Forall_app in H. Qed.

Lemma Forall_occurs (P : char -> Prop) (g s : jsstring) :
  occurs_in g s -> Forall P s -> Forall P g.
Proof.
  intros [pre [post ->]] H.
  apply Forall_app in H. destruct H as [_ H].
  now apply Forall_app in H.
Qed.

Lemma Forall_firstn_of (P : char -> Prop) (n : nat) (s : jsstring) :
  Forall P s -> Forall P (firstn n s).
Proof.
  intro H. rewrite <- (firstn_skipn n s) in H. now apply Forall_app in H.
Qed.

Section Replacing.

Variable ignoreCase : bool.
Variable r : regex.

Lemma search_rest (s : jsstring) (before : option char) (index : nat)
    (m : rmatch_result) :
  search ignoreCase r before s index = Some m -> is_suffix (m_rest m) s.
Proof.
  intro H.
  now destruct (@search_on ignoreCase s r s (is_suffix_refl s)
                  before index m H).
Qed.

(** What the replacement and the input both are, the result is. *)
Lemma replace_from_keeps (P : char -> Prop) (by_ : jsstring) :
  Forall P by_ ->
  forall (fuel : nat) (before : option char) (s : jsstring),
    Forall P s -> Forall P (replace_from ignoreCase fuel r by_ before s).
Proof.
  intros Hby. induction fuel as [| fuel IH]; intros before s Hs;
    cbn [replace_from]; [exact Hs |].
  destruct (search ignoreCase r before s 0) as [m |] eqn:E; [| exact Hs].
  pose proof (Forall_suffix (search_rest _ _ _ E) Hs) as Hrest.
  apply Forall_app. split; [now apply Forall_firstn_of |].
  apply Forall_app. split; [exact Hby |].
  destruct (m_0 m) as [| y ys].
  - destruct (m_rest m) as [| c s']; [constructor |].
    inversion Hrest; subst. constructor; [assumption | now apply IH].
  - now apply IH.
Qed.

Hypothesis Hconsumes : consumes r = true.

(** A match of a pattern that reads a character is not empty, and the
    input that is left is shorter. *)
Lemma search_consumes (s : jsstring) :
  forall (before : option char) (index : nat) (m : rmatch_result),
    search ignoreCase r before s index = Some m ->
    m_0 m <> [] /\ (length (m_rest m) < length s)%nat.
Proof.
  induction s as [| x s IH]; intros before index m; cbn [search].
  - destruct (rmatch ignoreCase r _ Some) as [st' |] eqn:E; [| discriminate].
    destruct (@rmatch_consumes ignoreCase [] r Hconsumes
                {| prev := before; rest := []; cap := None |} Some st')
      as [st2 [_ [_ [Hlt _]]]]; [| exact E |].
    + split; cbn [rest cap]; [apply is_suffix_refl | discriminate].
    + cbn [rest length] in Hlt. lia.
  - destruct (rmatch ignoreCase r _ Some) as [st' |] eqn:E.
    + intro H. injection H as <-. cbn [m_0 m_rest].
      destruct (@rmatch_consumes ignoreCase (x :: s) r Hconsumes
                  {| prev := before; rest := x :: s; cap := None |} Some st')
        as [st2 [_ [_ [Hlt Hk]]]]; [| exact E |].
      { split; cbn [rest cap]; [apply is_suffix_refl | discriminate]. }
      injection Hk as ->. cbn [rest] in Hlt. split; [| exact Hlt].
      match goal with
      | |- firstn ?n _ <> [] => destruct n eqn:En
      end.
      * exfalso. change (length (x :: s)) with (S (length s)) in Hlt.
        destruct (length (rest st')) as [| l]; [discriminate En | lia].
      * cbn [firstn]. discriminate.
    + intro H. destruct (IH _ _ _ H) as [H0 Hlt].
      split; [exact H0 |]. cbn [length]. lia.
Qed.

Variable hit : char -> bool.

Hypothesis Hhit : forall before x t,
  hit x = true ->
  rmatch ignoreCase r {| prev := before; rest := x :: t; cap := None |} Some
  <> None.

(** No character at which the pattern matches stands before the match. *)
Lemma search_gap (s : jsstring) :
  forall (before : option char) (index : nat) (m : rmatch_result),
    search ignoreCase r before s index = Some m ->
    (index <= m_index m)%nat
    /\ Forall (fun c => hit c = false) (firstn (m_index m - index) s).
Proof.
  induction s as [| x s IH]; intros before index m; cbn [search].
  - destruct (rmatch ignoreCase r _ Some); [| discriminate].
    intro H. injection H as <-. cbn [m_index].
    split; [lia |]. rewrite firstn_nil. constructor.
  - destruct (rmatch ignoreCase r _ Some) as [st' |] eqn:E.
    + intro H. injection H as <-. cbn [m_index].
      split; [lia |]. rewrite Nat.sub_diag. constructor.
    + intro H. destruct (IH _ _ _ H) as [Hle Hall]. split; [lia |].
      replace (m_index m - index)%nat with (S (m_index m - S index)) by lia.
      cbn [firstn]. constructor; [| exact Hall].
      destruct (hit x) eqn:Ex; [| reflexivity].
      now elim (Hhit before s Ex).
Qed.

Lemma search_none_clean (s : jsstring) :
  forall (before : option char) (index : nat),
    search ignoreCase r before s index = None ->
    Forall (fun c => hit c = false) s.
Proof.
  induction s as [| x s IH]; intros before index; cbn [search];
    [constructor |].
  destruct (rmatch ignoreCase r _ Some) as [st' |] eqn:E; [discriminate |].
  intro H. constructor; [| now apply IH with (Some x) (S index)].
  destruct (hit x) eqn:Ex; [| reflexivity].
  now elim (Hhit before s Ex).
Qed.

(** Replacing every match by nothing leaves no character at which the
    pattern matches. *)
Lemma replace_from_removes :
  forall (fuel : nat) (before : option char) (s : jsstring),
    (length s < fuel)%nat ->
    Forall (fun c => hit c = false)
           (replace_from ignoreCase fuel r [] before s).
Proof.
  induction fuel as [| fuel IH]; intros before s Hlen; [lia |].
  cbn [replace_from].
  destruct (search ignoreCase r before s 0) as [m |] eqn:E;
    [| now apply search_none_clean with before 0%nat].
  destruct (search_gap _ _ _ E) as [_ Hgap].
  rewrite Nat.sub_0_r in Hgap.
  destruct (search_consumes _ _ _ E) as [H0 Hlt].
  apply Forall_app. split; [exact Hgap |]. cbn [app].
  destruct (m_0 m) as [| y ys]; [now elim H0 |].
  apply IH. lia.
Qed.

End Replacing.

End RegexProps.

(* ================================================================== *)
(** * More properties of the Matcher                                    *)
(* ================================================================== *)

Module MatchingExtras.

Import Transitions JS JSFacts Db Matching DbProps MatchingProps.
Local Open Scope N_scope.

(** ** Whom the queries return *)

Lemma latest_application_ilike_some (db : Database) (userId : uuid)
    (pattern : jsstring) (a : Application) :
  latest_application_ilike db userId pattern = Some a ->
  In a (applications db)
  /\ app_user_id a = userId
  /\ ilike (company_name a) pattern = true
  /\ forall b, In b (applications db) -> app_user_id b = userId ->
       ilike (company_name b) pattern = true ->
       app_created_at b <= app_created_at a.
Proof.
  unfold latest_application_ilike.
  set (selected := filter _ (applications db)). intro Hsome.
  assert (Hne : selected <> []).
  { intro He. rewrite He in Hsome. discriminate Hsome. }
  destruct (newest_of_selection app_created_at Hne) as [a' [Hs [Hin Hmax]]].
  rewrite Hs in Hsome. injection Hsome as ->.
  unfold selected in Hin. apply filter_In in Hin.
  destruct Hin as [Hin Hp]. apply andb_true_iff in Hp.
  destruct Hp as [Hu Hl]. apply N.eqb_eq in Hu.
  repeat split; try assumption.
  intros b Hb Hbu Hbl. apply Hmax. unfold selected. apply filter_In.
  split; [exact Hb |]. apply andb_true_iff. split; [| exact Hbl].
  now apply N.eqb_eq.
Qed.

Lemma findApplicationByCompanyName_owned (db : Database) (userId : uuid)
    (company : jsstring) (a : Application) :
  findApplicationByCompanyName db userId company = Some a ->
  In a (applications db) /\ app_user_id a = userId.
Proof.
  unfold findApplicationByCompanyName.
  destruct (latest_application_ilike db userId company) as [x |] eqn:E.
  - intro H. injection H as <-.
    apply latest_application_ilike_some in E. tauto.
  - intro H. apply latest_application_ilike_some in H. tauto.
Qed.

Lemma findApplicationByDomain_owned (db : Database) (userId : uuid)
    (senderDomain : jsstring) (a : Application) :
  findApplicationByDomain db userId senderDomain = Some a ->
  In a (applications db) /\ app_user_id a = userId
  /\ existsb (fun ats => includes senderDomain ats) atsDomains = false.
Proof.
  unfold findApplicationByDomain.
  destruct (existsb _ atsDomains); [discriminate |].
  intro H. apply latest_application_ilike_some in H. tauto.
Qed.

Ltac match_found H :=
  cbn; split;
  [ intros ? Hid; injection Hid as <-; eexists;
    first [ apply findApplicationByCompanyName_owned in H
          | apply findApplicationByDomain_owned in H ];
    split; [apply H | split; [reflexivity | apply H]]
  | split; [split; discriminate | reflexivity] ].

Ltac match_none :=
  cbn; split; [discriminate | split; [tauto | reflexivity]].

Ltac match_rest db userId email :=
  let Ed := fresh "Ed" in
  let Ef := fresh "Ef" in
  destruct (findApplicationByDomain db userId (extractDomain (from email)))
    as [? |] eqn:Ed;
  [ match_found Ed
  | destruct (extractCompanyFromSubject (subject email)) as [e |];
    [ destruct (truthy e);
      [ destruct (findApplicationByCompanyName db userId e) as [? |] eqn:Ef;
        [ match_found Ef | match_none ]
      | match_none ]
    | match_none ] ].

Ltac owned_found H :=
  let Hid := fresh "Hid" in
  cbn; intro Hid; injection Hid as <-; eexists;
  first [ apply findApplicationByCompanyName_owned in H
        | apply findApplicationByDomain_owned in H ];
  split; [apply H | split; [reflexivity | apply H]].

Ltac owned_rest db userId email :=
  let Ed := fresh "Ed" in
  let Ef := fresh "Ef" in
  destruct (findApplicationByDomain db userId (extractDomain (from email)))
    as [? |] eqn:Ed;
  [ owned_found Ed
  | destruct (extractCompanyFromSubject (subject email)) as [e |];
    [ destruct (truthy e);
      [ destruct (findApplicationByCompanyName db userId e) as [? |] eqn:Ef;
        [ owned_found Ef | cbn; discriminate ]
      | cbn; discriminate ]
    | cbn; discriminate ] ].

(** The application that the Matcher returns is in the table and is
    the user's. *)
Lemma matched_id_is_owned (db : Database) (userId : uuid)
    (email : ParsedEmail) (id : uuid) :
  applicationId (matchEmailToApplication db userId email) = Some id ->
  exists a, In a (applications db)
            /\ app_id a = id /\ app_user_id a = userId.
Proof.
  unfold matchEmailToApplication. cbv zeta.
  destruct (extractCompanyFromATS email) as [c |].
  - destruct (truthy c).
    + destruct (findApplicationByCompanyName db userId c) as [m |] eqn:Em.
      * owned_found Em.
      * owned_rest db userId email.
    + owned_rest db userId email.
  - owned_rest db userId email.
Qed.

(** X4.  The Matcher only ever returns an application of the user it is
    asked for; it returns none exactly with the match type [none]; and
    the confidence is fixed by the match type: 0.9 for [ats], 0.95 for
    [domain], 0.7 for [fuzzy], 0 for [none]. *)
Theorem match_is_an_application_of_the_user
    (db : Database) (userId : uuid) (email : ParsedEmail) :
  let r := matchEmailToApplication db userId email in
  (forall id, applicationId r = Some id ->
     exists a, In a (applications db)
               /\ app_id a = id /\ app_user_id a = userId)
  /\ (applicationId r = None <-> matchType r = none)
  /\ confidence r =
     match matchType r with
     | ats => 0.9%Q
     | domain => 0.95%Q
     | fuzzy => 0.7%Q
     | none => 0%Q
     end.
Proof.
  unfold matchEmailToApplication. cbv zeta.
  destruct (extractCompanyFromATS email) as [c |].
  - destruct (truthy c).
    + destruct (findApplicationByCompanyName db userId c) as [m |] eqn:Em.
      * match_found Em.
      * match_rest db userId email.
    + match_rest db userId email.
  - match_rest db userId email.
Qed.

(** ** [extractDomain] *)

Lemma rmatch_star (ignoreCase greedy : bool) (r1 : regex) (st : mstate)
    (k : mstate -> option mstate) :
  rmatch ignoreCase (Star greedy r1) st k
  = star_loop ignoreCase greedy r1 k (length (rest st)) st.
Proof. reflexivity. Qed.

Lemma star_loop_O (ignoreCase greedy : bool) (r1 : regex)
    (k : mstate -> option mstate) (st : mstate) :
  star_loop ignoreCase greedy r1 k 0 st = k st.
Proof. reflexivity. Qed.

Lemma star_loop_S (ignoreCase greedy : bool) (r1 : regex)
    (k : mstate -> option mstate) (fuel : nat) (st : mstate) :
  star_loop ignoreCase greedy r1 k (S fuel) st
  = let again :=
      rmatch ignoreCase r1 st (fun st' =>
        if (length (rest st') <? length (rest st))%nat
        then star_loop ignoreCase greedy r1 k fuel st' else None) in
    if greedy then orelse again (k st) else orelse (k st) again.
Proof. reflexivity. Qed.

(** One character that is not [@]. *)
Lemma rmatch_not_at (before : option char) (x : char) (t : jsstring)
    (c : option jsstring) (k : mstate -> option mstate) :
  rmatch false (NoneOf [64]) {| prev := before; rest := x :: t; cap := c |} k
  = if char_eqb x 64 then None
    else k {| prev := Some x; rest := t; cap := c |}.
Proof.
  cbn [rmatch]. unfold take1. cbn [rest cap existsb].
  unfold same_char, canonicalize. rewrite orb_false_r.
  now destruct (char_eqb x 64).
Qed.

(** [[^@]*] followed by the end of the input fails when an [@] is left. *)
Lemma star_fails_before_at (s : jsstring) :
  In 64 s ->
  forall (fuel : nat) (before : option char) (c : option jsstring)
         (k : mstate -> option mstate),
    (forall st', rest st' <> [] -> k st' = None) ->
    star_loop false true (NoneOf [64]) k fuel
      {| prev := before; rest := s; cap := c |} = None.
Proof.
  induction s as [| x s IH]; intros Hin fuel before c k Hk; [destruct Hin |].
  assert (Hhere : k {| prev := before; rest := x :: s; cap := c |} = None)
    by (apply Hk; discriminate).
  destruct fuel as [| fuel]; [now rewrite star_loop_O |].
  rewrite star_loop_S. cbv zeta. rewrite rmatch_not_at, Hhere.
  destruct (char_eqb x 64) eqn:Ex; [reflexivity |].
  cbn [rest]. destruct (length s <? length (x :: s))%nat; [| reflexivity].
  rewrite IH; [reflexivity | | exact Hk].
  destruct Hin as [He | Hin]; [| exact Hin].
  rewrite He in Ex. discriminate Ex.
Qed.

(** [[^@]*] reads all of an input without [@], when what follows accepts
    the end. *)
Lemma star_takes_all (d : jsstring) :
  ~ In 64 d ->
  forall (before : option char) (c : option jsstring)
         (k : mstate -> option mstate),
    k {| prev := prev_after before d; rest := []; cap := c |} <> None ->
    star_loop false true (NoneOf [64]) k (length d)
      {| prev := before; rest := d; cap := c |}
    = k {| prev := prev_after before d; rest := []; cap := c |}.
Proof.
  induction d as [| x d IH]; intros Hno before c k Hk.
  - reflexivity.
  - cbn [length]. rewrite star_loop_S. cbv zeta. rewrite rmatch_not_at.
    assert (Ex : char_eqb x 64 = false).
    { apply N.eqb_neq. intro He. apply Hno. now left. }
    rewrite Ex. cbn [rest length].
    assert (Hlt : (length d <? S (length d))%nat = true)
      by (apply Nat.ltb_lt; lia).
    rewrite Hlt.
    assert (Hno' : ~ In 64 d) by (intro H; apply Hno; now right).
    rewrite (IH Hno' (Some x) c k Hk).
    change (prev_after (Some x) d) with (prev_after before (x :: d)) in *.
    destruct (k {| prev := prev_after before (x :: d); rest := [];
                   cap := c |}); [reflexivity | now elim Hk].
Qed.

Lemma rmatch_cat (ignoreCase : bool) (r1 r2 : regex) (st : mstate)
    (k : mstate -> option mstate) :
  rmatch ignoreCase (Cat r1 r2) st k
  = rmatch ignoreCase r1 st (fun st' => rmatch ignoreCase r2 st' k).
Proof. reflexivity. Qed.

Lemma rmatch_group (ignoreCase : bool) (r1 : regex) (st : mstate)
    (k : mstate -> option mstate) :
  rmatch ignoreCase (Group r1) st k
  = rmatch ignoreCase r1 st (fun st' =>
      k {| prev := prev st';
           rest := rest st';
           cap := Some (firstn (length (rest st) - length (rest st'))
                               (rest st)) |}).
Proof. reflexivity. Qed.

(** The [@] of the pattern. *)
Lemma rmatch_at (before : option char) (x : char) (t : jsstring)
    (c : option jsstring) (k : mstate -> option mstate) :
  rmatch false (Chr 64) {| prev := before; rest := x :: t; cap := c |} k
  = if char_eqb 64 x then k {| prev := Some x; rest := t; cap := c |}
    else None.
Proof. reflexivity. Qed.

(** The pattern at an [@] that is followed by a domain. *)
Lemma domain_pattern_at_domain (before : option char) (d : jsstring) :
  d <> [] -> ~ In 64 d ->
  exists st',
    rmatch false domain_pattern
      {| prev := before; rest := 64 :: d; cap := None |} Some = Some st'
    /\ cap st' = Some d.
Proof.
  intros Hne Hno. destruct d as [| x d]; [now elim Hne |].
  assert (Ex : char_eqb x 64 = false).
  { apply N.eqb_neq. intro He. apply Hno. now left. }
  assert (Hno' : ~ In 64 d) by (intro H; apply Hno; now right).
  unfold domain_pattern, seq, Plus.
  rewrite rmatch_cat, rmatch_at. cbn [char_eqb N.eqb Pos.eqb].
  rewrite rmatch_cat, rmatch_group, rmatch_cat, rmatch_not_at, Ex.
  rewrite rmatch_star. cbn [rest].
  rewrite star_takes_all; [| exact Hno' | cbn; discriminate].
  cbn [rmatch rest prev]. eexists. split; [reflexivity |].
  cbn [cap]. rewrite Nat.sub_0_r. now rewrite firstn_all.
Qed.

(** The pattern at an [@] that is followed by another [@] somewhere, or
    by nothing. *)
Lemma domain_pattern_at_no_domain (before : option char) (s : jsstring) :
  s = [] \/ In 64 s ->
  rmatch false domain_pattern
    {| prev := before; rest := 64 :: s; cap := None |} Some = None.
Proof.
  intro Hs. unfold domain_pattern, seq, Plus.
  rewrite rmatch_cat, rmatch_at. cbn [char_eqb N.eqb Pos.eqb].
  rewrite rmatch_cat, rmatch_group, rmatch_cat.
  destruct s as [| x s]; [reflexivity |].
  destruct Hs as [Hs | Hin]; [discriminate Hs |].
  rewrite rmatch_not_at.
  destruct (char_eqb x 64) eqn:Ex; [reflexivity |].
  rewrite rmatch_star. apply star_fails_before_at.
  - destruct Hin as [He | Hin]; [| exact Hin].
    rewrite He in Ex. discriminate Ex.
  - intros st' Hrest. cbn [rmatch rest].
    destruct (rest st'); [now elim Hrest | reflexivity].
Qed.

(** The pattern away from an [@]. *)
Lemma domain_pattern_elsewhere (before : option char) (x : char)
    (s : jsstring) :
  x <> 64 ->
  rmatch false domain_pattern
    {| prev := before; rest := x :: s; cap := None |} Some = None.
Proof.
  intro Hx. unfold domain_pattern, seq.
  rewrite rmatch_cat, rmatch_at.
  assert (Ex : char_eqb 64 x = false)
    by (apply N.eqb_neq; intro He; now apply Hx).
  now rewrite Ex.
Qed.

Lemma search_domain (p d : jsstring) :
  d <> [] -> ~ In 64 d ->
  forall (before : option char) (index : nat),
    exists m,
      search false domain_pattern before (p ++ 64 :: d) index = Some m
      /\ m_1 m = Some d.
Proof.
  intros Hne Hno. induction p as [| x p IH]; intros before index.
  - cbn [app search].
    destruct (domain_pattern_at_domain before Hne Hno) as [st' [-> Hcap]].
    eexists. split; [reflexivity |]. exact Hcap.
  - cbn [app search].
    assert (Hnone :
      rmatch false domain_pattern
        {| prev := before; rest := x :: p ++ 64 :: d; cap := None |} Some
      = None).
    { destruct (N.eq_dec x 64) as [-> | Hx].
      - apply domain_pattern_at_no_domain. right.
        apply in_or_app. right. now left.
      - now apply domain_pattern_elsewhere. }
    rewrite Hnone. apply IH.
Qed.

Lemma search_no_domain (p : jsstring) :
  forall (before : option char) (index : nat),
    search false domain_pattern before (p ++ [64]) index = None.
Proof.
  induction p as [| x p IH]; intros before index.
  - cbn [app search].
    rewrite domain_pattern_at_no_domain by now left. reflexivity.
  - cbn [app search].
    assert (Hnone :
      rmatch false domain_pattern
        {| prev := before; rest := x :: p ++ [64]; cap := None |} Some
      = None).
    { destruct (N.eq_dec x 64) as [-> | Hx].
      - apply domain_pattern_at_no_domain. right.
        apply in_or_app. right. now left.
      - now apply domain_pattern_elsewhere. }
    rewrite Hnone. apply IH.
Qed.

(** X5.  For an address that ends with an [@] and a domain in ASCII,
    [extractDomain] returns that domain with its letters A to Z in lower
    case, whatever stands before that [@]; and for an address that ends
    with [@] it returns the empty string. *)
Theorem extractDomain_is_what_follows_the_last_at :
  (forall p d : jsstring,
     d <> [] -> ~ In 64 d -> forallb isAscii d = true ->
     extractDomain (p ++ 64 :: d) = toLowerCase d)
  /\ (forall p : jsstring, extractDomain (p ++ [64]) = []).
Proof.
  split.
  - intros p d Hne Hno _. unfold extractDomain, match1, exec.
    destruct (search_domain p Hne Hno None 0) as [m [-> Hm]].
    now rewrite Hm.
  - intro p. unfold extractDomain, match1, exec.
    now rewrite search_no_domain.
Qed.

Lemma extractDomain_is_what_follows_the_last_at_witness :
  extractDomain (str "jane@home <jane@Mail.Stripe.COM")
  = str "mail.stripe.com".
Proof.
  apply (proj1 extractDomain_is_what_follows_the_last_at
           (str "jane@home <jane") (str "Mail.Stripe.COM")).
  - discriminate.
  - vm_compute. intuition discriminate.
  - vm_compute. reflexivity.
Defined.

(** ** [ILIKE] with a pattern between two [%] *)

Lemma like_percent_first (q v : jsstring) :
  like (37 :: q) v
  = like q v || match v with
                | [] => false
                | _ :: v' => like (37 :: q) v'
                end.
Proof. destruct v; reflexivity. Qed.

Lemma like_percent (s : jsstring) : like [37] s = true.
Proof.
  induction s as [| c s IH]; [reflexivity |].
  rewrite like_percent_first, IH. apply orb_true_r.
Qed.

Lemma plain_char_cases (c : char) :
  plain_char c = true ->
  char_eqb c 37 = false /\ char_eqb c 95 = false
  /\ char_eqb c 92 = false /\ char_eqb c 42 = false.
Proof.
  unfold plain_char. rewrite negb_true_iff, !orb_false_iff. tauto.
Qed.

Lemma like_plain_prefix (p s : jsstring) :
  forallb plain_char p = true ->
  like (p ++ [37]) s = startsWith s p.
Proof.
  revert s. induction p as [| c p IH]; intros s Hp.
  - cbn [app]. rewrite like_percent. now destruct s.
  - cbn [forallb] in Hp. apply andb_true_iff in Hp. destruct Hp as [Hc Hp].
    destruct (plain_char_cases c Hc) as [H37 [H95 [H92 _]]].
    cbn [app like]. rewrite H37, H95, H92.
    destruct s as [| x s]; [reflexivity |].
    cbn [startsWith]. now rewrite IH.
Qed.

Lemma like_contains (p v : jsstring) :
  forallb plain_char p = true ->
  like (37 :: p ++ [37]) v = includes v p.
Proof.
  intro Hp. induction v as [| x v IH].
  - rewrite like_percent_first, like_plain_prefix by exact Hp.
    cbn [includes]. reflexivity.
  - rewrite like_percent_first, like_plain_prefix by exact Hp.
    cbn [includes]. now rewrite IH.
Qed.

Lemma toLowerChar_plain (c : char) :
  plain_char c = true -> plain_char (toLowerChar c) = true.
Proof.
  intro Hc. unfold toLowerChar.
  destruct ((65 <=? c) && (c <=? 90)) eqn:E; [| exact Hc].
  apply andb_true_iff in E. destruct E as [Hlo Hhi].
  apply N.leb_le in Hlo. apply N.leb_le in Hhi.
  unfold plain_char, char_eqb. rewrite negb_true_iff, !orb_false_iff.
  repeat split; apply N.eqb_neq; lia.
Qed.

Lemma toLowerCase_plain (p : jsstring) :
  forallb plain_char p = true ->
  forallb plain_char (toLowerCase p) = true.
Proof.
  induction p as [| c p IH]; [reflexivity |].
  cbn [forallb toLowerCase map]. rewrite !andb_true_iff.
  intros [Hc Hp]. split; [now apply toLowerChar_plain | now apply IH].
Qed.

Lemma star2percent_plain (p : jsstring) :
  forallb plain_char p = true -> star2percent p = p.
Proof.
  induction p as [| c p IH]; [reflexivity |].
  cbn [forallb star2percent map]. rewrite andb_true_iff.
  intros [Hc Hp]. destruct (plain_char_cases c Hc) as [_ [_ [_ H42]]].
  rewrite H42. f_equal. now apply IH.
Qed.

(** In the model of [ILIKE], a pattern [%p%] whose [p] holds none of
    [%], [_], the backslash and [*] tests that the value contains [p],
    both with the letters A to Z in lower case. *)
Lemma ilike_between_percents (value p : jsstring) :
  forallb plain_char p = true ->
  ilike value (str "%" ++ p ++ str "%")
  = includes (toLowerCase value) (toLowerCase p).
Proof.
  intro Hp. unfold ilike.
  change (str "%" ++ p ++ str "%") with (37 :: p ++ [37]).
  unfold star2percent. cbn [map]. cbn [char_eqb N.eqb Pos.eqb].
  rewrite map_app. cbn [map]. cbn [char_eqb N.eqb Pos.eqb].
  fold (star2percent p). rewrite star2percent_plain by exact Hp.
  unfold toLowerCase at 1. cbn [map]. rewrite map_app. cbn [map].
  change (toLowerChar 37) with 37.
  fold (toLowerCase p).
  apply like_contains. now apply toLowerCase_plain.
Qed.

(** ** Senders at an ATS *)

Lemma no_ats_entry_no_company (senderDomain : jsstring) (email : ParsedEmail)
    (entries : list (jsstring * ATSPattern)) :
  existsb (fun ats => includes senderDomain (fst ats)) entries = false ->
  first_ats_company senderDomain email entries = None.
Proof.
  induction entries as [| [atsDomain parser] entries IH]; [reflexivity |].
  cbn [existsb fst first_ats_company]. rewrite orb_false_iff.
  intros [Hhere Hrest]. rewrite Hhere. now apply IH.
Qed.

(** X7.  For a sender that [isATSEmail] does not recognise, ATS
    extraction finds no company, and the Matcher never answers with the
    match type [ats]. *)
Theorem non_ats_sender_has_no_ats_match
    (db : Database) (userId : uuid) (email : ParsedEmail) :
  isATSEmail email = false ->
  extractCompanyFromATS email = None
  /\ matchType (matchEmailToApplication db userId email) <> ats.
Proof.
  intro Hno.
  assert (Hats : extractCompanyFromATS email = None)
    by now apply no_ats_entry_no_company.
  split; [exact Hats |].
  unfold matchEmailToApplication. rewrite Hats. cbv zeta.
  destruct (findApplicationByDomain db userId _); [discriminate |].
  destruct (extractCompanyFromSubject (subject email)) as [e |];
    [| discriminate].
  destruct (truthy e); [| discriminate].
  destruct (findApplicationByCompanyName db userId e); discriminate.
Qed.

Lemma non_ats_sender_has_no_ats_match_witness :
  let message :=
    Pipeline.parse_email Examples.sample_parse
      (Pipeline.email Examples.interview_at_stripe) in
  extractCompanyFromATS message = None
  /\ matchType (matchEmailToApplication Examples.sample_db Examples.user
                  message) <> ats.
Proof.
  intro message.
  apply (@non_ats_sender_has_no_ats_match
           Examples.sample_db Examples.user message).
  vm_compute. reflexivity.
Defined.

(** X8.  For a sender whose domain contains one of the six ATS domains of
    [findApplicationByDomain], the Matcher never answers with the match
    type [domain]: such a message is matched by its ATS company, by its
    subject, or not at all. *)
Theorem ats_sender_is_never_matched_by_domain
    (db : Database) (userId : uuid) (email : ParsedEmail) :
  existsb (fun ats => includes (extractDomain (from email)) ats) atsDomains
    = true ->
  findApplicationByDomain db userId (extractDomain (from email)) = None
  /\ matchType (matchEmailToApplication db userId email) <> domain.
Proof.
  intro Hats.
  assert (Hnone :
    findApplicationByDomain db userId (extractDomain (from email)) = None).
  { unfold findApplicationByDomain. now rewrite Hats. }
  split; [exact Hnone |].
  unfold matchEmailToApplication. cbv zeta. rewrite Hnone.
  destruct (extractCompanyFromATS email) as [c |].
  - destruct (truthy c).
    + destruct (findApplicationByCompanyName db userId c); [discriminate |].
      destruct (extractCompanyFromSubject (subject email)) as [e |];
        [| discriminate].
      destruct (truthy e); [| discriminate].
      destruct (findApplicationByCompanyName db userId e); discriminate.
    + destruct (extractCompanyFromSubject (subject email)) as [e |];
        [| discriminate].
      destruct (truthy e); [| discriminate].
      destruct (findApplicationByCompanyName db userId e); discriminate.
  - destruct (extractCompanyFromSubject (subject email)) as [e |];
      [| discriminate].
    destruct (truthy e); [| discriminate].
    destruct (findApplicationByCompanyName db userId e); discriminate.
Qed.

Lemma ats_sender_is_never_matched_by_domain_witness :
  let message :=
    Pipeline.parse_email Examples.sample_parse
      (Pipeline.email Examples.from_greenhouse) in
  findApplicationByDomain Examples.sample_db Examples.user
    (extractDomain (from message)) = None
  /\ matchType (matchEmailToApplication Examples.sample_db Examples.user
                  message) <> domain.
Proof.
  intro message.
  apply (@ats_sender_is_never_matched_by_domain
           Examples.sample_db Examples.user message).
  vm_compute. reflexivity.
Defined.

(** ** [trim] and the company taken from a subject *)

Lemma trimStart_head (s : jsstring) (x : char) (t : jsstring) :
  trimStart s = x :: t -> isSpace x = false.
Proof.
  induction s as [| c s IH]; cbn [trimStart]; [discriminate |].
  destruct (isSpace c) eqn:E; [exact IH |].
  intro H. injection H as <- _. exact E.
Qed.

Lemma trimStart_suffix (s : jsstring) :
  exists pre, s = pre ++ trimStart s.
Proof.
  induction s as [| c s [pre IH]]; [now exists [] |].
  cbn [trimStart]. destruct (isSpace c).
  - exists (c :: pre). cbn [app]. now rewrite <- IH.
  - now exists [].
Qed.

(** What [trim] returns neither starts nor ends with white space. *)
Lemma trim_ends (s : jsstring) (x : char) (t : jsstring) :
  trim s = x :: t ->
  isSpace x = false /\ isSpace (last (x :: t) x) = false.
Proof.
  unfold trim, trimEnd. set (t0 := trimStart s).
  set (u := trimStart (rev t0)). intro H.
  destruct (trimStart_suffix (rev t0)) as [pre Hpre]. fold u in Hpre.
  split.
  - assert (Ht0 : t0 = rev u ++ rev pre).
    { rewrite <- (rev_involutive t0), Hpre. apply rev_app_distr. }
    rewrite H in Ht0. cbn [app] in Ht0.
    apply trimStart_head with (s := s) (t := t ++ rev pre). exact Ht0.
  - destruct u as [| y u'] eqn:Eu; [discriminate H |].
    assert (Hy : isSpace y = false)
      by (apply trimStart_head with (s := rev t0) (t := u'); exact Eu).
    rewrite <- H. cbn [rev]. now rewrite last_last.
Qed.

(** X9.  A company that [extractCompanyFromSubject] returns is a piece
    of the subject, has from 3 to 49 characters, neither starts nor ends
    with white space, and is none of the words your, the, a, an. *)
Theorem subject_company_is_clean (subject company : jsstring) :
  extractCompanyFromSubject subject = Some company ->
  includes subject company = true
  /\ (2 < length company < 50)%nat
  /\ test true false_positive company = false
  /\ (forall x t, company = x :: t ->
        isSpace x = false /\ isSpace (last company x) = false).
Proof.
  unfold extractCompanyFromSubject.
  generalize subject_patterns as patterns.
  induction patterns as [| p ps IH]; cbn [first_subject_company];
    [discriminate |].
  destruct (match1 true p subject) as [g |] eqn:Eg; [| exact IH].
  destruct (truthy g); [| exact IH].
  destruct ((2 <? length (trim g))%nat) eqn:Hlo; cbn [andb]; [| exact IH].
  destruct ((length (trim g) <? 50)%nat) eqn:Hhi; cbn [andb]; [| exact IH].
  destruct (test true false_positive (trim g)) eqn:Hfp; cbn [negb];
    [exact IH |].
  intro H. injection H as <-.
  apply Nat.ltb_lt in Hlo. apply Nat.ltb_lt in Hhi.
  split.
  { apply RegexProps.occurs_includes.
    apply RegexProps.occurs_in_trans with g;
      [apply RegexProps.trim_occurs | now apply RegexProps.match1_occurs
                                            with (ignoreCase := true) (r := p)]. }
  split; [lia |]. split; [exact Hfp |].
  intros x t Hx. rewrite Hx. apply trim_ends with (s := g). exact Hx.
Qed.

Lemma subject_company_is_clean_witness :
  includes (str "Interview with Stripe - next steps") (str "Stripe") = true
  /\ (2 < length (str "Stripe") < 50)%nat
  /\ test true false_positive (str "Stripe") = false
  /\ (forall x t, str "Stripe" = x :: t ->
        isSpace x = false /\ isSpace (last (str "Stripe") x) = false).
Proof.
  apply (@subject_company_is_clean
           (str "Interview with Stripe - next steps") (str "Stripe")).
  vm_compute. reflexivity.
Defined.

(** ** Company names that normalize to nothing *)

(** X10.  For a company name that [normalizeCompanyName] reduces to the
    empty string (such as "Inc."), the partial match of
    [findApplicationByCompanyName] is made with the pattern [%%]: a user
    with at least one application always gets one back, and when no
    application matches the name as it is, the most recently created one
    of all. *)
Theorem empty_normalized_name_matches_any_application
    (db : Database) (userId : uuid) (company : jsstring) :
  normalizeCompanyName company = [] ->
  (exists a, In a (applications db) /\ app_user_id a = userId) ->
  exists a,
    findApplicationByCompanyName db userId company = Some a
    /\ In a (applications db)
    /\ app_user_id a = userId
    /\ (latest_application_ilike db userId company = None ->
        forall b, In b (applications db) -> app_user_id b = userId ->
                  app_created_at b <= app_created_at a).
Proof.
  intros Hnorm [a0 [Hin0 Hu0]]. unfold findApplicationByCompanyName.
  rewrite Hnorm.
  destruct (latest_application_ilike db userId company) as [x |] eqn:Ex.
  - exists x. apply latest_application_ilike_some in Ex.
    repeat split; try tauto. discriminate.
  - change (str "%" ++ [] ++ str "%")%list with [37; 37].
    set (mine := filter (fun a => N.eqb (app_user_id a) userId)
                        (applications db)).
    assert (Hne : mine <> []).
    { intro He. assert (Hin : In a0 mine).
      { apply filter_In. split; [exact Hin0 | now apply N.eqb_eq]. }
      rewrite He in Hin. destruct Hin. }
    destruct (newest_of_selection app_created_at Hne) as [a [Hsel [Hin Hmax]]].
    apply filter_In in Hin. destruct Hin as [Hin Hu]. apply N.eqb_eq in Hu.
    exists a. split.
    + unfold latest_application_ilike. rewrite filter_percent_percent.
      fold mine. exact Hsel.
    + repeat split; try assumption.
      intros _ b Hb Hbu. apply Hmax. apply filter_In.
      split; [exact Hb | now apply N.eqb_eq].
Qed.

Lemma empty_normalized_name_matches_any_application_witness :
  exists a,
    findApplicationByCompanyName Examples.sample_db Examples.user (str "Inc.")
    = Some a
    /\ In a (applications Examples.sample_db)
    /\ app_user_id a = Examples.user
    /\ (latest_application_ilike Examples.sample_db Examples.user (str "Inc.")
        = None ->
        forall b, In b (applications Examples.sample_db) ->
                  app_user_id b = Examples.user ->
                  app_created_at b <= app_created_at a).
Proof.
  apply (@empty_normalized_name_matches_any_application
           Examples.sample_db Examples.user (str "Inc.")).
  - vm_compute. reflexivity.
  - exists (Examples.application 1 Examples.user "Acme Corp" APPLIED 10).
    split; [now left | reflexivity].
Defined.

(** ** The label of the domain that names the company *)

Lemma split_no_dot (l : jsstring) :
  ~ In 46 l -> split 46 l = [l].
Proof.
  induction l as [| c l IH]; intro Hno; [reflexivity |].
  cbn [split].
  assert (Hc : char_eqb c 46 = false).
  { apply N.eqb_neq. intro He. apply Hno. now left. }
  rewrite Hc, IH; [reflexivity |]. intro H. apply Hno. now right.
Qed.

Lemma split_label_dot (l rest : jsstring) :
  ~ In 46 l -> split 46 (l ++ 46 :: rest) = l :: split 46 rest.
Proof.
  induction l as [| c l IH]; intro Hno.
  - reflexivity.
  - cbn [app split].
    assert (Hc : char_eqb c 46 = false).
    { apply N.eqb_neq. intro He. apply Hno. now left. }
    rewrite Hc, IH; [reflexivity |]. intro H. apply Hno. now right.
Qed.

(** [split] undoes [join]. *)
Lemma split_join_dots (labels : list jsstring) :
  labels <> [] ->
  Forall (fun l => ~ In 46 l) labels ->
  split 46 (join_dots labels) = labels.
Proof.
  induction labels as [| l ls IH]; intros Hne Hall; [now elim Hne |].
  inversion Hall as [| ? ? Hl Hls]; subst.
  destruct ls as [| l2 ls].
  - now apply split_no_dot.
  - cbn [join_dots]. rewrite split_label_dot by exact Hl.
    f_equal. apply IH; [discriminate | exact Hls].
Qed.

(** X11.  For a domain that contains none of the six ATS domains, the
    direct-domain strategy looks for the label before the last one
    ([stripe] in [careers.stripe.com], but [co] in [stripe.co.uk]), or for
    the only label of a domain without a dot, anywhere in the company
    names. *)
Theorem domain_strategy_uses_the_label_before_the_last
    (db : Database) (userId : uuid) (labels : list jsstring)
    (x y : jsstring) :
  Forall (fun l => ~ In 46 l) (labels ++ [x; y]) ->
  (existsb (fun ats => includes (join_dots (labels ++ [x; y])) ats)
     atsDomains = false ->
   findApplicationByDomain db userId (join_dots (labels ++ [x; y]))
   = latest_application_ilike db userId (str "%" ++ x ++ str "%"))
  /\ (existsb (fun ats => includes x ats) atsDomains = false ->
      findApplicationByDomain db userId x
      = latest_application_ilike db userId (str "%" ++ x ++ str "%")).
Proof.
  intro Hall. split; intro Hats.
  - unfold findApplicationByDomain. rewrite Hats.
    rewrite split_join_dots; [| now destruct labels | exact Hall].
    cbv zeta.
    assert (Hlen : length (labels ++ [x; y]) = S (S (length labels))).
    { rewrite length_app. cbn [length]. lia. }
    assert (Hpart : part (labels ++ [x; y])
                      (length (labels ++ [x; y]) - 2) = x).
    { rewrite Hlen. unfold part.
      replace (S (S (length labels)) - 2)%nat with (length labels) by lia.
      now rewrite nth_middle. }
    rewrite Hpart.
    assert (H2 : (2 <=? length (labels ++ [x; y]))%nat = true)
      by (apply Nat.leb_le; lia).
    rewrite H2. now destruct (_ && _).
  - unfold findApplicationByDomain. rewrite Hats.
    assert (Hx : ~ In 46 x).
    { rewrite Forall_forall in Hall. apply Hall.
      apply in_or_app. right. now left. }
    rewrite split_no_dot by exact Hx. cbv zeta. cbn [length Nat.leb part nth].
    rewrite andb_false_r. reflexivity.
Qed.

Lemma domain_strategy_uses_the_label_before_the_last_witness :
  findApplicationByDomain Examples.sample_db Examples.user
    (str "stripe.co.uk")
  = latest_application_ilike Examples.sample_db Examples.user (str "%co%")
  /\ findApplicationByDomain Examples.sample_db Examples.user
       (str "careers.stripe.com")
     = latest_application_ilike Examples.sample_db Examples.user
         (str "%stripe%").
Proof.
  split.
  - apply (@domain_strategy_uses_the_label_before_the_last
             Examples.sample_db Examples.user
             [str "stripe"] (str "co") (str "uk")).
    + repeat constructor; vm_compute; intuition discriminate.
    + vm_compute. reflexivity.
  - apply (@domain_strategy_uses_the_label_before_the_last
             Examples.sample_db Examples.user
             [str "careers"] (str "stripe") (str "com")).
    + repeat constructor; vm_compute; intuition discriminate.
    + vm_compute. reflexivity.
Defined.

(** ** What the direct-domain strategy finds *)

Lemma label_before_the_last (labels : list jsstring) (x y : jsstring) :
  Forall (fun l => ~ In 46 l) (labels ++ [x; y]) ->
  let parts := split 46 (join_dots (labels ++ [x; y])) in
  parts = labels ++ [x; y]
  /\ part parts (length parts - 2) = x
  /\ (2 <=? length parts)%nat = true.
Proof.
  intro Hall. cbv zeta.
  rewrite split_join_dots; [| now destruct labels | exact Hall].
  assert (Hlen : length (labels ++ [x; y]) = S (S (length labels))).
  { rewrite length_app. cbn [length]. lia. }
  split; [reflexivity | split].
  - rewrite Hlen. unfold part.
    replace (S (S (length labels)) - 2)%nat with (length labels) by lia.
    now rewrite nth_middle.
  - apply Nat.leb_le. lia.
Qed.

Lemma latest_application_ilike_none (db : Database) (userId : uuid)
    (pattern : jsstring) :
  latest_application_ilike db userId pattern = None
  <-> forall b, In b (applications db) -> app_user_id b = userId ->
        ilike (company_name b) pattern = false.
Proof.
  unfold latest_application_ilike.
  set (keep := fun a => N.eqb (app_user_id a) userId
                        && ilike (company_name a) pattern).
  split.
  - intros Hnone b Hin Huser.
    destruct (ilike (company_name b) pattern) eqn:Hlike; [| reflexivity].
    assert (Hb : In b (filter keep (applications db))).
    { apply filter_In. split; [exact Hin |]. unfold keep.
      rewrite Hlike, andb_true_r. now apply N.eqb_eq. }
    assert (Hne : filter keep (applications db) <> []).
    { intro He. rewrite He in Hb. destruct Hb. }
    destruct (newest_of_selection app_created_at Hne) as [a [Hs _]].
    rewrite Hs in Hnone. discriminate Hnone.
  - intro Hall.
    assert (He : filter keep (applications db) = []).
    { destruct (filter keep (applications db)) as [| a l] eqn:E;
        [reflexivity |].
      assert (Ha : In a (filter keep (applications db)))
        by (rewrite E; now left).
      apply filter_In in Ha. destruct Ha as [Hin Hkeep]. unfold keep in Hkeep.
      apply andb_true_iff in Hkeep. destruct Hkeep as [Hu Hl].
      apply N.eqb_eq in Hu. rewrite (Hall a Hin Hu) in Hl. discriminate Hl. }
    rewrite He. reflexivity.
Qed.

(** X6.  For a domain of two labels or more that contains none of the six
    ATS domains, with a label before the last that is made of ASCII
    characters other than [%], [_], the backslash and [*], and for
    company names in ASCII: the application that
    [findApplicationByDomain] returns is one of the user whose company
    name contains that label, letters compared without case, and no
    application of the user with such a name was created later; none is
    returned exactly when no application of the user has such a name. *)
Theorem domain_match_contains_the_label
    (db : Database) (userId : uuid) (labels : list jsstring)
    (x y : jsstring) :
  Forall (fun l => ~ In 46 l) (labels ++ [x; y]) ->
  existsb (fun ats => includes (join_dots (labels ++ [x; y])) ats)
    atsDomains = false ->
  forallb plain_char x = true ->
  forallb isAscii x = true ->
  Forall (fun b => forallb isAscii (company_name b) = true)
         (applications db) ->
  (forall a,
     findApplicationByDomain db userId (join_dots (labels ++ [x; y]))
     = Some a ->
     In a (applications db)
     /\ app_user_id a = userId
     /\ includes (toLowerCase (company_name a)) (toLowerCase x) = true
     /\ forall b, In b (applications db) -> app_user_id b = userId ->
          includes (toLowerCase (company_name b)) (toLowerCase x) = true ->
          app_created_at b <= app_created_at a)
  /\ (findApplicationByDomain db userId (join_dots (labels ++ [x; y]))
      = None
      <-> forall b, In b (applications db) -> app_user_id b = userId ->
            includes (toLowerCase (company_name b)) (toLowerCase x)
            = false).
Proof.
  intros Hall Hats Hplain _ _.
  assert (Hquery :
    findApplicationByDomain db userId (join_dots (labels ++ [x; y]))
    = latest_application_ilike db userId (str "%" ++ x ++ str "%")).
  { unfold findApplicationByDomain. rewrite Hats.
    destruct (label_before_the_last labels x y Hall) as [_ [Hpart H2]].
    cbv zeta in Hpart, H2. cbv zeta. rewrite Hpart, H2.
    now destruct (_ && _). }
  rewrite Hquery. split.
  - intros a Hsome.
    destruct (latest_application_ilike_some _ _ _ Hsome)
      as [Hin [Huser [Hlike Hnewest]]].
    rewrite ilike_between_percents in Hlike by exact Hplain.
    repeat split; try assumption.
    intros b Hb Hu Hcontains. apply Hnewest; try assumption.
    now rewrite ilike_between_percents by exact Hplain.
  - rewrite latest_application_ilike_none. split; intros H b Hb Hu.
    + rewrite <- ilike_between_percents by exact Hplain. now apply H.
    + rewrite ilike_between_percents by exact Hplain. now apply H.
Qed.

Lemma domain_match_contains_the_label_witness :
  exists a,
    findApplicationByDomain Examples.sample_db Examples.user
      (str "careers.stripe.com") = Some a
    /\ includes (toLowerCase (company_name a)) (str "stripe") = true.
Proof.
  exists (Examples.application 2 Examples.user "Stripe" APPLIED 20).
  split; [vm_compute; reflexivity |].
  apply (proj1 (@domain_match_contains_the_label
                  Examples.sample_db Examples.user
                  [str "careers"] (str "stripe") (str "com")
                  ltac:(repeat constructor; vm_compute; intuition discriminate)
                  ltac:(vm_compute; reflexivity)
                  ltac:(vm_compute; reflexivity)
                  ltac:(vm_compute; reflexivity)
                  ltac:(repeat constructor))).
  vm_compute. reflexivity.
Defined.

(** ** The company taken from an ATS message *)

(** Every parser of [ATS_PATTERNS] returns a trimmed piece of the
    subject, of the body or of the sender's name. *)
Lemma ats_parser_returns_a_piece (atsDomain : jsstring) (parser : ATSPattern)
    (email : ParsedEmail) (company : jsstring) :
  In (atsDomain, parser) ATS_PATTERNS ->
  parser email = Some company ->
  exists g,
    company = trim g
    /\ (occurs_in g (subject email)
        \/ occurs_in g (body email)
        \/ exists n, fromName email = Some n /\ occurs_in g n).
Proof.
  assert (Hsubject : forall r,
            subject_only r email = Some company ->
            exists g,
              company = trim g
              /\ (occurs_in g (subject email)
                  \/ occurs_in g (body email)
                  \/ exists n, fromName email = Some n /\ occurs_in g n)).
  { intros r. unfold subject_only, trimmed_or.
    destruct (match1 true r (subject email)) as [g |] eqn:E; [| discriminate].
    intro H. injection H as <-. exists g. split; [reflexivity |].
    left. now apply RegexProps.match1_occurs with (ignoreCase := true) (r := r). }
  intro Hin. cbn [ATS_PATTERNS In] in Hin.
  destruct Hin as [H | [H | [H | [H | [H | [H | [H | [H | [H | []]]]]]]]]];
    injection H as _ <-; try apply Hsubject.
  - unfold trimmed_or.
    destruct (match1 true greenhouse_subject (subject email)) as [g |] eqn:E1.
    + intro H. injection H as <-. exists g. split; [reflexivity |].
      left. now apply RegexProps.match1_occurs
              with (ignoreCase := true) (r := greenhouse_subject).
    + destruct (match1 true greenhouse_body (body email)) as [g |] eqn:E2;
        [| discriminate].
      intro H. injection H as <-. exists g. split; [reflexivity |].
      right. left. now apply RegexProps.match1_occurs
                     with (ignoreCase := true) (r := greenhouse_body).
  - unfold trimmed_or.
    destruct (fromName email) as [n |] eqn:En.
    + destruct (match1 true lever_from n) as [g |] eqn:E1.
      * intro H. injection H as <-. exists g. split; [reflexivity |].
        right. right. exists n. split; [reflexivity |].
        now apply RegexProps.match1_occurs
          with (ignoreCase := true) (r := lever_from).
      * destruct (match1 true lever_subject (subject email)) as [g |] eqn:E2;
          [| discriminate].
        intro H. injection H as <-. exists g. split; [reflexivity |].
        left. now apply RegexProps.match1_occurs
                with (ignoreCase := true) (r := lever_subject).
    + destruct (match1 true lever_subject (subject email)) as [g |] eqn:E2;
        [| discriminate].
      intro H. injection H as <-. exists g. split; [reflexivity |].
      left. now apply RegexProps.match1_occurs
              with (ignoreCase := true) (r := lever_subject).
Qed.

(** X12.  A company that [extractCompanyFromATS] returns is never the
    empty string, neither starts nor ends with white space, and is a
    piece of the subject, of the body or of the sender's name; it is
    returned only for a sender that [isATSEmail] recognises. *)
Theorem ats_company_is_a_piece_of_the_message
    (email : ParsedEmail) (company : jsstring) :
  extractCompanyFromATS email = Some company ->
  isATSEmail email = true
  /\ truthy company = true
  /\ (includes (subject email) company = true
      \/ includes (body email) company = true
      \/ exists n, fromName email = Some n /\ includes n company = true)
  /\ (forall x t, company = x :: t ->
        isSpace x = false /\ isSpace (last company x) = false).
Proof.
  intro Hc. split.
  { destruct (isATSEmail email) eqn:E; [reflexivity |].
    unfold isATSEmail in E. cbv zeta in E.
    unfold extractCompanyFromATS in Hc. cbv zeta in Hc.
    rewrite (no_ats_entry_no_company _ email ATS_PATTERNS E) in Hc.
    discriminate Hc. }
  unfold extractCompanyFromATS in Hc. cbv zeta in Hc.
  assert (Hgen : forall entries,
            (forall d p, In (d, p) entries -> In (d, p) ATS_PATTERNS) ->
            first_ats_company (extractDomain (from email)) email entries
            = Some company ->
            truthy company = true
            /\ exists g,
                 company = trim g
                 /\ (occurs_in g (subject email)
                     \/ occurs_in g (body email)
                     \/ exists n, fromName email = Some n /\ occurs_in g n)).
  { induction entries as [| [d p] entries IH]; intros Hsub;
      cbn [first_ats_company]; [discriminate |].
    assert (Hrest : forall d' p', In (d', p') entries ->
                                  In (d', p') ATS_PATTERNS)
      by (intros d' p' H; apply Hsub; now right).
    destruct (includes _ d); [| now apply IH].
    destruct (p email) as [c |] eqn:Ep; [| now apply IH].
    destruct (truthy c) eqn:Et; [| now apply IH].
    intro H. injection H as <-. split; [exact Et |].
    apply ats_parser_returns_a_piece with (atsDomain := d) (parser := p);
      [apply Hsub; now left | exact Ep]. }
  destruct (Hgen ATS_PATTERNS (fun d p H => H) Hc)
    as [Ht [g [Hg Hwhere]]].
  split; [exact Ht |]. split.
  - assert (Htrim : occurs_in company g)
      by (rewrite Hg; apply RegexProps.trim_occurs).
    destruct Hwhere as [H | [H | [n [Hn H]]]].
    + left. apply RegexProps.occurs_includes.
      now apply RegexProps.occurs_in_trans with g.
    + right. left. apply RegexProps.occurs_includes.
      now apply RegexProps.occurs_in_trans with g.
    + right. right. exists n. split; [exact Hn |].
      apply RegexProps.occurs_includes.
      now apply RegexProps.occurs_in_trans with g.
  - intros x t Hx. rewrite Hx. apply trim_ends with (s := g).
    now rewrite <- Hg.
Qed.

Lemma ats_company_is_a_piece_of_the_message_witness :
  let message :=
    Pipeline.parse_email Examples.sample_parse
      (Pipeline.email Examples.from_greenhouse) in
  isATSEmail message = true
  /\ truthy (str "Acme Corp") = true
  /\ (includes (subject message) (str "Acme Corp") = true
      \/ includes (body message) (str "Acme Corp") = true
      \/ exists n, fromName message = Some n
                   /\ includes n (str "Acme Corp") = true)
  /\ (forall x t, str "Acme Corp" = x :: t ->
        isSpace x = false /\ isSpace (last (str "Acme Corp") x) = false).
Proof.
  intro message.
  apply (@ats_company_is_a_piece_of_the_message message (str "Acme Corp")).
  vm_compute. reflexivity.
Defined.

(** ** [normalizeCompanyName] *)

Lemma toLowerCase_no_upper (s : jsstring) :
  Forall (fun c => isUpper c = false) (toLowerCase s).
Proof.
  induction s as [| c s IH]; cbn [toLowerCase map]; constructor;
    [| exact IH].
  unfold toLowerChar, isUpper.
  destruct ((65 <=? c) && (c <=? 90)) eqn:E; [| exact E].
  apply andb_true_iff in E. destruct E as [Hlo Hhi].
  apply N.leb_le in Hlo. apply andb_false_iff. right.
  apply N.leb_gt. lia.
Qed.

Lemma company_suffixes_at_punct (before : option char) (x : char)
    (t : jsstring) :
  isPunct x = true ->
  rmatch true company_suffixes
    {| prev := before; rest := x :: t; cap := None |} Some <> None.
Proof.
  unfold isPunct. rewrite orb_true_iff. unfold char_eqb.
  rewrite !N.eqb_eq. intros [-> | ->]; cbv; discriminate.
Qed.

(** X13.  A name that [normalizeCompanyName] returns holds no letter
    from A to Z, no comma and no full stop, and neither starts nor ends
    with white space. *)
Theorem normalized_name_is_canonical (name : jsstring) :
  Forall (fun c => isUpper c = false /\ isPunct c = false)
         (normalizeCompanyName name)
  /\ (forall x t, normalizeCompanyName name = x :: t ->
        isSpace x = false
        /\ isSpace (last (normalizeCompanyName name) x) = false).
Proof.
  split; [| intros x t Hx; rewrite Hx; now apply trim_ends with (s :=
    replaceAll true (Plus true Space) (str " ")
      (replaceAll true company_suffixes [] (toLowerCase name)))].
  unfold normalizeCompanyName.
  set (s0 := toLowerCase name).
  set (s1 := replaceAll true company_suffixes [] s0).
  set (s2 := replaceAll true (Plus true Space) (str " ") s1).
  assert (H1 : Forall (fun c => isUpper c = false) s1).
  { unfold s1, replaceAll. apply RegexProps.replace_from_keeps;
      [constructor | apply toLowerCase_no_upper]. }
  assert (H1' : Forall (fun c => isPunct c = false) s1).
  { unfold s1, replaceAll.
    apply RegexProps.replace_from_removes;
      [reflexivity | apply company_suffixes_at_punct | lia]. }
  assert (H2 : Forall (fun c => isUpper c = false /\ isPunct c = false) s2).
  { unfold s2, replaceAll. apply RegexProps.replace_from_keeps.
    - constructor; [now split | constructor].
    - now apply Forall_and. }
  apply RegexProps.Forall_occurs with s2;
    [apply RegexProps.trim_occurs | exact H2].
Qed.

End MatchingExtras.

(* ================================================================== *)
(** * More properties of the Orchestrator                               *)
(* ================================================================== *)

Module PipelineExtras.

Import Transitions JS Db Matching Exc Pipeline.
Import DbProps TransitionProps MatchingProps PipelineProps.
Local Open Scope N_scope.

Lemma single_filter_only (row : Type) (p : row -> bool) (l : list row)
    (a b : row) :
  single (filter p l) = Some a -> In b l -> p b = true -> b = a.
Proof.
  intros Hs Hb Hp. apply single_some in Hs.
  assert (Hin : In b (filter p l)) by (apply filter_In; auto).
  rewrite Hs in Hin. destruct Hin as [<- | []]. reflexivity.
Qed.

Lemma filter_none (row : Type) (p : row -> bool) (l : list row) :
  (forall b, In b l -> p b = false) -> filter p l = [].
Proof.
  induction l as [| x l IH]; intro H; [reflexivity |].
  cbn [filter]. rewrite (H x) by now left.
  apply IH. intros b Hb. apply H. now right.
Qed.

(** With unique identifiers, a row of the table is found by its own. *)
Lemma application_by_id_unique (db : Database) (a : Application) :
  NoDup (map app_id (applications db)) ->
  In a (applications db) ->
  application_by_id db (app_id a) = Some a.
Proof.
  unfold application_by_id.
  induction (applications db) as [| x l IH]; intros Hnd Hin; [destruct Hin |].
  cbn [map] in Hnd. inversion Hnd as [| ? ? Hx Hl]; subst.
  cbn [filter]. destruct Hin as [-> | Hin].
  - rewrite N.eqb_refl.
    assert (Hnone : filter (fun b => N.eqb (app_id b) (app_id a)) l = []).
    { apply filter_none. intros b Hb.
      apply N.eqb_neq. intro He. apply Hx. rewrite <- He.
      now apply in_map. }
    now rewrite Hnone.
  - destruct (N.eqb_spec (app_id x) (app_id a)) as [He | _].
    + exfalso. apply Hx. rewrite He. now apply in_map.
    + now apply IH.
Qed.

Lemma update_latest_history_queue (db : Database) (id : uuid)
    (trigger : TriggerType) (emailId : uuid) :
  unmatched_emails (update_latest_history db id trigger emailId)
  = unmatched_emails db
  /\ length (status_history (update_latest_history db id trigger emailId))
     = length (status_history db).
Proof.
  unfold update_latest_history. destruct (firstn 1 _); [auto |].
  cbn [unmatched_emails status_history]. now rewrite length_map.
Qed.


Section MoreRuns.

Variable generateObject
  : jsstring -> jsstring -> outcome C.ClassificationResult.
Variable toISOString : Date -> jsstring.
Variable CLASSIFICATION_PROMPT : jsstring.
Variable parseDate : jsstring -> Date.

Local Abbreviation classified :=
  (C.classified generateObject toISOString CLASSIFICATION_PROMPT).
Local Abbreviation processEmail :=
  (processEmail generateObject toISOString CLASSIFICATION_PROMPT parseDate).
Local Abbreviation recorded :=
  (recorded generateObject toISOString CLASSIFICATION_PROMPT parseDate).
Local Abbreviation run_lemma :=
  (@processEmail_run generateObject toISOString CLASSIFICATION_PROMPT
     parseDate).

(** ** The four ways a run can go *)

Lemma run_cases (event : EmailReceivedEvent) (db : Database) :
  let message := parse_email parseDate (Pipeline.email event) in
  let matchResult := matchEmailToApplication db (userId event) message in
  let c := classified message in
  let db1 := fst (recorded event db) in
  let emailId := email_id (snd (recorded event db)) in
  (applicationId matchResult = None
   /\ fst (processEmail event db)
      = insert_unmatched_email db1 (userId event) emailId
          (map app_id (getSuggestedApplications db1 (userId event) message 5))
          pending
   /\ snd (processEmail event db)
      = Returned (unmatched emailId (C.type c) (C.confidence c)))
  \/ (exists id,
        applicationId matchResult = Some id
        /\ application_by_id db id = None
        /\ fst (processEmail event db) = db1
        /\ snd (processEmail event db) = Raised PGRST116)
  \/ (exists id a,
        applicationId matchResult = Some id
        /\ application_by_id db id = Some a
        /\ shouldUpdate (getStatusTransition (C.type c) (C.confidence c)
                           (app_status a)) = false
        /\ fst (processEmail event db) = db1
        /\ snd (processEmail event db)
           = Returned
               (processed emailId id (C.type c) (C.confidence c) false
                  (newStatus (getStatusTransition (C.type c)
                                (C.confidence c) (app_status a)))
                  (needsReview (getStatusTransition (C.type c)
                                  (C.confidence c) (app_status a)))))
  \/ (exists id a new,
        applicationId matchResult = Some id
        /\ application_by_id db id = Some a
        /\ CLASSIFICATION_TO_STATUS (C.type c) = Some new
        /\ In new (VALID_TRANSITIONS (app_status a))
        /\ fst (processEmail event db)
           = update_latest_history
               (update_application_status db1 id new) id email_auto emailId
        /\ snd (processEmail event db)
           = Returned
               (processed emailId id (C.type c) (C.confidence c) true
                  (Some new)
                  (needsReview (getStatusTransition (C.type c)
                                  (C.confidence c) (app_status a))))).
Proof.
  cbv zeta. rewrite run_lemma. cbv zeta.
  destruct (applicationId _) as [id |] eqn:Hm.
  - right.
    change (application_by_id (fst (recorded event db)) id)
      with (application_by_id db id).
    destruct (application_by_id db id) as [a |] eqn:Ha.
    + right. cbv zeta.
      destruct (shouldUpdate _) eqn:Hup.
      * right. destruct (applied_update_facts _ _ _ Hup)
          as [t [Hmap [Hnew [Hin _]]]].
        rewrite Hnew, (trigger_of_applied_update _ _ _ Hup).
        exists id, a, t. repeat split; assumption.
      * left. exists id, a. repeat split; assumption.
    + left. exists id. repeat split; assumption.
  - left. repeat split.
Qed.

(** X16.  When the category of the classification maps to no status, and
    so whenever the model call fails, a run changes no application and
    no history row. *)
Theorem run_without_target_changes_nothing
    (event : EmailReceivedEvent) (db : Database) :
  let message := parse_email parseDate (Pipeline.email event) in
  CLASSIFICATION_TO_STATUS (C.type (classified message)) = None
  \/ (exists error,
        generateObject CLASSIFICATION_PROMPT
          (C.formatEmailForClassification toISOString message)
        = Raised error) ->
  applications (fst (processEmail event db)) = applications db
  /\ status_history (fst (processEmail event db)) = status_history db.
Proof.
  intros message Hcase.
  assert (Hnone : CLASSIFICATION_TO_STATUS (C.type (classified message))
                  = None).
  { destruct Hcase as [H | [error H]]; [exact H |].
    unfold C.classified. now rewrite H. }
  destruct (run_cases event db)
    as [[_ [-> _]] | [[id [_ [_ [-> _]]]] | [[id [a [_ [_ [_ [-> _]]]]]]
       | [id [a [new [_ [_ [Hmap _]]]]]]]]];
    try (split; reflexivity).
  fold message in Hmap. rewrite Hnone in Hmap. discriminate Hmap.
Qed.

(** X17.  No run changes an application that is in a terminal status
    (accepted, rejected, withdrawn). *)
Theorem run_never_changes_a_terminal_application
    (event : EmailReceivedEvent) (db : Database) (a : Application) :
  In a (applications db) ->
  VALID_TRANSITIONS (app_status a) = [] ->
  In a (applications (fst (processEmail event db))).
Proof.
  intros Hin Hterminal.
  destruct (run_cases event db)
    as [[_ [-> _]] | [[id [_ [_ [-> _]]]] | [[id [a0 [_ [_ [_ [-> _]]]]]]
       | [id [a0 [new [_ [Ha0 [_ [Hlegal [-> _]]]]]]]]]]];
    try exact Hin.
  destruct (update_latest_history_frame
              (update_application_status (fst (recorded event db)) id new)
              id email_auto (email_id (snd (recorded event db)))) as [-> _].
  rewrite update_application_status_applications.
  change (applications (fst (recorded event db))) with (applications db).
  apply in_map_iff. exists a. split; [| exact Hin].
  destruct (N.eqb (app_id a) id) eqn:Hhit; [| reflexivity].
  assert (a = a0)
    by exact (@single_filter_only Application
                (fun b => N.eqb (app_id b) id) (applications db) a0 a
                Ha0 Hin Hhit).
  subst a0. rewrite Hterminal in Hlegal. destruct Hlegal.
Qed.

Lemma Forall2_map_same (row : Type) (R : row -> row -> Prop)
    (f : row -> row) (l : list row) :
  (forall a, In a l -> R a (f a)) -> Forall2 R l (map f l).
Proof.
  induction l as [| x l IH]; intro H; cbn [map]; constructor.
  - apply H. now left.
  - apply IH. intros a Ha. apply H. now right.
Qed.

(** The matched application that a run reads is the user's. *)
Lemma matched_application_is_owned (event : EmailReceivedEvent)
    (db : Database) (id : uuid) (a : Application) :
  applicationId
    (matchEmailToApplication db (userId event)
       (parse_email parseDate (Pipeline.email event))) = Some id ->
  application_by_id db id = Some a ->
  app_user_id a = userId event /\ app_id a = id.
Proof.
  intros Hm Ha.
  destruct (MatchingExtras.matched_id_is_owned _ _ _ Hm) as [m [Hin [Hid Hu]]].
  assert (Hhit : N.eqb (app_id m) id = true) by now apply N.eqb_eq.
  assert (m = a)
    by exact (@single_filter_only Application
                (fun b => N.eqb (app_id b) id) (applications db) a m
                Ha Hin Hhit).
  subst m. auto.
Qed.

(** X18.  A run creates and deletes no application and keeps the
    identifier, the owner, the job title, the company and the creation
    time of every one.  The only application it may change is the one the
    Matcher returned, which is an application of the user of the event. *)
Theorem run_changes_at_most_the_matched_application
    (event : EmailReceivedEvent) (db : Database) :
  Forall2
    (fun a a' =>
       app_id a' = app_id a
       /\ app_user_id a' = app_user_id a
       /\ job_title a' = job_title a
       /\ company_name a' = company_name a
       /\ app_created_at a' = app_created_at a
       /\ (a' <> a ->
           app_user_id a = userId event
           /\ applicationId
                (matchEmailToApplication db (userId event)
                   (parse_email parseDate (Pipeline.email event)))
              = Some (app_id a)))
    (applications db) (applications (fst (processEmail event db))).
Proof.
  assert (Hsame : forall l : list Application,
            Forall2
              (fun a a' =>
                 app_id a' = app_id a
                 /\ app_user_id a' = app_user_id a
                 /\ job_title a' = job_title a
                 /\ company_name a' = company_name a
                 /\ app_created_at a' = app_created_at a
                 /\ (a' <> a ->
                     app_user_id a = userId event
                     /\ applicationId
                          (matchEmailToApplication db (userId event)
                             (parse_email parseDate (Pipeline.email event)))
                        = Some (app_id a))) l l).
  { intro l. rewrite <- (map_id l) at 2. apply Forall2_map_same.
    intros a _. do 5 (split; [reflexivity |]). intro H. now elim H. }
  destruct (run_cases event db)
    as [[_ [-> _]] | [[id [_ [_ [-> _]]]] | [[id [a0 [_ [_ [_ [-> _]]]]]]
       | [id [a0 [new [Hm [Ha0 [_ [_ [-> _]]]]]]]]]]];
    try apply Hsame.
  destruct (update_latest_history_frame
              (update_application_status (fst (recorded event db)) id new)
              id email_auto (email_id (snd (recorded event db)))) as [-> _].
  rewrite update_application_status_applications.
  change (applications (fst (recorded event db))) with (applications db).
  apply Forall2_map_same. intros a Hin.
  destruct (N.eqb (app_id a) id) eqn:Hhit.
  - assert (a = a0)
      by exact (@single_filter_only Application
                  (fun b => N.eqb (app_id b) id) (applications db) a0 a
                  Ha0 Hin Hhit).
    subst a0. destruct (matched_application_is_owned event db Hm Ha0)
      as [Hu Hid].
    do 5 (split; [reflexivity |]). intros _.
    split; [exact Hu | now rewrite Hid].
  - do 5 (split; [reflexivity |]). intro H. now elim H.
Qed.

(** X19.  The history grows by one row in the runs that report an
    applied update, and is left as it is in all others, also those that
    throw. *)
Theorem history_grows_exactly_by_applied_updates
    (event : EmailReceivedEvent) (db : Database) :
  ((exists emailId id c q new review,
      snd (processEmail event db)
      = Returned (processed emailId id c q true new review))
   /\ length (status_history (fst (processEmail event db)))
      = S (length (status_history db)))
  \/ ((forall emailId id c q new review,
         snd (processEmail event db)
         <> Returned (processed emailId id c q true new review))
      /\ status_history (fst (processEmail event db)) = status_history db).
Proof.
  destruct (run_cases event db)
    as [[_ [-> ->]] | [[id [_ [_ [-> ->]]]] | [[id [a0 [_ [_ [_ [-> ->]]]]]]
       | [id [a0 [new [_ [Ha0 [_ [Hlegal [-> ->]]]]]]]]]]].
  - right. split; [intros; discriminate | reflexivity].
  - right. split; [intros; discriminate | reflexivity].
  - right. split; [intros; discriminate | reflexivity].
  - left. split; [do 6 eexists; reflexivity |].
    destruct (update_latest_history_queue
                (update_application_status (fst (recorded event db)) id new)
                id email_auto (email_id (snd (recorded event db))))
      as [_ ->].
    assert (Hchange : app_status a0 <> new).
    { intro He. rewrite <- He in Hlegal.
      apply includes_status_In in Hlegal.
      now rewrite no_self_transition in Hlegal. }
    rewrite (@update_application_status_history
               (fst (recorded event db)) id new a0 Ha0 Hchange).
    rewrite length_app. cbn [length]. change (status_history
      (fst (recorded event db))) with (status_history db). lia.
Qed.


(** X21.  When a run reports an applied update, the application it read
    is the user's, the new status is a legal next status of the status
    it read, and the application has the new status afterwards. *)
Theorem applied_update_follows_a_legal_edge
    (event : EmailReceivedEvent) (db db' : Database)
    (emailId id : uuid) (c : EmailClassification) (q : number)
    (newStatus : option ApplicationStatus) (review : bool) :
  processEmail event db
  = (db', Returned (processed emailId id c q true newStatus review)) ->
  exists before after new,
    newStatus = Some new
    /\ application_by_id db id = Some before
    /\ app_user_id before = userId event
    /\ In new (VALID_TRANSITIONS (app_status before))
    /\ application_by_id db' id = Some after
    /\ app_status after = new
    /\ app_user_id after = userId event.
Proof.
  intro Hrun.
  pose proof (f_equal fst Hrun) as Hdb. cbn [fst] in Hdb.
  pose proof (f_equal snd Hrun) as Hres. cbn [snd] in Hres. clear Hrun.
  destruct (run_cases event db)
    as [[_ [_ Hs]] | [[id0 [_ [_ [_ Hs]]]] | [[id0 [a0 [_ [_ [_ [_ Hs]]]]]]
       | [id0 [a0 [new [Hm [Ha0 [_ [Hlegal [Hf Hs]]]]]]]]]]];
    rewrite Hs in Hres; try discriminate Hres.
  assert (Hid : id0 = id) by now injection Hres.
  assert (Hnew : Some new = newStatus) by now injection Hres.
  subst id0. clear Hres Hs.
  destruct (matched_application_is_owned event db Hm Ha0) as [Hu Hida].
  set (f := fun a => if N.eqb (app_id a) id
                     then set_status new (clock (fst (recorded event db))) a
                     else a).
  assert (Hrows : applications db' = map f (applications db)).
  { rewrite <- Hdb, Hf.
    destruct (update_latest_history_frame
                (update_application_status (fst (recorded event db)) id new)
                id email_auto (email_id (snd (recorded event db))))
      as [-> _].
    now rewrite update_application_status_applications. }
  exists a0, (f a0), new.
  split; [now symmetry |]. split; [exact Ha0 |]. split; [exact Hu |].
  split; [exact Hlegal |]. split.
  - rewrite (@application_by_id_rewritten db db' f Hrows
               (keeps_identity_set_status id new
                  (clock (fst (recorded event db))))).
    now rewrite Ha0.
  - unfold f. rewrite Hida, N.eqb_refl. split; [reflexivity | exact Hu].
Qed.

End MoreRuns.

Lemma run_without_target_changes_nothing_witness :
  applications
    (fst (Examples.run Examples.timing_out Examples.interview_at_stripe
            Examples.sample_db))
  = applications Examples.sample_db
  /\ status_history
       (fst (Examples.run Examples.timing_out Examples.interview_at_stripe
               Examples.sample_db))
     = status_history Examples.sample_db.
Proof.
  apply (@run_without_target_changes_nothing
           Examples.timing_out Examples.sample_iso Examples.sample_prompt
           Examples.sample_parse Examples.interview_at_stripe
           Examples.sample_db).
  right. exists (str "timeout"). reflexivity.
Defined.

Lemma run_never_changes_a_terminal_application_witness :
  In (Examples.application 4 Examples.user "Alphabet" REJECTED 40)
     (applications
        (fst (Examples.run (Examples.answering INTERVIEW_REQUEST 0.95%Q)
                Examples.interview_at_stripe Examples.sample_db))).
Proof.
  apply (@run_never_changes_a_terminal_application
           (Examples.answering INTERVIEW_REQUEST 0.95%Q)
           Examples.sample_iso Examples.sample_prompt Examples.sample_parse
           Examples.interview_at_stripe Examples.sample_db).
  - vm_compute. tauto.
  - reflexivity.
Defined.

Lemma applied_update_follows_a_legal_edge_witness :
  exists before after new,
    Some INTERVIEWING = Some new
    /\ application_by_id Examples.sample_db 2 = Some before
    /\ app_user_id before = Examples.user
    /\ In new (VALID_TRANSITIONS (app_status before))
    /\ application_by_id
         (fst (Examples.run (Examples.answering INTERVIEW_REQUEST 0.95%Q)
                 Examples.interview_at_stripe Examples.sample_db)) 2
       = Some after
    /\ app_status after = new
    /\ app_user_id after = Examples.user.
Proof.
  apply (@applied_update_follows_a_legal_edge
           (Examples.answering INTERVIEW_REQUEST 0.95%Q)
           Examples.sample_iso Examples.sample_prompt Examples.sample_parse
           Examples.interview_at_stripe Examples.sample_db
           (fst (Examples.run (Examples.answering INTERVIEW_REQUEST 0.95%Q)
                   Examples.interview_at_stripe Examples.sample_db))
           100 2 INTERVIEW_REQUEST 0.95%Q (Some INTERVIEWING) false).
  vm_compute. reflexivity.
Defined.

End PipelineExtras.

(* ================================================================== *)
(** * Properties of the status route                                    *)
(* ================================================================== *)

Module StatusRouteProps.

Import Transitions JS Db StatusRoute.
Import DbProps TransitionProps PipelineProps.
Local Open Scope N_scope.

Lemma update_status_of_user_applications (db : Database) (id user : uuid)
    (new : ApplicationStatus) :
  applications (update_status_of_user db id user new)
  = map (fun a => if owned_by id user a
                  then set_status new (clock db) a else a)
        (applications db).
Proof.
  unfold update_status_of_user. cbn [applications].
  now destruct (create_status_history_frame
                  (filter (owned_by id user) (applications db)) new
                  {| applications :=
                       map (fun a => if owned_by id user a
                                     then set_status new (clock db) a else a)
                           (applications db);
                     application_emails := application_emails db;
                     unmatched_emails := unmatched_emails db;
                     status_history := status_history db;
                     next_uuid := next_uuid db;
                     clock := clock db |}) as [-> _].
Qed.

Lemma owned_by_set_status (id user : uuid) (new : ApplicationStatus)
    (now : timestamptz) (a : Application) :
  owned_by id user (if owned_by id user a then set_status new now a else a)
  = owned_by id user a.
Proof. now destruct (owned_by id user a) eqn:E. Qed.

Lemma application_of_user_after_update (db : Database) (id user : uuid)
    (new : ApplicationStatus) (a : Application) :
  application_of_user db id user = Some a ->
  application_of_user (update_status_of_user db id user new) id user
  = Some (set_status new (clock db) a).
Proof.
  intro Ha. unfold application_of_user in *.
  rewrite update_status_of_user_applications.
  rewrite filter_map_kept by (intro b; apply owned_by_set_status).
  rewrite single_map, Ha. cbn [option_map].
  apply single_some in Ha.
  assert (Hin : In a (filter (owned_by id user) (applications db)))
    by (rewrite Ha; now left).
  apply filter_In in Hin. destruct Hin as [_ Ho]. now rewrite Ho.
Qed.

(** A name that [validStatuses] holds is not the empty string. *)
Lemma valid_status_truthy (name : jsstring) (s : ApplicationStatus) :
  valid_status validStatuses name = Some s -> truthy name = true.
Proof. destruct name; [vm_compute; discriminate | reflexivity]. Qed.

(** X23.  The route never changes an application of another user, and
    changes nothing at all for a request without a user. *)
Theorem manual_update_touches_only_own_applications
    (body : Body) (db : Database) :
  fst (PUT None body db) = db
  /\ forall user a,
       In a (applications db) ->
       app_user_id a <> user ->
       In a (applications (fst (PUT (Some user) body db))).
Proof.
  split; [reflexivity |].
  intros user a Hin Hother. unfold PUT.
  destruct (body_applicationId body) as [id |]; [| exact Hin].
  destruct (body_status body) as [name |]; [| exact Hin].
  destruct (truthy name); [| exact Hin].
  destruct (valid_status validStatuses name) as [s |]; [| exact Hin].
  destruct (application_of_user db id user) as [existing |]; [| exact Hin].
  destruct (status_eqb (app_status existing) s); [exact Hin |].
  cbn [fst]. rewrite update_status_of_user_applications.
  apply in_map_iff. exists a. split; [| exact Hin].
  unfold owned_by.
  destruct (N.eqb_spec (app_user_id a) user) as [He | _];
    [contradiction |].
  now rewrite andb_false_r.
Qed.

(** X24.  For an application of the user, the route writes any valid
    status that differs from the current one, whether or not the
    transition table has that edge, and the trigger of the table records
    the change in the history as [manual]. *)
Theorem manual_update_writes_any_status
    (db : Database) (user id : uuid) (name : jsstring)
    (status : ApplicationStatus) (existing : Application) :
  application_of_user db id user = Some existing ->
  valid_status validStatuses name = Some status ->
  app_status existing <> status ->
  let out := PUT (Some user)
               {| body_applicationId := Some id; body_status := Some name |}
               db in
  snd out = Success false
  /\ application_of_user (fst out) id user
     = Some (set_status status (clock db) existing)
  /\ status_history (fst out)
     = status_history db ++
       [{| history_id := next_uuid db;
           history_application_id := app_id existing;
           from_status := Some (app_status existing);
           to_status := status;
           trigger_type := manual;
           trigger_email_id := None;
           history_created_at := clock db |}].
Proof.
  intros Ha Hvalid Hchange out. unfold out, PUT.
  cbn [body_applicationId body_status].
  rewrite (valid_status_truthy name Hvalid), Hvalid, Ha.
  destruct (status_eqb (app_status existing) status) eqn:E.
  - apply status_eqb_eq in E. contradiction.
  - cbn [fst snd]. split; [reflexivity |].
    split; [now apply application_of_user_after_update |].
    unfold application_of_user in Ha. apply single_some in Ha.
    unfold update_status_of_user. rewrite Ha.
    cbn [create_status_history]. rewrite E. reflexivity.
Qed.

Lemma manual_update_writes_any_status_witness :
  let out := PUT (Some Examples.user)
               {| body_applicationId := Some 4;
                  body_status := Some (str "INTERVIEWING") |}
               Examples.sample_db in
  ~ In INTERVIEWING (VALID_TRANSITIONS REJECTED)
  /\ snd out = Success false
  /\ application_of_user (fst out) 4 Examples.user
     = Some (set_status INTERVIEWING 50
               (Examples.application 4 Examples.user "Alphabet" REJECTED 40)).
Proof.
  intro out. split; [simpl; tauto |].
  destruct (@manual_update_writes_any_status
              Examples.sample_db Examples.user 4 (str "INTERVIEWING")
              INTERVIEWING
              (Examples.application 4 Examples.user "Alphabet" REJECTED 40))
    as [H1 [H2 _]].
  - vm_compute. reflexivity.
  - vm_compute. reflexivity.
  - discriminate.
  - split; [exact H1 | exact H2].
Defined.

(** X25.  The same request sent again after it succeeded changes
    nothing and answers [unchanged]. *)
Theorem manual_update_repeated_changes_nothing
    (user : uuid) (body : Body) (db : Database) (unchanged : bool) :
  snd (PUT (Some user) body db) = Success unchanged ->
  PUT (Some user) body (fst (PUT (Some user) body db))
  = (fst (PUT (Some user) body db), Success true).
Proof.
  unfold PUT.
  destruct (body_applicationId body) as [id |]; [| discriminate].
  destruct (body_status body) as [name |]; [| discriminate].
  destruct (truthy name); [| discriminate].
  destruct (valid_status validStatuses name) as [s |]; [| discriminate].
  destruct (application_of_user db id user) as [existing |] eqn:Ha;
    [| discriminate].
  destruct (status_eqb (app_status existing) s) eqn:E; intros _; cbn [fst].
  - now rewrite Ha, E.
  - rewrite (application_of_user_after_update db id user s Ha).
    cbn [app_status set_status].
    assert (Hs : status_eqb s s = true) by now apply status_eqb_eq.
    now rewrite Hs.
Qed.

Lemma manual_update_repeated_changes_nothing_witness :
  let body := {| body_applicationId := Some 2;
                 body_status := Some (str "WITHDRAWN") |} in
  PUT (Some Examples.user) body
    (fst (PUT (Some Examples.user) body Examples.sample_db))
  = (fst (PUT (Some Examples.user) body Examples.sample_db), Success true).
Proof.
  intro body.
  apply (@manual_update_repeated_changes_nothing
           Examples.user body Examples.sample_db false).
  vm_compute. reflexivity.
Defined.

End StatusRouteProps.

(* ================================================================== *)
(** * The run with its failures                                         *)
(* ================================================================== *)

Module RuntimeProps.

Import Transitions JS Db Matching Exc Pipeline Runtime.
Import DbProps TransitionProps PipelineProps.
Local Open Scope N_scope.

(** The Matcher reads no date: whatever stands for the date of a
    message, the match is the same. *)
Lemma matcher_reads_no_date (db : Database) (userId : uuid)
    (email : Matching.ParsedEmail) (d : Date) :
  matchEmailToApplication db userId
    {| Matching.from := Matching.from email;
       Matching.fromName := Matching.fromName email;
       Matching.subject := Matching.subject email;
       Matching.body := Matching.body email;
       Matching.receivedAt := d |}
  = matchEmailToApplication db userId email.
Proof.
  destruct email as [f n s b d'].
  cbn [Matching.from Matching.fromName Matching.subject Matching.body].
  reflexivity.
Qed.

(** ** The column [DECIMAL(3,2)] *)

(** A tie is rounded away from zero, and 9.995 no longer fits. *)
Lemma decimal_3_2_samples :
  decimal_3_2 0.755 = Some 0.76%Q
  /\ decimal_3_2 0.5 = Some 0.50%Q
  /\ decimal_3_2 (-0.125) = Some (-0.13)%Q
  /\ decimal_3_2 9.995 = None.
Proof. repeat split; vm_compute; reflexivity. Qed.

Lemma round_half_away_near (q : Q) :
  (inject_Z (round_half_away q) - 0.5 <= q
   /\ q <= inject_Z (round_half_away q) + 0.5)%Q.
Proof.
  unfold round_half_away. destruct (Qle_bool 0 q).
  - pose proof (Qfloor_le (q + 0.5)) as Hlo.
    pose proof (Qlt_floor (q + 0.5)) as Hhi.
    rewrite inject_Z_plus in Hhi.
    change (inject_Z 1) with 1%Q in Hhi.
    generalize dependent (inject_Z (Qfloor (q + 0.5))). intros z Hlo Hhi.
    split; lra.
  - pose proof (Qfloor_le (- q + 0.5)) as Hlo.
    pose proof (Qlt_floor (- q + 0.5)) as Hhi.
    rewrite inject_Z_plus in Hhi.
    change (inject_Z 1) with 1%Q in Hhi.
    rewrite inject_Z_opp.
    generalize dependent (inject_Z (Qfloor (- q + 0.5))). intros z Hlo Hhi.
    split; lra.
Qed.

(** What the column stores is a number of hundredths, within half a
    hundredth of the value. *)
Lemma decimal_3_2_rounds (q stored : Q) :
  decimal_3_2 q = Some stored ->
  (exists hundredths : Z,
     stored = Qmake hundredths 100 /\ (Z.abs hundredths < 1000)%Z)
  /\ (q - 0.005 <= stored /\ stored <= q + 0.005)%Q.
Proof.
  unfold decimal_3_2. cbv zeta.
  destruct (Z.abs _ <? 1000)%Z eqn:Hfit; [| discriminate].
  intro H. injection H as <-. apply Z.ltb_lt in Hfit.
  split; [eexists; split; [reflexivity | exact Hfit] |].
  destruct (round_half_away_near (q * 100)) as [Hlo Hhi].
  assert (Hh : (Qmake (round_half_away (q * 100)) 100 * 100
                == inject_Z (round_half_away (q * 100)))%Q).
  { unfold Qeq, Qmult, inject_Z. simpl. lia. }
  set (s := Qmake (round_half_away (q * 100)) 100) in *. clearbody s.
  set (h := inject_Z (round_half_away (q * 100))) in *. clearbody h.
  split; lra.
Qed.

(** A confidence that the schema admits fits the column. *)
Lemma decimal_3_2_of_confidence (q : Q) :
  (0 <= q)%Q -> (q <= 1)%Q -> exists stored, decimal_3_2 q = Some stored.
Proof.
  intros H0 H1. unfold decimal_3_2. cbv zeta.
  destruct (round_half_away_near (q * 100)) as [Hlo Hhi].
  assert (Hup : (round_half_away (q * 100) < 101)%Z).
  { rewrite Zlt_Qlt. change (inject_Z 101) with 101%Q. lra. }
  assert (Hdown : (-1 < round_half_away (q * 100))%Z).
  { rewrite Zlt_Qlt. change (inject_Z (-1)) with (-1)%Q. lra. }
  assert (Hfit : (Z.abs (round_half_away (q * 100)) <? 1000)%Z = true)
    by (apply Z.ltb_lt; lia).
  rewrite Hfit. eauto.
Qed.

Section Runs.

Variable generateObject
  : jsstring -> jsstring -> outcome C.ClassificationResult.
Variable toISOString : Date -> jsstring.
Variable CLASSIFICATION_PROMPT : jsstring.
Variable parseDate : jsstring -> JSDate.

Local Abbreviation classifyEmail :=
  (Runtime.classifyEmail generateObject toISOString CLASSIFICATION_PROMPT).
Local Abbreviation classified :=
  (Runtime.classified generateObject CLASSIFICATION_PROMPT).
Local Abbreviation parse_email := (Runtime.parse_email parseDate).
Local Abbreviation processEmail :=
  (Runtime.processEmail generateObject toISOString CLASSIFICATION_PROMPT
     parseDate).
Local Abbreviation recorded :=
  (Runtime.recorded generateObject toISOString CLASSIFICATION_PROMPT
     parseDate).

(** ** [classifyEmail] *)

Lemma classifyEmail_of_valid_date (email : ParsedEmail) (t : Date) :
  receivedAt email = ValidDate t ->
  classifyEmail email
  = Returned (classified (prompt_text email (toISOString t))).
Proof.
  intro Hdate.
  unfold Runtime.classifyEmail, formatEmailForClassification,
    Runtime.classified.
  rewrite Hdate. cbn [toISOString_of bind].
  unfold try_catch, bind. now destruct (generateObject _ _).
Qed.

Lemma classifyEmail_of_invalid_date (email : ParsedEmail) :
  receivedAt email = InvalidDate ->
  classifyEmail email = Raised RangeError.
Proof.
  intro Hdate. unfold Runtime.classifyEmail, formatEmailForClassification.
  now rewrite Hdate.
Qed.

(** On a date that holds a time value, it is the [classifyEmail] of
    [Classifier]. *)
Lemma classifyEmail_agrees_on_valid_date (email : ParsedEmail) (t : Date) :
  receivedAt email = ValidDate t ->
  classifyEmail email
  = C.classifyEmail generateObject toISOString CLASSIFICATION_PROMPT
      (texts email).
Proof.
  intro Hdate.
  unfold Runtime.classifyEmail, formatEmailForClassification,
    C.classifyEmail, C.formatEmailForClassification, texts.
  rewrite Hdate. reflexivity.
Qed.

(** ** A run, step by step *)

Lemma run_undated (store : StoreAnswers)
    (event : EmailReceivedEvent) (db : Database) :
  parseDate (raw_receivedAt (Pipeline.email event)) = InvalidDate ->
  processEmail store event db = (db, Raised RangeError).
Proof.
  intro Hdate.
  unfold Runtime.processEmail, and_then, query, await. cbv zeta.
  rewrite classifyEmail_of_invalid_date by exact Hdate. reflexivity.
Qed.

Lemma run_refused (store : StoreAnswers)
    (event : EmailReceivedEvent) (db : Database) (t : Date)
    (error : jsstring) :
  parseDate (raw_receivedAt (Pipeline.email event)) = ValidDate t ->
  insert_email_error store = Some error ->
  processEmail store event db = (db, Raised error).
Proof.
  intros Hdate Herror.
  unfold Runtime.processEmail, and_then, query, await. cbv zeta.
  set (message := Runtime.parse_email parseDate (Pipeline.email event)).
  assert (Hd : receivedAt message = ValidDate t) by exact Hdate.
  rewrite (classifyEmail_of_valid_date message Hd).
  unfold create_email_record. rewrite Hd. cbn [toISOString_of].
  now rewrite Herror.
Qed.

Lemma run_overflow (store : StoreAnswers)
    (event : EmailReceivedEvent) (db : Database) (t : Date) :
  parseDate (raw_receivedAt (Pipeline.email event)) = ValidDate t ->
  insert_email_error store = None ->
  decimal_3_2
    (C.confidence
       (classified (prompt_text (parse_email (Pipeline.email event))
                      (toISOString t)))) = None ->
  processEmail store event db = (db, Raised numeric_field_overflow).
Proof.
  intros Hdate Herror Hover.
  unfold Runtime.processEmail, and_then, query, await. cbv zeta.
  set (message := Runtime.parse_email parseDate (Pipeline.email event)) in *.
  assert (Hd : receivedAt message = ValidDate t) by exact Hdate.
  rewrite (classifyEmail_of_valid_date message Hd).
  unfold create_email_record. rewrite Hd. cbn [toISOString_of].
  now rewrite Herror, Hover.
Qed.

Lemma run_step_by_step (store : StoreAnswers)
    (event : EmailReceivedEvent) (db : Database) (t : Date) (stored : Q) :
  let email := parse_email (Pipeline.email event) in
  let classification := classified (prompt_text email (toISOString t)) in
  parseDate (raw_receivedAt (Pipeline.email event)) = ValidDate t ->
  insert_email_error store = None ->
  decimal_3_2 (C.confidence classification) = Some stored ->
  processEmail store event db =
  let matchResult :=
    matchEmailToApplication db (userId event) (texts email) in
  let db1 := fst (recorded event t stored db) in
  let emailRecord := snd (recorded event t stored db) in
  match applicationId matchResult with
  | None =>
      (match insert_unmatched_error store with
       | Some _ => db1
       | None =>
           insert_unmatched_email db1 (userId event) (email_id emailRecord)
             (map app_id
                (match suggestions_error store with
                 | Some _ => []
                 | None =>
                     getSuggestedApplications db1 (userId event)
                       (texts email) 5
                 end))
             pending
       end,
       Returned (unmatched (email_id emailRecord)
                   (C.type classification) (C.confidence classification)))
  | Some id =>
      match get_application_error store with
      | Some error => (db1, Raised error)
      | None =>
          match application_by_id db1 id with
          | None => (db1, Raised PGRST116)
          | Some application =>
              let transition :=
                getStatusTransition (C.type classification)
                  (C.confidence classification) (app_status application) in
              let result :=
                Returned (processed (email_id emailRecord) id
                            (C.type classification)
                            (C.confidence classification)
                            (shouldUpdate transition)
                            (newStatus transition)
                            (needsReview transition)) in
              match shouldUpdate transition, newStatus transition with
              | true, Some status =>
                  match update_status_error store with
                  | Some updateError => (db1, Raised updateError)
                  | None =>
                      (match update_history_error store with
                       | Some _ => update_application_status db1 id status
                       | None =>
                           update_latest_history
                             (update_application_status db1 id status) id
                             (getTriggerType (C.confidence classification))
                             (email_id emailRecord)
                       end, result)
                  end
              | _, _ => (db1, result)
              end
          end
      end
  end.
Proof.
  intros email classification Hdate Herror Hstored.
  unfold Runtime.processEmail, and_then, query, await. cbv zeta.
  fold email.
  assert (Hd : receivedAt email = ValidDate t) by exact Hdate.
  rewrite (classifyEmail_of_valid_date email Hd). fold classification.
  unfold create_email_record. rewrite Hd. cbn [toISOString_of].
  rewrite Herror, Hstored.
  unfold Runtime.recorded. fold email. fold classification.
  unfold insert_application_email. cbn [fst snd].
  destruct (applicationId _) as [id |].
  - unfold get_application, and_then, query, ret, throw.
    destruct (get_application_error store); [reflexivity |].
    destruct (application_by_id _ id) as [a |]; [| reflexivity].
    destruct (shouldUpdate _); [| reflexivity].
    destruct (newStatus _); [| reflexivity].
    unfold update_application_status_step, and_then, execute, ret, throw.
    destruct (update_status_error store); [reflexivity |].
    destruct (update_history_error store); reflexivity.
  - unfold create_unmatched_record, and_then, query, execute, ret.
    destruct (insert_unmatched_error store); [reflexivity |].
    destruct (suggestions_error store); reflexivity.
Qed.

(** A run that gets past the insert leaves exactly one more email
    record, whatever happens afterwards. *)
Lemma run_emails (store : StoreAnswers)
    (event : EmailReceivedEvent) (db : Database) (t : Date) (stored : Q) :
  parseDate (raw_receivedAt (Pipeline.email event)) = ValidDate t ->
  insert_email_error store = None ->
  decimal_3_2
    (C.confidence
       (classified (prompt_text (parse_email (Pipeline.email event))
                      (toISOString t)))) = Some stored ->
  application_emails (fst (processEmail store event db))
  = application_emails db ++ [snd (recorded event t stored db)]
  /\ forall r, snd (processEmail store event db) = Returned r ->
       emailId_of r = email_id (snd (recorded event t stored db)).
Proof.
  intros Hdate Herror Hstored.
  rewrite (run_step_by_step store event db Hdate Herror Hstored). cbv zeta.
  destruct (applicationId _) as [id |].
  - destruct (get_application_error store);
      [split; [reflexivity | discriminate] |].
    destruct (application_by_id _ id) as [a |];
      [| split; [reflexivity | discriminate]].
    destruct (shouldUpdate _);
      [| split; [reflexivity | intros r H; now injection H as <-]].
    destruct (newStatus _) as [ns |];
      [| split; [reflexivity | intros r H; now injection H as <-]].
    destruct (update_status_error store);
      [split; [reflexivity | discriminate] |].
    split; [| intros r H; now injection H as <-].
    cbn [fst]. destruct (update_history_error store).
    + now rewrite update_application_status_emails.
    + match goal with
      | |- application_emails (update_latest_history ?d ?i ?g ?e) = _ =>
          destruct (update_latest_history_frame d i g e) as [_ ->]
      end.
      now rewrite update_application_status_emails.
  - split; [| intros r H; now injection H as <-].
    cbn [fst]. now destruct (insert_unmatched_error store).
Qed.

(** C8, amended.  For an email whose date holds a time value,
    [classifyEmail] never raises to its caller: it returns a
    classification, and when the model call fails it returns the safe
    default (generic update, confidence 0.5, a reasoning that says that
    the classification failed), so that a run whose insert the store
    accepts writes an email record with that classification. *)
Theorem classifyEmail_swallows_model_failures
    (email : ParsedEmail) (t : Date) :
  receivedAt email = ValidDate t ->
  (exists r, classifyEmail email = Returned r)
  /\ (forall error,
        generateObject CLASSIFICATION_PROMPT
          (prompt_text email (toISOString t)) = Raised error ->
        classifyEmail email =
        Returned
          {| C.type := GENERIC_UPDATE;
             C.confidence := 0.5%Q;
             C.reasoning :=
               str "Classification failed, defaulting to generic update";
             C.extractedData := None |})
  /\ (forall store event db error,
        email = parse_email (Pipeline.email event) ->
        generateObject CLASSIFICATION_PROMPT
          (prompt_text email (toISOString t)) = Raised error ->
        insert_email_error store = None ->
        exists row,
          application_emails (fst (processEmail store event db))
          = application_emails db ++ [row]
          /\ classification row = GENERIC_UPDATE
          /\ (classification_confidence row == 0.5)%Q).
Proof.
  intro Hdate. split; [| split].
  - eexists. exact (classifyEmail_of_valid_date email Hdate).
  - intros error Hfail.
    rewrite (classifyEmail_of_valid_date email Hdate).
    unfold Runtime.classified. now rewrite Hfail.
  - intros store event db error -> Hfail Herror.
    assert (Hdefault :
      classified (prompt_text (parse_email (Pipeline.email event))
                    (toISOString t)) = C.safe_default).
    { unfold Runtime.classified. now rewrite Hfail. }
    assert (Hstored :
      decimal_3_2
        (C.confidence
           (classified (prompt_text (parse_email (Pipeline.email event))
                          (toISOString t)))) = Some (Qmake 50 100)).
    { rewrite Hdefault. vm_compute. reflexivity. }
    destruct (run_emails store event db Hdate Herror Hstored)
      as [Hrows _].
    exists (snd (recorded event t (Qmake 50 100) db)).
    split; [exact Hrows |].
    unfold Runtime.recorded, insert_application_email.
    cbn [snd classification classification_confidence].
    rewrite Hdefault. split; reflexivity.
Qed.

(** X14.  A run writes its email record exactly when the date of the
    event holds a time value, the store accepts the insert and the
    confidence fits the column: the record is then the only row added to
    the table, whether the run returns or throws afterwards, it is the
    one whose identifier a returned run reports, and it holds the user,
    the application the Matcher found, the sender, the subject, the first
    500 characters of the body, the text of the date, the category, and
    the confidence rounded to hundredths.  In every other case the run
    throws and leaves the database as it was. *)
Theorem email_record_is_written_when_the_insert_is_accepted
    (store : StoreAnswers) (event : EmailReceivedEvent) (db : Database) :
  let message := parse_email (Pipeline.email event) in
  let run := processEmail store event db in
  match receivedAt message with
  | InvalidDate => run = (db, Raised RangeError)
  | ValidDate t =>
      let c := classified (prompt_text message (toISOString t)) in
      match insert_email_error store, decimal_3_2 (C.confidence c) with
      | Some error, _ => run = (db, Raised error)
      | None, None => run = (db, Raised numeric_field_overflow)
      | None, Some stored =>
          exists row,
            application_emails (fst run) = application_emails db ++ [row]
            /\ (forall r, snd run = Returned r -> emailId_of r = email_id row)
            /\ email_user_id row = userId event
            /\ email_application_id row
               = applicationId
                   (matchEmailToApplication db (userId event)
                      (texts message))
            /\ from_address row = raw_from (Pipeline.email event)
            /\ email_subject row = raw_subject (Pipeline.email event)
            /\ body_preview row
               = firstn 500 (raw_body (Pipeline.email event))
            /\ received_at row = toISOString t
            /\ classification row = C.type c
            /\ classification_confidence row = stored
            /\ (C.confidence c - 0.005 <= stored
                /\ stored <= C.confidence c + 0.005)%Q
            /\ is_manually_classified row = false
      end
  end.
Proof.
  intros message run.
  destruct (receivedAt message) as [t |] eqn:Hdate.
  - cbv zeta.
    destruct (insert_email_error store) as [error |] eqn:Herror.
    + exact (run_refused store event db Hdate Herror).
    + destruct (decimal_3_2 _) as [stored |] eqn:Hstored.
      * destruct (run_emails store event db Hdate Herror Hstored)
          as [Hrows Hid].
        exists (snd (recorded event t stored db)).
        split; [exact Hrows | split; [exact Hid |]].
        destruct (decimal_3_2_rounds _ Hstored) as [_ Hnear].
        unfold Runtime.recorded, insert_application_email.
        cbn [snd email_user_id email_application_id from_address
             email_subject body_preview received_at classification
             classification_confidence is_manually_classified
             Runtime.parse_email from subject body].
        repeat split; apply Hnear.
      * exact (run_overflow store event db Hdate Herror Hstored).
  - exact (run_undated store event db Hdate).
Qed.

(** X15.  A run returns when the date of the event holds a time value,
    the confidence of the classification lies between 0 and 1, the
    identifiers of the applications are unique, and the store accepts the
    insert of the email record, the read of the matched application and
    the update of its status: the read then finds exactly the row whose
    identifier the Matcher returned. *)
Theorem run_returns_when_the_store_accepts
    (store : StoreAnswers) (event : EmailReceivedEvent) (db : Database)
    (t : Date) :
  let message := parse_email (Pipeline.email event) in
  let c := classified (prompt_text message (toISOString t)) in
  receivedAt message = ValidDate t ->
  (0 <= C.confidence c)%Q -> (C.confidence c <= 1)%Q ->
  NoDup (map app_id (applications db)) ->
  insert_email_error store = None ->
  get_application_error store = None ->
  update_status_error store = None ->
  exists r, snd (processEmail store event db) = Returned r.
Proof.
  intros message c Hdate H0 H1 Hnd Hinsert Hget Hupdate.
  destruct (decimal_3_2_of_confidence H0 H1) as [stored Hstored].
  rewrite (run_step_by_step store event db Hdate Hinsert Hstored). cbv zeta.
  destruct (applicationId _) as [id |] eqn:Hm; [| cbn [snd]; eauto].
  rewrite Hget.
  destruct (MatchingExtras.matched_id_is_owned _ _ _ Hm) as [a [Hin [Hid _]]].
  change (application_by_id (fst (recorded event t stored db)) id)
    with (application_by_id db id).
  rewrite <- Hid, (PipelineExtras.application_by_id_unique db a Hnd Hin).
  cbv zeta.
  destruct (shouldUpdate _); [| cbn [snd]; eauto].
  destruct (newStatus _); [| cbn [snd]; eauto].
  rewrite Hupdate. cbn [snd]. eauto.
Qed.

(** X22.  The prompt of the classification depends on the body only
    through its first 2000 characters: for two messages that agree on
    the sender, the subject, the date and those characters,
    [formatEmailForClassification] gives the same prompt, or throws the
    same error. *)
Theorem prompt_reads_2000_characters_of_the_body
    (email email' : ParsedEmail) :
  from email = from email' ->
  fromName email = fromName email' ->
  subject email = subject email' ->
  receivedAt email = receivedAt email' ->
  firstn 2000 (body email) = firstn 2000 (body email') ->
  formatEmailForClassification toISOString email
  = formatEmailForClassification toISOString email'.
Proof.
  intros Hfrom Hname Hsubject Hdate Hbody.
  unfold formatEmailForClassification, prompt_text, fromName_or_unknown,
    slice0.
  cbv zeta. now rewrite Hfrom, Hname, Hsubject, Hdate, Hbody.
Qed.

(** For a date that holds a time value, a store that accepts every call
    and a confidence that is a number of hundredths, the run is the one
    of [Pipeline]. *)
Lemma run_agrees_with_pipeline (parseDate' : jsstring -> Date)
    (event : EmailReceivedEvent) (db : Database) :
  let t := parseDate' (raw_receivedAt (Pipeline.email event)) in
  let c := classified (prompt_text (parse_email (Pipeline.email event))
                         (toISOString t)) in
  parseDate (raw_receivedAt (Pipeline.email event)) = ValidDate t ->
  decimal_3_2 (C.confidence c) = Some (C.confidence c) ->
  processEmail accepting event db
  = Pipeline.processEmail generateObject toISOString CLASSIFICATION_PROMPT
      parseDate' event db.
Proof.
  intros t c Hdate Hstored.
  rewrite (@run_step_by_step accepting event db t (C.confidence c) Hdate
             eq_refl Hstored).
  rewrite PipelineProps.processEmail_run.
  assert (Htexts :
    texts (parse_email (Pipeline.email event))
    = Pipeline.parse_email parseDate' (Pipeline.email event)).
  { unfold texts, Runtime.parse_email, Pipeline.parse_email.
    cbn [from fromName subject body receivedAt]. now rewrite Hdate. }
  unfold Runtime.recorded, Pipeline.recorded, insert_email_record.
  cbv zeta. rewrite Htexts.
  cbn [accepting insert_unmatched_error suggestions_error
       get_application_error update_status_error update_history_error].
  destruct (applicationId _) as [id |]; [| reflexivity].
  destruct (application_by_id _ id) as [a |]; [| reflexivity].
  destruct (shouldUpdate _); [| reflexivity].
  destruct (newStatus _); reflexivity.
Qed.

End Runs.

(** C8, as stated, fails: for a message whose date holds no time value
    [classifyEmail] raises, although the model would answer, and the run
    writes no email record. *)
Lemma classifyEmail_raises_on_invalid_date :
  (forall r,
     Runtime.classifyEmail
       (Examples.answering INTERVIEW_REQUEST 0.95%Q)
       Examples.sample_iso Examples.sample_prompt
       (Runtime.parse_email RuntimeExamples.parse_or_invalid
          (Pipeline.email RuntimeExamples.undated))
     <> Returned r)
  /\ Runtime.classifyEmail
       (Examples.answering INTERVIEW_REQUEST 0.95%Q)
       Examples.sample_iso Examples.sample_prompt
       (Runtime.parse_email RuntimeExamples.parse_or_invalid
          (Pipeline.email RuntimeExamples.undated))
     = Raised RangeError
  /\ RuntimeExamples.run (Examples.answering INTERVIEW_REQUEST 0.95%Q)
       accepting RuntimeExamples.undated Examples.sample_db
     = (Examples.sample_db, Raised RangeError).
Proof.
  split; [| split].
  - intros r H. vm_compute in H. discriminate H.
  - vm_compute. reflexivity.
  - vm_compute. reflexivity.
Qed.

Lemma classifyEmail_swallows_model_failures_witness :
  Runtime.classifyEmail Examples.timing_out Examples.sample_iso
    Examples.sample_prompt
    (Runtime.parse_email RuntimeExamples.parse_or_invalid
       (Pipeline.email Examples.from_unknown_sender))
  = Returned
      {| C.type := GENERIC_UPDATE;
         C.confidence := 0.5%Q;
         C.reasoning :=
           str "Classification failed, defaulting to generic update";
         C.extractedData := None |}.
Proof.
  apply (@classifyEmail_swallows_model_failures
           Examples.timing_out Examples.sample_iso Examples.sample_prompt
           RuntimeExamples.parse_or_invalid
           (Runtime.parse_email RuntimeExamples.parse_or_invalid
              (Pipeline.email Examples.from_unknown_sender))
           1767603600000%Z)
    with (error := str "timeout").
  - reflexivity.
  - reflexivity.
Defined.

Lemma run_returns_when_the_store_accepts_witness :
  exists r,
    snd (RuntimeExamples.run (Examples.answering INTERVIEW_REQUEST 0.95%Q)
           accepting Examples.interview_at_stripe Examples.sample_db)
    = Returned r.
Proof.
  apply (@run_returns_when_the_store_accepts
           (Examples.answering INTERVIEW_REQUEST 0.95%Q)
           Examples.sample_iso Examples.sample_prompt
           RuntimeExamples.parse_or_invalid accepting
           Examples.interview_at_stripe Examples.sample_db
           1767603600000%Z).
  - reflexivity.
  - vm_compute. discriminate.
  - vm_compute. discriminate.
  - repeat (apply NoDup_cons; [cbn; intuition discriminate |]).
    apply NoDup_nil.
  - reflexivity.
  - reflexivity.
  - reflexivity.
Defined.

Lemma prompt_reads_2000_characters_of_the_body_witness :
  body (RuntimeExamples.with_long_body 98)
  <> body (RuntimeExamples.with_long_body 99)
  /\ formatEmailForClassification Examples.sample_iso
       (RuntimeExamples.with_long_body 98)
     = formatEmailForClassification Examples.sample_iso
         (RuntimeExamples.with_long_body 99).
Proof.
  split; [vm_compute; discriminate |].
  apply (@prompt_reads_2000_characters_of_the_body
           Examples.sample_iso
           (RuntimeExamples.with_long_body 98)
           (RuntimeExamples.with_long_body 99));
    vm_compute; reflexivity.
Defined.

End RuntimeProps.
